(** * CIP-64 transactions of the Celo fork of ethers.js

    A shallow embedding of [src.ts/chain/celo.ts] (the standalone
    variant, module [Celo] below) and of the plugin variant of the same
    codec (module [Plugin]), with the properties of their serializer,
    parser, constructor and gas-estimation hook.

    Conventions of the embedding.
    - A JavaScript [bigint] or integral [number] is a [Z].
    - A [Uint8Array] and a data hex string (["0x.."], always produced by
      [hexlify] in the code) are both the byte sequence they denote, a
      [list byte]; address strings are kept as [string]s, because the
      address normalizer inspects their text.
    - A throwing function returns [Err e]; evaluation order is the order
      of the binds.
    - [null] and [undefined] are both [None] for the fields the code
      only ever tests with [!= null]; the fee currency, for which the two
      variants produce different empty values, is a three-valued
      [Nullable].
    - The two source files import their helpers from [../utils],
      [../address], [../crypto] and [../transaction]; those modules are
      not part of the sources at hand.  Each helper is modelled from the
      specification, in a definition marked as such; the digest and the
      last check of a signature are parameters (class [Crypto]). *)

From Stdlib Require Import ZArith List String Ascii Bool Lia.
From Stdlib.Strings Require Import Byte.
From stdpp Require Import base gmap strings pretty.
Import ListNotations.

Local Open Scope string_scope.
Local Open Scope list_scope.
Local Open Scope Z_scope.

(** ** Bytes *)

Abbreviation bytes := (list byte).

Definition Z_of_byte (b : byte) : Z := Z.of_N (Byte.to_N b).

(** Storing a number into a [Uint8Array] slot wraps modulo 256. *)
Definition byte_of_Z (z : Z) : byte :=
  match Byte.of_N (Z.to_N (z mod 256)) with
  | Some b => b
  | None => x00
  end.

(** Big-endian value of a byte sequence ([BigInt("0x..")] on its hex
    string, [unarrayifyInteger] in the list codec). *)
Definition be_value (b : bytes) : Z :=
  fold_left (fun acc x => acc * 256 + Z_of_byte x) b 0.

(** The loop [while (value) { result.unshift(value & 0xff); value >>= 8 }]. *)
Fixpoint be_loop (fuel : nat) (value : Z) (result : bytes) : bytes :=
  match fuel with
  | O => result
  | S fuel' =>
      if value =? 0 then result
      else be_loop fuel' (value / 256) (byte_of_Z (value mod 256) :: result)
  end.

(** Minimal big-endian bytes of a non-negative integer; zero is the
    empty sequence.  The fuel [log2 value + 1] bounds the byte count. *)
Definition be_bytes (value : Z) : bytes :=
  be_loop (S (Z.to_nat (Z.log2 value))) value [].

(** ** Recursive-list (RLP) structured data *)

Unset Elimination Schemes.
Inductive RlpItem : Type :=
| RBytes (b : bytes)
| RList (items : list RlpItem).
Set Elimination Schemes.

(** ** Errors *)

(** The first four are error codes of the library; [JS_TYPE_ERROR] stands
    for a [TypeError] of the JavaScript runtime. *)
Inductive ErrorCode : Type :=
| INVALID_ARGUMENT
| UNSUPPORTED_OPERATION
| BUFFER_OVERRUN
| NUMERIC_FAULT
| JS_TYPE_ERROR.

(** The offending value carried by an error. *)
Inductive ErrValue : Type :=
| EUndefined
| ENull
| EString (s : string)
| ENumber (z : Z)
| EData (r : RlpItem).

Record Error : Type := mkError {
  code : ErrorCode;
  message : string;
  (** the argument name of [assertArgument], the operation of [assert] *)
  argument : string;
  value_of : ErrValue
}.

Inductive Result (A : Type) : Type :=
| Ok (a : A)
| Err (e : Error).
Arguments Ok {A} a.
Arguments Err {A} e.

Definition bind {A B : Type} (r : Result A) (k : A -> Result B) : Result B :=
  match r with
  | Ok a => k a
  | Err e => Err e
  end.

Notation "'let*' x ':=' e 'in' k" := (bind e (fun x => k))
  (at level 10, x pattern, e at level 100, k at level 200).

Definition is_ok {A : Type} (r : Result A) : bool :=
  match r with Ok _ => true | Err _ => false end.

(** Modelled from the spec: [assertArgument(check, message, name, value)]
    of [../utils] is not under src/; a failed check is a "validation
    error", which "carries the field name and/or offending raw value". *)
Definition assertArgument (check : bool) (msg name : string) (v : ErrValue)
  : Result unit :=
  if check then Ok tt else Err (mkError INVALID_ARGUMENT msg name v).

(** Modelled from the spec: [assert(check, message, code, info)] of
    [../utils] is not under src/; a failed check is an error of the given
    code, which names the operation. *)
Definition assert (check : bool) (msg : string) (c : ErrorCode) (op : string)
  : Result unit :=
  if check then Ok tt else Err (mkError c msg op EUndefined).

Fixpoint mapM {A B : Type} (f : A -> Result B) (l : list A) : Result (list B) :=
  match l with
  | [] => Ok []
  | x :: xs => let* y := f x in let* ys := mapM f xs in Ok (y :: ys)
  end.

(** ** Hex strings *)

Definition is_digit (c : ascii) : bool :=
  let n := N_of_ascii c in ((48 <=? n) && (n <=? 57))%N.
Definition is_lower_hex (c : ascii) : bool :=
  let n := N_of_ascii c in ((97 <=? n) && (n <=? 102))%N.
Definition is_upper_hex (c : ascii) : bool :=
  let n := N_of_ascii c in ((65 <=? n) && (n <=? 70))%N.

(** The character class [[0-9a-fA-F]]. *)
Definition is_hex_digit (c : ascii) : bool :=
  is_digit c || is_lower_hex c || is_upper_hex c.

Definition hex_digit_value (c : ascii) : Z :=
  let n := Z.of_N (N_of_ascii c) in
  if is_digit c then n - 48
  else if is_lower_hex c then n - 87
  else n - 55.

(** The lower-case hex digit of a nibble. *)
Definition hex_char (v : Z) : ascii :=
  ascii_of_N (Z.to_N (if v <? 10 then v + 48 else v + 87)).

(** [toLowerCase] and [toUpperCase] restricted to what can occur in a
    hex string: only the letters [a-f]/[A-F] change. *)
Definition to_lower (c : ascii) : ascii :=
  if is_upper_hex c then ascii_of_N (N_of_ascii c + 32) else c.
Definition to_upper (c : ascii) : ascii :=
  if is_lower_hex c then ascii_of_N (N_of_ascii c - 32) else c.

Fixpoint hex_chars (b : bytes) : list ascii :=
  match b with
  | [] => []
  | x :: rest =>
      hex_char (Z_of_byte x / 16) :: hex_char (Z_of_byte x mod 16) :: hex_chars rest
  end.

(** Modelled from the spec: [hexlify] of [../utils] is not under src/; it
    writes a byte sequence as ["0x"] followed by two lower-case hex digits
    per byte. *)
Definition hexlify (b : bytes) : string :=
  String "0" (String "x" (string_of_list_ascii (hex_chars b))).

Fixpoint hex_pairs (l : list ascii) : option bytes :=
  match l with
  | [] => Some []
  | hi :: lo :: rest =>
      if is_hex_digit hi && is_hex_digit lo then
        match hex_pairs rest with
        | Some b => Some (byte_of_Z (16 * hex_digit_value hi + hex_digit_value lo) :: b)
        | None => None
        end
      else None
  | _ => None
  end.

(** Modelled from the spec: [getBytes] of [../utils] is not under src/; on
    a string it accepts ["0x"] followed by an even number of hex digits of
    either case and returns the bytes, and rejects anything else. *)
Definition getBytes (s : string) : Result bytes :=
  match s with
  | String "0" (String "x" body) =>
      match hex_pairs (list_ascii_of_string body) with
      | Some b => Ok b
      | None => Err (mkError INVALID_ARGUMENT "invalid BytesLike value" "value" (EString s))
      end
  | _ => Err (mkError INVALID_ARGUMENT "invalid BytesLike value" "value" (EString s))
  end.

(** ** The [../crypto] collaborators

    The digest is a black box ("Hash primitive: digest(bytes) -> 32-byte
    value"), and so is the final check of a signature: [Signature.from]
    "may further validate low-s / recovery consistency", here the test
    [acceptable_signature r s yParity]. *)

Record Signature : Type := mkSignature {
  sig_r : bytes;
  sig_s : bytes;
  sig_yParity : Z
}.

Class Crypto : Type := {
  keccak256 : bytes -> bytes;
  acceptable_signature : bytes -> bytes -> Z -> bool
}.

(** Modelled from the spec: [Signature.from({ r, s, yParity })] of
    [../crypto] is not under src/; it builds the signature, or rejects
    it. *)
Definition Signature_from `{Crypto} (r s : bytes) (yParity : Z) : Result Signature :=
  let* _ := assertArgument (acceptable_signature r s yParity) "invalid signature"
              "signature" (EData (RList [RBytes r; RBytes s])) in
  Ok (mkSignature r s yParity).

(** ** Addresses *)

(** A value that may be a string, [null] or [undefined]. *)
Inductive Nullable (A : Type) : Type :=
| JsUndefined
| JsNull
| JsVal (a : A).
Arguments JsUndefined {A}.
Arguments JsNull {A}.
Arguments JsVal {A} a.

Definition err_value (v : Nullable string) : ErrValue :=
  match v with
  | JsUndefined => EUndefined
  | JsNull => ENull
  | JsVal s => EString s
  end.

(** JavaScript truthiness of such a value: the empty string is falsy. *)
Definition truthy (v : Nullable string) : bool :=
  match v with
  | JsVal s => negb (String.eqb s "")
  | _ => false
  end.

Definition ascii_byte (c : ascii) : byte := byte_of_Z (Z.of_N (N_of_ascii c)).

(** Upper-cases the [i]-th digit when the [i]-th nibble of the digest is
    at least 8; [hashed] is consumed one byte per two digits. *)
Fixpoint checksum_chars (chars : list ascii) (hashed : bytes) : list ascii :=
  match chars with
  | hi :: lo :: rest =>
      let h := Z_of_byte (hd x00 hashed) in
      (if 8 <=? h / 16 then to_upper hi else hi)
        :: (if 8 <=? h mod 16 then to_upper lo else lo)
        :: checksum_chars rest (tl hashed)
  | _ => chars
  end.

(** The mixed-case checksum spelling of forty hex digits. *)
Definition getChecksumAddress `{Crypto} (digits : list ascii) : string :=
  let chars := map to_lower digits in
  let hashed := keccak256 (map ascii_byte chars) in
  String "0" (String "x" (string_of_list_ascii (checksum_chars chars hashed))).

(** Does the text hold both an upper-case and a lower-case hex letter? *)
Definition mixed_case (digits : list ascii) : bool :=
  existsb is_upper_hex digits && existsb is_lower_hex digits.

(** The forty digits of a string matching [^(0x)?[0-9a-fA-F]{40}$]. *)
Definition address_digits (s : string) : option (list ascii) :=
  let body :=
    match s with
    | String "0" (String "x" rest) => list_ascii_of_string rest
    | _ => list_ascii_of_string s
    end in
  if forallb is_hex_digit body && (Nat.eqb (length body) 40) then Some body
  else None.

(** Modelled from the spec: [getAddress] of [../address] is not under
    src/.  "Address validator/normalizer: normalize(string|bytes) ->
    20-byte checksummed address, fails on malformed input": a value that
    is not a string, or a string that is not forty hex digits with an
    optional ["0x"], is rejected as an invalid address; a mixed-case
    spelling must carry the right checksum; the result is the checksummed
    spelling. *)
Definition getAddress `{Crypto} (address : Nullable string) : Result string :=
  match address with
  | JsVal s =>
      match address_digits s with
      | Some digits =>
          let result := getChecksumAddress digits in
          let* _ := assertArgument
                      (negb (mixed_case digits)
                       || String.eqb result (String "0" (String "x" (string_of_list_ascii digits))))
                      "bad address checksum" "address" (EString s) in
          Ok result
      | None => Err (mkError INVALID_ARGUMENT "invalid address" "address" (EString s))
      end
  | _ => Err (mkError INVALID_ARGUMENT "invalid address" "address" (err_value address))
  end.

(** ** Numbers *)

(** [x || 0] on a numeric field: [null], [undefined] and zero itself all
    give zero. *)
Definition or_zero (x : option Z) : Z :=
  match x with
  | Some v => v
  | None => 0
  end.

(** Modelled from the spec: [toBeArray] of [../utils] is not under src/.
    "Numeric fields are encoded as minimal big-endian byte sequences with
    no leading zero byte (zero encodes as empty byte sequence)"; the
    numbers are unsigned, and a negative one is a numeric fault. *)
Definition toBeArray (value : Z) : Result bytes :=
  let* _ := assert (0 <=? value) "unsigned value cannot be negative"
              NUMERIC_FAULT "getUint" in
  Ok (be_bytes value).

(** Modelled from the spec: [formatNumber] of
    [../transaction/transaction] is not under src/; it is [toBeArray]
    with the result limited to the 32 bytes of a 256-bit scalar. *)
Definition formatNumber (value : Z) (name : string) : Result bytes :=
  let* result := toBeArray value in
  let* _ := assertArgument (Nat.leb (length result) 32) "value too large"
              ("tx." ++ name)%string (ENumber value) in
  Ok result.

Definition BN_MAX_UINT : Z := 2 ^ 256 - 1.
Definition MAX_SAFE_INTEGER : Z := 2 ^ 53 - 1.

(** Modelled from the spec: [handleUint] of [../transaction/transaction]
    is not under src/.  "decode as unsigned integer": the empty sequence
    is zero, other bytes are read big-endian, a value beyond 256 bits or
    an element that is a list is an argument error naming the field. *)
Definition handleUint (_value : RlpItem) (param : string) : Result Z :=
  match _value with
  | RBytes [] => Ok 0
  | RBytes b =>
      let value := be_value b in
      let* _ := assertArgument (value <=? BN_MAX_UINT) "value exceeds uint size"
                  param (ENumber value) in
      Ok value
  | RList _ =>
      Err (mkError INVALID_ARGUMENT "invalid BigNumberish value" param (EData _value))
  end.

(** Modelled from the spec: [handleNumber] of
    [../transaction/transaction] is not under src/.  "decode as a plain
    (unsigned, bounded) number": as [handleUint], bounded by the largest
    safe integer of a JavaScript number. *)
Definition handleNumber (_value : RlpItem) (param : string) : Result Z :=
  match _value with
  | RBytes [] => Ok 0
  | RBytes b =>
      let value := be_value b in
      let* _ := assertArgument (value <=? MAX_SAFE_INTEGER) "overflow"
                  param (ENumber value) in
      Ok value
  | RList _ =>
      Err (mkError INVALID_ARGUMENT "invalid numeric value" param (EData _value))
  end.

(** Modelled from the spec: [handleAddress] of
    [../transaction/transaction] is not under src/.  "decode as address if
    non-empty, else absent/null": the empty element gives [null] (here
    [None]; the standalone parser turns it into [undefined] with
    [|| undefined], the plugin's stores it as it is). *)
Definition handleAddress `{Crypto} (value : RlpItem) : Result (option string) :=
  match value with
  | RBytes [] => Ok None
  | RBytes b => let* a := getAddress (JsVal (hexlify b)) in Ok (Some a)
  | RList _ =>
      Err (mkError INVALID_ARGUMENT "invalid address" "address" (EData value))
  end.

(** Modelled from the spec: [hexlify] of [../utils] (not under src/) on a
    decoded element, "raw bytes, hex-encoded": a byte string is its own
    hex string, a list is not bytes-like. *)
Definition hexlify_item (value : RlpItem) : Result bytes :=
  match value with
  | RBytes b => Ok b
  | RList _ =>
      Err (mkError INVALID_ARGUMENT "invalid BytesLike value" "value" (EData value))
  end.

(** ** The recursive-list codec *)

(** Big-endian bytes of a length (for lengths below 2^31, where the
    32-bit shifts of the loop agree with division). *)
Definition arrayifyInteger (value : Z) : bytes := be_bytes value.

Definition unarrayifyInteger (data : bytes) : Z := be_value data.

(** Modelled from the spec: [encodeRlp] of [../utils] is not under src/.
    "produces the canonical prefixed byte representation of a
    heterogeneous list of byte-strings/sub-lists": a single byte below
    0x80 is itself; a string of up to 55 bytes is prefixed by 0x80 + its
    length, a longer one by 0xb7 + the length of its length and the
    length; a list likewise with 0xc0 and 0xf7 over the concatenated
    encodings of its elements. *)
Fixpoint _encode (object : RlpItem) : bytes :=
  match object with
  | RList items =>
      let payload := flat_map _encode items in
      let n := Z.of_nat (length payload) in
      if n <=? 55 then byte_of_Z (0xc0 + n) :: payload
      else
        let len := arrayifyInteger n in
        byte_of_Z (0xf7 + Z.of_nat (length len)) :: len ++ payload
  | RBytes data =>
      let n := Z.of_nat (length data) in
      match data with
      | [x] =>
          if Z_of_byte x <=? 0x7f then data else byte_of_Z (0x80 + n) :: data
      | _ =>
          if n <=? 55 then byte_of_Z (0x80 + n) :: data
          else
            let len := arrayifyInteger n in
            byte_of_Z (0xb7 + Z.of_nat (length len)) :: len ++ data
      end
  end.

Definition encodeRlp (object : RlpItem) : bytes := _encode object.

Definition short_error {A : Type} (msg : string) : Result A :=
  Err (mkError BUFFER_OVERRUN msg "" EUndefined).

Definition checkOffset (within : bool) : Result unit :=
  if within then Ok tt else short_error "data short segment too short".

(** Modelled from the spec: the recursion of [decodeRlp].  [_decode]
    returns the item at the head of [data] and the bytes after it;
    [_decodeChildren] decodes a list payload to its end.  The fuel is an
    upper bound on twice the length of the data, see
    [_decode_fuel_irrelevant]. *)
Fixpoint _decode (fuel : nat) (data : bytes) {struct fuel}
  : Result (RlpItem * bytes) :=
  match fuel, data with
  | O, _ => short_error "data too short"
  | _, [] => short_error "data too short"
  | S fuel', b :: rest =>
      let n := Z_of_byte b in
      if 0xf8 <=? n then
        let lengthLength := Z.to_nat (n - 0xf7) in
        let* _ := checkOffset (Nat.leb lengthLength (length rest)) in
        let len := Z.to_nat (unarrayifyInteger (firstn lengthLength rest)) in
        let body := skipn lengthLength rest in
        let* _ := checkOffset (Nat.leb len (length body)) in
        let* children := _decodeChildren fuel' (firstn len body) in
        Ok (RList children, skipn len body)
      else if 0xc0 <=? n then
        let len := Z.to_nat (n - 0xc0) in
        let* _ := checkOffset (Nat.leb len (length rest)) in
        let* children := _decodeChildren fuel' (firstn len rest) in
        Ok (RList children, skipn len rest)
      else if 0xb8 <=? n then
        let lengthLength := Z.to_nat (n - 0xb7) in
        let* _ := checkOffset (Nat.leb lengthLength (length rest)) in
        let len := Z.to_nat (unarrayifyInteger (firstn lengthLength rest)) in
        let body := skipn lengthLength rest in
        let* _ := checkOffset (Nat.leb len (length body)) in
        Ok (RBytes (firstn len body), skipn len body)
      else if 0x80 <=? n then
        let len := Z.to_nat (n - 0x80) in
        let* _ := checkOffset (Nat.leb len (length rest)) in
        Ok (RBytes (firstn len rest), skipn len rest)
      else Ok (RBytes [b], rest)
  end
with _decodeChildren (fuel : nat) (payload : bytes) {struct fuel}
  : Result (list RlpItem) :=
  match payload, fuel with
  | [], _ => Ok []
  | _, O => short_error "data too short"
  | _, S fuel' =>
      let* decoded := _decode fuel' payload in
      let* others := _decodeChildren fuel' (snd decoded) in
      Ok (fst decoded :: others)
  end.

(** Modelled from the spec: [decodeRlp] of [../utils] is not under src/.
    "decode(bytes) -> list of byte-strings | nested lists, fails on
    malformed length prefixes"; bytes left over after the item are an
    argument error. *)
Definition decodeRlp (data : bytes) : Result RlpItem :=
  let* decoded := _decode (2 * length data) data in
  let* _ := assertArgument (Nat.eqb (length (snd decoded)) 0)
              "unexpected junk after rlp payload" "data" (EString (hexlify data)) in
  Ok (fst decoded).

(** What the code hands to [encodeRlp]: [Uint8Array]s and data hex
    strings (both [IBytes]), address strings, and arrays of these. *)
Unset Elimination Schemes.
Inductive RlpInput : Type :=
| IBytes (b : bytes)
| IAddress (s : string)
| IList (items : list RlpInput).
Set Elimination Schemes.

(** [encodeRlp] applies [getBytes] to every leaf. *)
Fixpoint rlp_item (object : RlpInput) : Result RlpItem :=
  match object with
  | IBytes b => Ok (RBytes b)
  | IAddress s => let* b := getBytes s in Ok (RBytes b)
  | IList items => let* l := mapM rlp_item items in Ok (RList l)
  end.

Definition encodeRlpInput (object : RlpInput) : Result bytes :=
  let* item := rlp_item object in Ok (encodeRlp item).

(** ** Access lists *)

Record AccessSet : Type := mkAccessSet {
  address : string;
  storageKeys : list bytes
}.

Abbreviation AccessList := (list AccessSet).

(** Part of [accessListify]: every storage key is 32 bytes. *)
Fixpoint check_slots (index : nat) (keys : list bytes) : Result (list bytes) :=
  match keys with
  | [] => Ok []
  | k :: rest =>
      let* _ := assertArgument (Nat.eqb (length k) 32) "invalid slot"
                  ("storageKeys[" ++ pretty index ++ "]")%string
                  (EData (RBytes k)) in
      let* others := check_slots (S index) rest in
      Ok (k :: others)
  end.

(** Part of [accessListify]: one entry, its address normalized. *)
Definition accessSetify `{Crypto} (addr : Nullable string) (keys : list bytes)
  : Result AccessSet :=
  let* a := getAddress addr in
  let* ks := check_slots 0 keys in
  Ok (mkAccessSet a ks).

(** Modelled from the spec: [accessListify] of [../transaction] is not
    under src/; on an access list of the data model ("ordered sequence of
    (address, ordered sequence of 32-byte storage keys) pairs") it
    normalizes every address and checks every key to be 32 bytes. *)
Definition accessListify `{Crypto} (value : AccessList) : Result AccessList :=
  mapM (fun set => accessSetify (JsVal (address set)) (storageKeys set)) value.

(** Modelled from the spec: [formatAccessList] of
    [../transaction/transaction] is not under src/.  "encoded as a nested
    list: outer list of pairs, each pair = [address bytes, list of 32-byte
    storage key byte sequences]; empty access list encodes as empty outer
    list". *)
Definition formatAccessList `{Crypto} (value : AccessList) : Result RlpInput :=
  let* sets := accessListify value in
  Ok (IList (map (fun set =>
                    IList [IAddress (address set);
                           IList (map IBytes (storageKeys set))]) sets)).

(** Part of [handleAccessList]: one decoded storage key. *)
Definition slot_of_item (key : RlpItem) : Result bytes :=
  match key with
  | RBytes k =>
      let* _ := assertArgument (Nat.eqb (length k) 32) "invalid slot"
                  "storageKeys" (EData key) in
      Ok k
  | RList _ => Err (mkError INVALID_ARGUMENT "invalid slot" "storageKeys" (EData key))
  end.

(** Part of [handleAccessList]: one decoded pair [[address, [key, ..]]]. *)
Definition set_of_item `{Crypto} (value set : RlpItem) : Result AccessSet :=
  match set with
  | RList [addr; keys] =>
      let* a := match addr with
                | RBytes b => getAddress (JsVal (hexlify b))
                | RList _ =>
                    Err (mkError INVALID_ARGUMENT "invalid address" "address" (EData addr))
                end in
      let* ks := match keys with
                 | RList l => mapM slot_of_item l
                 | RBytes _ =>
                     Err (mkError INVALID_ARGUMENT "storageKeys.map is not a function"
                            "storageKeys" (EData keys))
                 end in
      Ok (mkAccessSet a ks)
  | RList _ => Err (mkError INVALID_ARGUMENT "invalid slot set" "value" (EData set))
  | RBytes _ =>
      Err (mkError INVALID_ARGUMENT "invalid address-slot set" "value" (EData value))
  end.

(** Modelled from the spec: [handleAccessList] of
    [../transaction/transaction] is not under src/.  "decode each pair
    into (address, ordered list of storage keys); fails if shape
    malformed"; every failure is reported as an argument error naming the
    field and carrying the offending raw value. *)
Definition handleAccessList `{Crypto} (value : RlpItem) (param : string)
  : Result AccessList :=
  let decoded :=
    match value with
    | RList sets => mapM (set_of_item value) sets
    | RBytes _ =>
        Err (mkError INVALID_ARGUMENT "invalid access list" "value" (EData value))
    end in
  match decoded with
  | Ok l => Ok l
  | Err e => Err (mkError INVALID_ARGUMENT (message e) param (EData value))
  end.

(** ** The generic transaction types of [../transaction] *)

(** Modelled from the spec: the type [TransactionLike] of [../transaction]
    is not under src/; the fields of the data model, every one of them
    optional. *)
Record TransactionLike : Type := mkTransactionLike {
  tl_type : option Z;
  tl_chainId : option Z;
  tl_nonce : option Z;
  tl_maxPriorityFeePerGas : option Z;
  tl_maxFeePerGas : option Z;
  tl_gasPrice : option Z;
  tl_gasLimit : option Z;
  tl_to : option string;
  tl_value : option Z;
  tl_data : option bytes;
  tl_accessList : option AccessList;
  tl_hash : option bytes;
  tl_signature : option Signature
}.

Definition with_hash (tx : TransactionLike) (h : bytes) : TransactionLike :=
  mkTransactionLike (tl_type tx) (tl_chainId tx) (tl_nonce tx)
    (tl_maxPriorityFeePerGas tx) (tl_maxFeePerGas tx) (tl_gasPrice tx)
    (tl_gasLimit tx) (tl_to tx) (tl_value tx) (tl_data tx) (tl_accessList tx)
    (Some h) (tl_signature tx).

Definition with_signature (tx : TransactionLike) (sig : Signature) : TransactionLike :=
  mkTransactionLike (tl_type tx) (tl_chainId tx) (tl_nonce tx)
    (tl_maxPriorityFeePerGas tx) (tl_maxFeePerGas tx) (tl_gasPrice tx)
    (tl_gasLimit tx) (tl_to tx) (tl_value tx) (tl_data tx) (tl_accessList tx)
    (tl_hash tx) (Some sig).

(** Modelled from the spec: the base class [Transaction] of
    [../transaction] is not under src/; its state as its getters show it,
    where [None] is [null] (for [data], any falsy value). *)
Record Transaction : Type := mkTransaction {
  chainId : option Z;
  nonce : option Z;
  maxPriorityFeePerGas : option Z;
  maxFeePerGas : option Z;
  gasPrice : option Z;
  gasLimit : option Z;
  to : option string;
  value : option Z;
  data : option bytes;
  accessList : option AccessList;
  signature : option Signature
}.

(** [new Transaction()]: numbers zero, data empty, the rest unset. *)
Definition new_Transaction : Transaction :=
  mkTransaction (Some 0) (Some 0) None None None (Some 0) None (Some 0)
    (Some []) None None.

(** Modelled from the spec: [zeroPadValue(data, length)] of [../utils] is
    not under src/; it "normalizes r/s to fixed-width scalars", padding
    with zero bytes on the left; a longer value is an error. *)
Definition zeroPadValue (data : RlpItem) (len : nat) : Result bytes :=
  let* b := hexlify_item data in
  let* _ := assert (Nat.leb (length b) len) "padding exceeds data length"
              BUFFER_OVERRUN "zeroPad" in
  Ok (repeat x00 (len - length b) ++ b).

(** Modelled from the spec: [parseEipSignature] of
    [../transaction/transaction] is not under src/.  "Signature field
    parser: parse(list of 3 raw fields) -> {yParity, r, s} with internal
    validation, attached to a mutable target": "validates yParity in
    {0,1}, normalizes r/s to fixed-width scalars", and leaves any further
    validation to [Signature.from]. *)
Definition eipSignature `{Crypto} (fields : list RlpItem) : Result Signature :=
  let f0 := nth 0 fields (RBytes []) in
  let* yParity :=
    match handleNumber f0 "yParity" with
    | Ok y =>
        if (y =? 0) || (y =? 1) then Ok y
        else Err (mkError INVALID_ARGUMENT "invalid yParity" "yParity" (EData f0))
    | Err _ => Err (mkError INVALID_ARGUMENT "invalid yParity" "yParity" (EData f0))
    end in
  let* r := zeroPadValue (nth 1 fields (RBytes [])) 32 in
  let* s := zeroPadValue (nth 2 fields (RBytes [])) 32 in
  Signature_from r s yParity.

Definition parseEipSignature `{Crypto} (tx : TransactionLike) (fields : list RlpItem)
  : Result TransactionLike :=
  let* sig := eipSignature fields in
  Ok (with_signature tx sig).

Definition CIP_64_TYPE_NUMBER : Z := 123.
Definition CIP_64_TYPE_HEX : bytes := [x7b].

(** Modelled from the spec: [concat] of [../utils] is not under src/; it
    joins data hex strings. *)
Definition concat_bytes (parts : list bytes) : bytes := List.concat parts.

(** Modelled from the spec: the setters of the base class [Transaction]
    are not under src/.  The constructor makes a "selective copy" of the
    fields that are present; an address is stored normalized, an access
    list validated, a nonce must be a safe integer, the other values are
    stored as they are. *)
Definition set_to `{Crypto} (t : Transaction) (v : string) : Result Transaction :=
  let* a := getAddress (JsVal v) in
  Ok (mkTransaction (chainId t) (nonce t) (maxPriorityFeePerGas t) (maxFeePerGas t)
        (gasPrice t) (gasLimit t) (Some a) (value t) (data t) (accessList t)
        (signature t)).

Definition set_nonce (t : Transaction) (v : Z) : Result Transaction :=
  let* _ := assertArgument ((- MAX_SAFE_INTEGER <=? v) && (v <=? MAX_SAFE_INTEGER))
              "overflow" "value" (ENumber v) in
  Ok (mkTransaction (chainId t) (Some v) (maxPriorityFeePerGas t) (maxFeePerGas t)
        (gasPrice t) (gasLimit t) (to t) (value t) (data t) (accessList t)
        (signature t)).

Definition set_gasLimit (t : Transaction) (v : Z) : Result Transaction :=
  Ok (mkTransaction (chainId t) (nonce t) (maxPriorityFeePerGas t) (maxFeePerGas t)
        (gasPrice t) (Some v) (to t) (value t) (data t) (accessList t)
        (signature t)).

Definition set_gasPrice (t : Transaction) (v : Z) : Result Transaction :=
  Ok (mkTransaction (chainId t) (nonce t) (maxPriorityFeePerGas t) (maxFeePerGas t)
        (Some v) (gasLimit t) (to t) (value t) (data t) (accessList t)
        (signature t)).

Definition set_maxPriorityFeePerGas (t : Transaction) (v : Z) : Result Transaction :=
  Ok (mkTransaction (chainId t) (nonce t) (Some v) (maxFeePerGas t)
        (gasPrice t) (gasLimit t) (to t) (value t) (data t) (accessList t)
        (signature t)).

Definition set_maxFeePerGas (t : Transaction) (v : Z) : Result Transaction :=
  Ok (mkTransaction (chainId t) (nonce t) (maxPriorityFeePerGas t) (Some v)
        (gasPrice t) (gasLimit t) (to t) (value t) (data t) (accessList t)
        (signature t)).

Definition set_data (t : Transaction) (v : bytes) : Result Transaction :=
  Ok (mkTransaction (chainId t) (nonce t) (maxPriorityFeePerGas t) (maxFeePerGas t)
        (gasPrice t) (gasLimit t) (to t) (value t) (Some v) (accessList t)
        (signature t)).

Definition set_value (t : Transaction) (v : Z) : Result Transaction :=
  Ok (mkTransaction (chainId t) (nonce t) (maxPriorityFeePerGas t) (maxFeePerGas t)
        (gasPrice t) (gasLimit t) (to t) (Some v) (data t) (accessList t)
        (signature t)).

Definition set_chainId (t : Transaction) (v : Z) : Result Transaction :=
  Ok (mkTransaction (Some v) (nonce t) (maxPriorityFeePerGas t) (maxFeePerGas t)
        (gasPrice t) (gasLimit t) (to t) (value t) (data t) (accessList t)
        (signature t)).

(** [transaction.signature = Signature.from(from.signature)] (lines 158
    and 129): the value goes through [Signature.from], which rejects what
    is no signature. *)
Definition set_signature `{Crypto} (t : Transaction) (v : Signature)
  : Result Transaction :=
  let* sig := Signature_from (sig_r v) (sig_s v) (sig_yParity v) in
  Ok (mkTransaction (chainId t) (nonce t) (maxPriorityFeePerGas t) (maxFeePerGas t)
        (gasPrice t) (gasLimit t) (to t) (value t) (data t) (accessList t)
        (Some sig)).

Definition set_accessList `{Crypto} (t : Transaction) (v : AccessList)
  : Result Transaction :=
  let* l := accessListify v in
  Ok (mkTransaction (chainId t) (nonce t) (maxPriorityFeePerGas t) (maxFeePerGas t)
        (gasPrice t) (gasLimit t) (to t) (value t) (data t) (Some l)
        (signature t)).

(** [if (from.x != null) { transaction.x = from.x; }] *)
Definition copy_present {A : Type} (field : option A)
  (set : Transaction -> A -> Result Transaction) (t : Transaction)
  : Result Transaction :=
  match field with
  | Some v => set t v
  | None => Ok t
  end.

(** The eleven conditional assignments of the constructors, in the order
    of the source. *)
Definition copy_fields `{Crypto} (from : TransactionLike) (t : Transaction)
  : Result Transaction :=
  let* t := copy_present (tl_to from) set_to t in
  let* t := copy_present (tl_nonce from) set_nonce t in
  let* t := copy_present (tl_gasLimit from) set_gasLimit t in
  let* t := copy_present (tl_gasPrice from) set_gasPrice t in
  let* t := copy_present (tl_maxPriorityFeePerGas from) set_maxPriorityFeePerGas t in
  let* t := copy_present (tl_maxFeePerGas from) set_maxFeePerGas t in
  let* t := copy_present (tl_data from) set_data t in
  let* t := copy_present (tl_value from) set_value t in
  let* t := copy_present (tl_chainId from) set_chainId t in
  let* t := copy_present (tl_signature from) set_signature t in
  copy_present (tl_accessList from) set_accessList t.

(** ** The generic constructor

    Modelled from the spec: the base class [Transaction] of
    [../transaction] is not under src/.  "Generic base transaction type:
    fallback constructor from(input) -> Transaction", a black box: given
    a text or an object it returns a transaction of the base class, or
    fails.  It is a parameter of the development; [Like] is the type of
    the objects of the variant. *)
Record GenericTransaction : Type := mkGenericTransaction {
  generic_type : option Z;
  generic_fields : Transaction
}.

Class Generic (Like : Type) : Type := {
  Transaction_from_text : string -> Result GenericTransaction;
  Transaction_from_object : Like -> Result GenericTransaction
}.

(** ** Remote-call requests and the object store

    A request's arguments are JavaScript values; an object is a reference
    into the store, so that an assignment to a property of [args[0]] is
    seen by every holder of that object. *)

Abbreviation loc := positive.

Inductive JsValue : Type :=
| VUndefined
| VNull
| VString (s : string)
| VNumber (z : Z)
| VRef (l : loc).

(** An object is a plain data object: its own writable properties, and
    whether it is extensible, closed to new properties
    ([Object.preventExtensions], [Object.seal]) or frozen
    ([Object.freeze]). *)
Inductive Integrity : Type :=
| Extensible
| NonExtensible
| Frozen.

Record JsObject : Type := mkObject {
  properties : gmap string JsValue;
  integrity : Integrity
}.

Abbreviation Store := (gmap loc JsObject).

(** Does the object take an assignment to the property [key]?  A frozen
    object takes none, one closed to extension only to the properties it
    has. *)
Definition accepts (obj : JsObject) (key : string) : bool :=
  match integrity obj with
  | Extensible => true
  | NonExtensible =>
      match properties obj !! key with
      | Some _ => true
      | None => false
      end
  | Frozen => false
  end.

(** The object after the assignment. *)
Definition with_property (obj : JsObject) (key : string) (v : JsValue) : JsObject :=
  mkObject (<[key := v]> (properties obj)) (integrity obj).

Record JsonRpcRequestBody : Type := mkRequest {
  method : string;
  args : list JsValue
}.

(** [target.key = v] in strict mode: a [TypeError] unless [target] is an
    object that takes the assignment (a reference that the store does not
    hold cannot arise). *)
Definition set_property (σ : Store) (target : option JsValue) (key : string)
  (v : JsValue) : Result Store :=
  match target with
  | Some (VRef l) =>
      match σ !! l with
      | Some obj =>
          if accepts obj key then Ok (<[l := with_property obj key v]> σ)
          else Err (mkError JS_TYPE_ERROR "cannot assign to property" key EUndefined)
      | None => Err (mkError JS_TYPE_ERROR "dangling reference" key EUndefined)
      end
  | _ => Err (mkError JS_TYPE_ERROR "cannot set property" key EUndefined)
  end.

Definition js_of_nullable (v : Nullable string) : JsValue :=
  match v with
  | JsUndefined => VUndefined
  | JsNull => VNull
  | JsVal s => VString s
  end.

(** [x || undefined] on the result of [handleAddress]. *)
Definition or_undefined (x : option string) : Nullable string :=
  match x with
  | Some s => if truthy (JsVal s) then JsVal s else JsUndefined
  | None => JsUndefined
  end.

(** A result of [handleAddress] as it is: a string or [null]. *)
Definition or_null (x : option string) : Nullable string :=
  match x with
  | Some s => JsVal s
  | None => JsNull
  end.

(** ** The standalone variant: [src.ts/chain/celo.ts] *)

Module Celo.

(** [interface CeloTransactionLike extends TransactionLike]. *)
Record CeloTransactionLike : Type := mkCeloTransactionLike {
  base : TransactionLike;
  tl_feeCurrency : Nullable string
}.

(** [class Cip64Transaction extends Transaction], with its private
    field [#feeCurrency: string]. *)
Record Cip64Transaction : Type := mkCip64Transaction {
  fields : Transaction;
  feeCurrency : string
}.

(** [new Cip64Transaction()]: [#feeCurrency] is initialized to the empty
    string (line 25). *)
Definition new_Cip64Transaction : Cip64Transaction :=
  mkCip64Transaction new_Transaction "".

(** [set feeCurrency(value)] (lines 27-29): the setter normalizes. *)
Definition set_feeCurrency `{Crypto} (this : Cip64Transaction)
  (value : Nullable string) : Result Cip64Transaction :=
  let* a := getAddress value in
  Ok (mkCip64Transaction (fields this) a).

(** [get type()] and [get typeName()]: fixed for the class. *)
Definition type (this : Cip64Transaction) : Z := CIP_64_TYPE_NUMBER.

Definition typeName (this : Cip64Transaction) : option string := Some "cip-64".

(** [private serialize(signature?)] (lines 51-72).  The array literal is
    evaluated element by element, left to right; then the signature is
    pushed, then the whole is encoded. *)
Definition serialize `{Crypto} (this : Cip64Transaction)
  (signature : option Signature) : Result bytes :=
  let t := fields this in
  let* f_chainId := formatNumber (or_zero (chainId t)) "chainId" in
  let* f_nonce := formatNumber (or_zero (nonce t)) "nonce" in
  let* f_maxPriorityFeePerGas :=
    formatNumber (or_zero (maxPriorityFeePerGas t)) "maxPriorityFeePerGas" in
  let* f_maxFeePerGas := formatNumber (or_zero (maxFeePerGas t)) "maxFeePerGas" in
  let* f_gasLimit := formatNumber (or_zero (gasLimit t)) "gasLimit" in
  let* f_to :=
    match to t with
    | Some a => let* a' := getAddress (JsVal a) in Ok (IAddress a')
    | None => Ok (IBytes [])
    end in
  let* f_value := formatNumber (or_zero (value t)) "value" in
  let f_data := match data t with Some d => IBytes d | None => IBytes [] end in
  let* f_accessList :=
    formatAccessList (match accessList t with Some l => l | None => [] end) in
  let* f_feeCurrency := getAddress (JsVal (feeCurrency this)) in
  let fields :=
    [IBytes f_chainId; IBytes f_nonce; IBytes f_maxPriorityFeePerGas;
     IBytes f_maxFeePerGas; IBytes f_gasLimit; f_to; IBytes f_value; f_data;
     f_accessList; IAddress f_feeCurrency] in
  let* fields :=
    match signature with
    | Some sig =>
        let* y := formatNumber (sig_yParity sig) "yParity" in
        let* r := toBeArray (be_value (sig_r sig)) in
        let* s := toBeArray (be_value (sig_s sig)) in
        Ok (fields ++ [IBytes y; IBytes r; IBytes s])
    | None => Ok fields
    end in
  let* encoded := encodeRlpInput (IList fields) in
  Ok (concat_bytes [CIP_64_TYPE_HEX; encoded]).

(** [get unsignedSerialized()] (lines 41-43). *)
Definition unsignedSerialized `{Crypto} (this : Cip64Transaction) : Result bytes :=
  serialize this None.

(** [get serialized()] (lines 45-49). *)
Definition serialized `{Crypto} (this : Cip64Transaction) : Result bytes :=
  let* _ := assert (match signature (fields this) with Some _ => true | None => false end)
              "cannot serialize unsigned transaction; maybe you meant .unsignedSerialized"
              UNSUPPORTED_OPERATION ".serialized" in
  serialize this (signature (fields this)).

(** [static parseCip64(data)] (lines 74-105).  The two fee fields are
    decoded first, then the properties of the object literal in their
    order. *)
Definition parseCip64 `{Crypto} (data : bytes) : Result CeloTransactionLike :=
  let* decoded := decodeRlp (skipn 1 data) in
  let* _ := assertArgument
              (match decoded with
               | RList l => Nat.eqb (length l) 10 || Nat.eqb (length l) 13
               | RBytes _ => false
               end)
              "invalid field count for transaction type: CIP_64_TYPE_NUMBER"
              "data" (EString (hexlify data)) in
  let fields := match decoded with RList l => l | RBytes _ => [] end in
  let field i := nth i fields (RBytes []) in
  let* maxPriorityFeePerGas := handleUint (field 2%nat) "maxPriorityFeePerGas" in
  let* maxFeePerGas := handleUint (field 3%nat) "maxFeePerGas" in
  let* chainId := handleUint (field 0%nat) "chainId" in
  let* nonce := handleNumber (field 1%nat) "nonce" in
  let* gasLimit := handleUint (field 4%nat) "gasLimit" in
  let* to := handleAddress (field 5%nat) in
  let* value := handleUint (field 6%nat) "value" in
  let* data' := hexlify_item (field 7%nat) in
  let* accessList := handleAccessList (field 8%nat) "accessList" in
  let* feeCurrency := handleAddress (field 9%nat) in
  let tx :=
    mkTransactionLike (Some CIP_64_TYPE_NUMBER) (Some chainId) (Some nonce)
      (Some maxPriorityFeePerGas) (Some maxFeePerGas) None (Some gasLimit)
      to (Some value) (Some data') (Some accessList) None None in
  if Nat.eqb (length fields) 10 then
    Ok (mkCeloTransactionLike tx (or_undefined feeCurrency))
  else
    let tx := with_hash tx (keccak256 data) in
    let* tx := parseEipSignature tx (skipn 10 fields) in
    Ok (mkCeloTransactionLike tx (or_undefined feeCurrency)).

(** What [createTransaction] can be given. *)
Inductive CreateInput : Type :=
| FromUndefined
| FromInstance (t : Cip64Transaction)
| FromString (s : string)
| FromObject (o : CeloTransactionLike).

(** What it returns: a fresh base transaction, a CIP-64 transaction, or
    the transaction that the generic [Transaction.from] returned. *)
Inductive Created : Type :=
| NewTransaction
| Cip64 (t : Cip64Transaction)
| Delegated (t : GenericTransaction).

(** The branches of [createTransaction] for an object that is not an
    instance of the class; the fallback is a call of [Transaction.from],
    which may fail. *)
Definition createFromObject `{Crypto} `{Generic CeloTransactionLike}
  (from : CeloTransactionLike) : Result Created :=
  if (match tl_type (base from) with
      | Some ty => ty =? CIP_64_TYPE_NUMBER
      | None => false
      end) && truthy (tl_feeCurrency from)
  then
    let transaction := new_Cip64Transaction in
    let* transaction := set_feeCurrency transaction (tl_feeCurrency from) in
    let* t := copy_fields (base from) (fields transaction) in
    Ok (Cip64 (mkCip64Transaction t (feeCurrency transaction)))
  else
    let* t := Transaction_from_object from in
    Ok (Delegated t).

(** [celoAlfajores.createTransaction] (lines 125-166).  A falsy input is
    [undefined] or the empty string. *)
Definition createTransaction `{Crypto} `{Generic CeloTransactionLike}
  (from : CreateInput) : Result Created :=
  match from with
  | FromUndefined => Ok NewTransaction
  | FromInstance t => Ok (Cip64 t)
  | FromString s =>
      if String.eqb s "" then Ok NewTransaction
      else
        let* payload := getBytes s in
        match payload with
        | b :: _ =>
            if Z_of_byte b =? CIP_64_TYPE_NUMBER then
              let* parsed := parseCip64 payload in
              createFromObject parsed
            else
              let* t := Transaction_from_text s in
              Ok (Delegated t)
        | [] =>
            let* t := Transaction_from_text s in
            Ok (Delegated t)
        end
  | FromObject o => createFromObject o
  end.

(** [CeloTransactionRequest]: the request's type and fee currency. *)
Record CeloTransactionRequest : Type := mkCeloTransactionRequest {
  req_type : option Z;
  req_feeCurrency : Nullable string
}.


(** [celoAlfajores.prepareTransactionRequest] (lines 116-124): the result
    object holds the normalized fee currency, or nothing. *)
Definition prepareTransactionRequest `{Crypto} (request : CeloTransactionRequest)
  : Result (Nullable string) :=
  if truthy (req_feeCurrency request)
  then let* a := getAddress (req_feeCurrency request) in Ok (JsVal a)
  else Ok JsUndefined.

(** [PerformActionRequest]: the action and its transaction. *)
Record PerformActionRequest : Type := mkPerformActionRequest {
  ctx_method : string;
  ctx_transaction : CeloTransactionRequest
}.

(** [celoAlfajores.getRpcRequest] (lines 167-177).  It threads the store
    the request's objects live in, and returns the request it was
    given. *)
Definition getRpcRequest (σ : Store) (request : option JsonRpcRequestBody)
  (context : PerformActionRequest) : Result (Store * option JsonRpcRequestBody) :=
  match request with
  | Some r =>
      if String.eqb (method r) "eth_estimateGas"
         && String.eqb (ctx_method context) "estimateGas"
         && truthy (req_feeCurrency (ctx_transaction context))
      then
        let* σ' := set_property σ (nth_error (args r) 0) "feeCurrency"
                     (js_of_nullable (req_feeCurrency (ctx_transaction context))) in
        Ok (σ', request)
      else Ok (σ, request)
  | None => Ok (σ, request)
  end.

End Celo.

(** ** The plugin variant: the second source file *)

Module Plugin.

(** [type CeloCustomData = { feeCurrency?: string }]. *)
Record CeloCustomData : Type := mkCeloCustomData {
  cd_feeCurrency : Nullable string
}.

(** A [TransactionLike] with its [customData] bag. *)
Record PluginTransactionLike : Type := mkPluginTransactionLike {
  base : TransactionLike;
  customData : option CeloCustomData
}.

(** [class Cip64Transaction extends Transaction]; [#feeCurrency] has no
    initializer and is [undefined] until the setter runs. *)
Record Cip64Transaction : Type := mkCip64Transaction {
  fields : Transaction;
  feeCurrency : Nullable string
}.

(** [new Cip64Transaction()]: [#feeCurrency] has no initializer (line
    18). *)
Definition new_Cip64Transaction : Cip64Transaction :=
  mkCip64Transaction new_Transaction JsUndefined.

(** [set feeCurrency(value)] (lines 20-22): the setter normalizes. *)
Definition set_feeCurrency `{Crypto} (this : Cip64Transaction)
  (value : Nullable string) : Result Cip64Transaction :=
  let* a := getAddress value in
  Ok (mkCip64Transaction (fields this) (JsVal a)).

(** [get type()] and [get typeName()]: fixed for the class. *)
Definition type (this : Cip64Transaction) : Z := CIP_64_TYPE_NUMBER.

Definition typeName (this : Cip64Transaction) : option string := Some "cip-64".

(** [private serialize(signature?)] (lines 44-65), the same text as in
    the standalone class. *)
Definition serialize `{Crypto} (this : Cip64Transaction)
  (signature : option Signature) : Result bytes :=
  let t := fields this in
  let* f_chainId := formatNumber (or_zero (chainId t)) "chainId" in
  let* f_nonce := formatNumber (or_zero (nonce t)) "nonce" in
  let* f_maxPriorityFeePerGas :=
    formatNumber (or_zero (maxPriorityFeePerGas t)) "maxPriorityFeePerGas" in
  let* f_maxFeePerGas := formatNumber (or_zero (maxFeePerGas t)) "maxFeePerGas" in
  let* f_gasLimit := formatNumber (or_zero (gasLimit t)) "gasLimit" in
  let* f_to :=
    match to t with
    | Some a => let* a' := getAddress (JsVal a) in Ok (IAddress a')
    | None => Ok (IBytes [])
    end in
  let* f_value := formatNumber (or_zero (value t)) "value" in
  let f_data := match data t with Some d => IBytes d | None => IBytes [] end in
  let* f_accessList :=
    formatAccessList (match accessList t with Some l => l | None => [] end) in
  let* f_feeCurrency := getAddress (feeCurrency this) in
  let fields :=
    [IBytes f_chainId; IBytes f_nonce; IBytes f_maxPriorityFeePerGas;
     IBytes f_maxFeePerGas; IBytes f_gasLimit; f_to; IBytes f_value; f_data;
     f_accessList; IAddress f_feeCurrency] in
  let* fields :=
    match signature with
    | Some sig =>
        let* y := formatNumber (sig_yParity sig) "yParity" in
        let* r := toBeArray (be_value (sig_r sig)) in
        let* s := toBeArray (be_value (sig_s sig)) in
        Ok (fields ++ [IBytes y; IBytes r; IBytes s])
    | None => Ok fields
    end in
  let* encoded := encodeRlpInput (IList fields) in
  Ok (concat_bytes [CIP_64_TYPE_HEX; encoded]).

(** [get unsignedSerialized()] (lines 34-36). *)
Definition unsignedSerialized `{Crypto} (this : Cip64Transaction) : Result bytes :=
  serialize this None.

(** [get serialized()] (lines 38-42). *)
Definition serialized `{Crypto} (this : Cip64Transaction) : Result bytes :=
  let* _ := assert (match signature (fields this) with Some _ => true | None => false end)
              "cannot serialize unsigned transaction; maybe you meant .unsignedSerialized"
              UNSUPPORTED_OPERATION ".serialized" in
  serialize this (signature (fields this)).

(** [TransactionRequest] with its [customData] bag. *)
Record TransactionRequest : Type := mkTransactionRequest {
  req_type : option Z;
  req_customData : option CeloCustomData
}.

(** [PerformActionRequest]: the action and its transaction. *)
Record PerformActionRequest : Type := mkPerformActionRequest {
  ctx_method : string;
  ctx_transaction : TransactionRequest
}.

(** [customData && customData.feeCurrency], as a truth value. *)
Definition declares_feeCurrency (customData : option CeloCustomData) : bool :=
  match customData with
  | Some cd => truthy (cd_feeCurrency cd)
  | None => false
  end.

(** [customData.feeCurrency] where [customData] is known to be set. *)
Definition customData_feeCurrency (customData : option CeloCustomData)
  : Nullable string :=
  match customData with
  | Some cd => cd_feeCurrency cd
  | None => JsUndefined
  end.

(** [CeloRpcInterceptorPlugin.intercept] (lines 69-79).  It threads the
    store the request's objects live in, and returns the request it was
    given. *)
Definition intercept (σ : Store) (request : JsonRpcRequestBody)
  (context : PerformActionRequest) : Result (Store * JsonRpcRequestBody) :=
  if String.eqb (method request) "eth_estimateGas"
     && String.eqb (ctx_method context) "estimateGas"
     && declares_feeCurrency (req_customData (ctx_transaction context))
  then
    let* σ' := set_property σ (nth_error (args request) 0) "feeCurrency"
                 (js_of_nullable
                    (customData_feeCurrency (req_customData (ctx_transaction context)))) in
    Ok (σ', request)
  else Ok (σ, request).

(** [intercept] handed [null] for the request, against its declared
    type: unlike [getRpcRequest] it has no null test, so reading
    [request.method] raises a [TypeError]. *)
Definition intercept_nullable (σ : Store) (request : option JsonRpcRequestBody)
  (context : PerformActionRequest) : Result (Store * JsonRpcRequestBody) :=
  match request with
  | Some r => intercept σ r context
  | None => Err (mkError JS_TYPE_ERROR "cannot read properties of null" "method" ENull)
  end.


(** [CeloTransactionPlugin.parseCip64] (lines 143-176); the fee currency
    goes into [customData] as [handleAddress] returns it. *)
Definition parseCip64 `{Crypto} (data : bytes) : Result PluginTransactionLike :=
  let* decoded := decodeRlp (skipn 1 data) in
  let* _ := assertArgument
              (match decoded with
               | RList l => Nat.eqb (length l) 10 || Nat.eqb (length l) 13
               | RBytes _ => false
               end)
              "invalid field count for transaction type: CIP_64_TYPE_NUMBER"
              "data" (EString (hexlify data)) in
  let fields := match decoded with RList l => l | RBytes _ => [] end in
  let field i := nth i fields (RBytes []) in
  let* maxPriorityFeePerGas := handleUint (field 2%nat) "maxPriorityFeePerGas" in
  let* maxFeePerGas := handleUint (field 3%nat) "maxFeePerGas" in
  let* chainId := handleUint (field 0%nat) "chainId" in
  let* nonce := handleNumber (field 1%nat) "nonce" in
  let* gasLimit := handleUint (field 4%nat) "gasLimit" in
  let* to := handleAddress (field 5%nat) in
  let* value := handleUint (field 6%nat) "value" in
  let* data' := hexlify_item (field 7%nat) in
  let* accessList := handleAccessList (field 8%nat) "accessList" in
  let* feeCurrency := handleAddress (field 9%nat) in
  let tx :=
    mkTransactionLike (Some CIP_64_TYPE_NUMBER) (Some chainId) (Some nonce)
      (Some maxPriorityFeePerGas) (Some maxFeePerGas) None (Some gasLimit)
      to (Some value) (Some data') (Some accessList) None None in
  let customData := Some (mkCeloCustomData (or_null feeCurrency)) in
  if Nat.eqb (length fields) 10 then
    Ok (mkPluginTransactionLike tx customData)
  else
    let tx := with_hash tx (keccak256 data) in
    let* tx := parseEipSignature tx (skipn 10 fields) in
    Ok (mkPluginTransactionLike tx customData).

Inductive CreateInput : Type :=
| FromUndefined
| FromInstance (t : Cip64Transaction)
| FromString (s : string)
| FromObject (o : PluginTransactionLike).

Inductive Created : Type :=
| NewTransaction
| Cip64 (t : Cip64Transaction)
| Delegated (t : GenericTransaction).

(** The branches of [create] for an object that is not an instance of
    the class: the CIP-64 branch is entered on the type and the mere
    presence of [customData]; the fallback is a call of
    [Transaction.from], which may fail. *)
Definition createFromObject `{Crypto} `{Generic PluginTransactionLike}
  (from : PluginTransactionLike) : Result Created :=
  match tl_type (base from), customData from with
  | Some ty, Some cd =>
      if ty =? CIP_64_TYPE_NUMBER then
        let transaction := new_Cip64Transaction in
        let* transaction := set_feeCurrency transaction (cd_feeCurrency cd) in
        let* t := copy_fields (base from) (fields transaction) in
        Ok (Cip64 (mkCip64Transaction t (feeCurrency transaction)))
      else
        let* t := Transaction_from_object from in
        Ok (Delegated t)
  | _, _ =>
      let* t := Transaction_from_object from in
      Ok (Delegated t)
  end.

(** [CeloTransactionPlugin.create] (lines 96-137).  A falsy input is
    [undefined] or the empty string. *)
Definition create `{Crypto} `{Generic PluginTransactionLike}
  (from : CreateInput) : Result Created :=
  match from with
  | FromUndefined => Ok NewTransaction
  | FromInstance t => Ok (Cip64 t)
  | FromString s =>
      if String.eqb s "" then Ok NewTransaction
      else
        let* payload := getBytes s in
        match payload with
        | b :: _ =>
            if Z_of_byte b =? CIP_64_TYPE_NUMBER then
              let* parsed := parseCip64 payload in
              createFromObject parsed
            else
              let* t := Transaction_from_text s in
              Ok (Delegated t)
        | [] =>
            let* t := Transaction_from_text s in
            Ok (Delegated t)
        end
  | FromObject o => createFromObject o
  end.

End Plugin.

(** ** Vocabulary of the statements *)

(** The twenty bytes an address string denotes (the empty sequence for a
    string that is not an address). *)
Definition address_bytes (s : string) : bytes :=
  match address_digits s with
  | Some digits =>
      match hex_pairs digits with
      | Some b => b
      | None => []
      end
  | None => []
  end.

(** The element of a numeric field: an absent field counts as zero. *)
Definition numeric_field (x : option Z) : RlpItem :=
  RBytes (be_bytes (match x with Some v => v | None => 0 end)).

(** The element of one access-list entry: the address bytes and the list
    of storage keys. *)
Definition access_set_item (set : AccessSet) : RlpItem :=
  RList [RBytes (address_bytes (address set)); RList (map RBytes (storageKeys set))].

(** The ten elements of the unsigned payload, in wire order. *)
Definition unsigned_fields (t : Transaction) (feeCurrency : string) : list RlpItem :=
  [numeric_field (chainId t);
   numeric_field (nonce t);
   numeric_field (maxPriorityFeePerGas t);
   numeric_field (maxFeePerGas t);
   numeric_field (gasLimit t);
   RBytes (match to t with Some a => address_bytes a | None => [] end);
   numeric_field (value t);
   RBytes (match data t with Some d => d | None => [] end);
   RList (match accessList t with Some l => map access_set_item l | None => [] end);
   RBytes (address_bytes feeCurrency)].

(** The three elements a signature adds. *)
Definition signature_fields (sig : Signature) : list RlpItem :=
  [RBytes (be_bytes (sig_yParity sig));
   RBytes (be_bytes (be_value (sig_r sig)));
   RBytes (be_bytes (be_value (sig_s sig)))].

Definition optional_signature_fields (signature : option Signature) : list RlpItem :=
  match signature with
  | Some sig => signature_fields sig
  | None => []
  end.

(** The type tag followed by the list encoding of the elements. *)
Definition payload (elements : list RlpItem) : bytes :=
  x7b :: encodeRlp (RList elements).

(** The error of [.serialized] on an unsigned transaction. *)
Definition unsigned_error : Error :=
  mkError UNSUPPORTED_OPERATION
    "cannot serialize unsigned transaction; maybe you meant .unsignedSerialized"
    ".serialized" EUndefined.

(** The error of the address normalizer on a value that is no address. *)
Definition invalid_address (v : Nullable string) : Error :=
  mkError INVALID_ARGUMENT "invalid address" "address" (err_value v).

(** The error of the parser on a payload of the wrong shape. *)
Definition field_count_error (data : bytes) : Error :=
  mkError INVALID_ARGUMENT
    "invalid field count for transaction type: CIP_64_TYPE_NUMBER" "data"
    (EString (hexlify data)).

(** ** Sample data

    A stand-in for the [../crypto] collaborators, to run the definitions
    on examples: a toy digest and the low-s test. *)
Definition sample_crypto : Crypto :=
  {| keccak256 := fun b =>
       map (fun x => byte_of_Z (Z_of_byte x * 7 + 3)) (firstn 32 (b ++ repeat x00 32));
     acceptable_signature := fun r s yParity =>
       match s with
       | x :: _ => Z_of_byte x <? 128
       | [] => true
       end |}.

Definition sample_feeCurrency : string :=
  Eval vm_compute in
    match @getAddress sample_crypto (JsVal "0x874069fa1eb16d44d622f2e0ca25eea172369bc1") with
    | Ok a => a
    | Err _ => ""
    end.

Definition sample_signature : Signature :=
  mkSignature (repeat x01 32) (x00 :: repeat x02 31) 1.

(** The scenario of the specification: chain 44787, everything else zero
    or empty. *)
Definition sample_fields : Transaction :=
  mkTransaction (Some 44787) (Some 0) (Some 0) (Some 0) None (Some 0) None (Some 0)
    (Some []) (Some []) None.

Definition sample_signed_fields : Transaction :=
  mkTransaction (Some 44787) (Some 0) (Some 0) (Some 0) None (Some 0) None (Some 0)
    (Some []) (Some []) (Some sample_signature).

(** A transfer with a recipient, call data and one access-list entry. *)
Definition sample_access_list : AccessList :=
  [mkAccessSet sample_feeCurrency [repeat x11 32; repeat x22 32]].

Definition sample_rich_fields : Transaction :=
  mkTransaction (Some 44787) (Some 7) (Some 2000000000) (Some 5000000000) None
    (Some 21000) (Some sample_feeCurrency) (Some 1000000000000000000)
    (Some [xde; xad; xbe; xef]) (Some sample_access_list) None.

Definition sample_rich_payload : bytes :=
  Eval vm_compute in
    match @Celo.unsignedSerialized sample_crypto
            (Celo.mkCip64Transaction sample_rich_fields sample_feeCurrency) with
    | Ok b => b
    | Err _ => []
    end.

Definition sample_unsigned_payload : bytes :=
  Eval vm_compute in
    match @Celo.unsignedSerialized sample_crypto
            (Celo.mkCip64Transaction sample_fields sample_feeCurrency) with
    | Ok b => b
    | Err _ => []
    end.

Definition sample_signed_payload : bytes :=
  Eval vm_compute in
    match @Celo.serialized sample_crypto
            (Celo.mkCip64Transaction sample_signed_fields sample_feeCurrency) with
    | Ok b => b
    | Err _ => []
    end.

(** The shape the parser asks of the decoded payload. *)
Definition well_shaped (decoded : RlpItem) : bool :=
  match decoded with
  | RList l => Nat.eqb (length l) 10 || Nat.eqb (length l) 13
  | RBytes _ => false
  end.

(** Do the nine elements before the fee currency decode? *)
Definition other_fields_decode `{Crypto} (l : list RlpItem) : bool :=
  is_ok (handleUint (nth 2 l (RBytes [])) "maxPriorityFeePerGas")
  && is_ok (handleUint (nth 3 l (RBytes [])) "maxFeePerGas")
  && is_ok (handleUint (nth 0 l (RBytes [])) "chainId")
  && is_ok (handleNumber (nth 1 l (RBytes [])) "nonce")
  && is_ok (handleUint (nth 4 l (RBytes [])) "gasLimit")
  && is_ok (handleAddress (nth 5 l (RBytes [])))
  && is_ok (handleUint (nth 6 l (RBytes [])) "value")
  && is_ok (hexlify_item (nth 7 l (RBytes [])))
  && is_ok (handleAccessList (nth 8 l (RBytes [])) "accessList").

(** What the two parsers have in common, to compare them: the decoded
    generic fields, and the fee currency as [handleAddress] returns it. *)
Definition parse_common `{Crypto} (data : bytes)
  : Result (TransactionLike * option string) :=
  let* decoded := decodeRlp (skipn 1 data) in
  let* _ := assertArgument (well_shaped decoded)
              "invalid field count for transaction type: CIP_64_TYPE_NUMBER"
              "data" (EString (hexlify data)) in
  let fields := match decoded with RList l => l | RBytes _ => [] end in
  let field i := nth i fields (RBytes []) in
  let* maxPriorityFeePerGas := handleUint (field 2%nat) "maxPriorityFeePerGas" in
  let* maxFeePerGas := handleUint (field 3%nat) "maxFeePerGas" in
  let* chainId := handleUint (field 0%nat) "chainId" in
  let* nonce := handleNumber (field 1%nat) "nonce" in
  let* gasLimit := handleUint (field 4%nat) "gasLimit" in
  let* to := handleAddress (field 5%nat) in
  let* value := handleUint (field 6%nat) "value" in
  let* data' := hexlify_item (field 7%nat) in
  let* accessList := handleAccessList (field 8%nat) "accessList" in
  let* feeCurrency := handleAddress (field 9%nat) in
  let tx :=
    mkTransactionLike (Some CIP_64_TYPE_NUMBER) (Some chainId) (Some nonce)
      (Some maxPriorityFeePerGas) (Some maxFeePerGas) None (Some gasLimit)
      to (Some value) (Some data') (Some accessList) None None in
  if Nat.eqb (length fields) 10 then Ok (tx, feeCurrency)
  else
    let* tx := parseEipSignature (with_hash tx (keccak256 data)) (skipn 10 fields) in
    Ok (tx, feeCurrency).

(** Sample payloads: the type tag and a list of nine, ten, eleven and
    fourteen empty elements (the ninth, the access list, an empty list). *)
Definition sample_elements (n : nat) : list RlpItem :=
  firstn n (repeat (RBytes []) 8 ++ RList [] :: repeat (RBytes []) 8).

Definition sample_payload (n : nat) : bytes :=
  x7b :: encodeRlp (RList (sample_elements n)).

(** The gate of the gas-estimation rewrite: the request and the action are
    the gas estimation, and the transaction declares the fee currency
    [fc], a non-empty string. *)
Definition gas_estimation_with_fee (request_method action : string)
  (fee : Nullable string) (fc : string) : Prop :=
  request_method = "eth_estimateGas" /\ action = "estimateGas"
  /\ fee = JsVal fc /\ fc <> "".

(** A store with one object, the transaction of a gas-estimation call,
    and the request and contexts of that call. *)
Definition sample_object : JsObject := mkObject {[ "from" := VString "0xabc" ]} Extensible.

Definition sample_store : Store := {[ 1%positive := sample_object ]}.

(** The same object after [Object.freeze]. *)
Definition frozen_store : Store :=
  {[ 1%positive := mkObject {[ "from" := VString "0xabc" ]} Frozen ]}.

Definition sample_request : JsonRpcRequestBody :=
  mkRequest "eth_estimateGas" [VRef 1%positive].

Definition sample_plugin_context : Plugin.PerformActionRequest :=
  Plugin.mkPerformActionRequest "estimateGas"
    (Plugin.mkTransactionRequest None
       (Some (Plugin.mkCeloCustomData (JsVal sample_feeCurrency)))).

Definition sample_celo_context : Celo.PerformActionRequest :=
  Celo.mkPerformActionRequest "estimateGas"
    (Celo.mkCeloTransactionRequest None (JsVal sample_feeCurrency)).

(** A field set of type 123 whose [customData] has no fee currency. *)
Definition sample_like : TransactionLike :=
  mkTransactionLike (Some 123) (Some 44787) None None None None None None None None
    None None None.

(** An error of the serializer's helpers: an argument error or a numeric
    fault. *)
Definition plain_error (e : Error) : Prop :=
  code e = INVALID_ARGUMENT \/ code e = NUMERIC_FAULT.

(** An error that is not the field-count error of a payload. *)
Definition other_error (e : Error) : Prop :=
  argument e <> "data" \/ code e <> INVALID_ARGUMENT
  \/ message e = "unexpected junk after rlp payload".

(** ** Vocabulary of the further properties *)

(** A numeric field that fits 256 bits, an absent one counting as zero. *)
Definition uint256 (x : option Z) : Prop := 0 <= or_zero x <= BN_MAX_UINT.

(** What the serializer asks of the fields and of the fee currency: the
    numbers fit 256 bits, the recipient and the fee currency are
    addresses, the access list is valid. *)
Definition serializable `{Crypto} (t : Transaction) (fee : Nullable string) : Prop :=
  uint256 (chainId t) /\ uint256 (nonce t) /\ uint256 (maxPriorityFeePerGas t)
  /\ uint256 (maxFeePerGas t) /\ uint256 (gasLimit t) /\ uint256 (value t)
  /\ (forall a, to t = Some a -> is_ok (getAddress (JsVal a)) = true)
  /\ (forall al, accessList t = Some al -> is_ok (accessListify al) = true)
  /\ is_ok (getAddress fee) = true.

(** What it asks of the signature: a parity that fits 256 bits. *)
Definition serializable_signature (signature : option Signature) : Prop :=
  match signature with
  | Some sig => 0 <= sig_yParity sig <= BN_MAX_UINT
  | None => True
  end.

(** A field of the source object if it is present, else what the target
    had. *)
Definition copied {A : Type} (source target : option A) : option A :=
  match source with
  | Some v => Some v
  | None => target
  end.

(** A signature as the parser lets it through: two 32-byte scalars, a
    parity bit, accepted by [Signature.from]. *)
Definition valid_signature `{Crypto} (sig : Signature) : Prop :=
  length (sig_r sig) = 32%nat /\ length (sig_s sig) = 32%nat
  /\ (sig_yParity sig = 0 \/ sig_yParity sig = 1)
  /\ acceptable_signature (sig_r sig) (sig_s sig) (sig_yParity sig) = true.

(** The generic fields as the parser returns them: type 123, no gas
    price, every number present and within its range, the data and a
    valid access list present, the recipient absent or normalized. *)
Definition decoded_fields `{Crypto} (b : TransactionLike) : Prop :=
  tl_type b = Some CIP_64_TYPE_NUMBER /\ tl_gasPrice b = None
  /\ (exists c, tl_chainId b = Some c /\ 0 <= c <= BN_MAX_UINT)
  /\ (exists n, tl_nonce b = Some n /\ 0 <= n <= MAX_SAFE_INTEGER)
  /\ (exists mp, tl_maxPriorityFeePerGas b = Some mp /\ 0 <= mp <= BN_MAX_UINT)
  /\ (exists mf, tl_maxFeePerGas b = Some mf /\ 0 <= mf <= BN_MAX_UINT)
  /\ (exists gl, tl_gasLimit b = Some gl /\ 0 <= gl <= BN_MAX_UINT)
  /\ (exists v, tl_value b = Some v /\ 0 <= v <= BN_MAX_UINT)
  /\ (exists d, tl_data b = Some d)
  /\ (forall a, tl_to b = Some a -> getAddress (JsVal a) = Ok a)
  /\ (exists al, tl_accessList b = Some al /\ accessListify al = Ok al).

(** The transaction that holds exactly the fields of a field set. *)
Definition fields_of (b : TransactionLike) : Transaction :=
  mkTransaction (tl_chainId b) (tl_nonce b) (tl_maxPriorityFeePerGas b)
    (tl_maxFeePerGas b) (tl_gasPrice b) (tl_gasLimit b) (tl_to b) (tl_value b)
    (tl_data b) (tl_accessList b) (tl_signature b).

(** The field set as the parser returns it from the payload [raw]: a
    signed one carries the digest of the payload as its hash. *)
Definition hashed_as `{Crypto} (b : TransactionLike) (raw : bytes) : TransactionLike :=
  mkTransactionLike (tl_type b) (tl_chainId b) (tl_nonce b)
    (tl_maxPriorityFeePerGas b) (tl_maxFeePerGas b) (tl_gasPrice b)
    (tl_gasLimit b) (tl_to b) (tl_value b) (tl_data b) (tl_accessList b)
    (match tl_signature b with Some _ => Some (keccak256 raw) | None => None end)
    (tl_signature b).

(** What the eleven conditional assignments of the constructors make of
    the transaction [t] given the field set [from]: a field that is
    present is stored (the recipient normalized, the nonce a safe integer,
    the signature one that [Signature.from] accepts, the access list
    validated), a field that is absent keeps the value it had. *)
Definition selective_copy `{Crypto} (from : TransactionLike) (t t' : Transaction)
  : Prop :=
  match tl_to from with
  | Some v => exists a, getAddress (JsVal v) = Ok a /\ to t' = Some a
  | None => to t' = to t
  end
  /\ (forall n, tl_nonce from = Some n -> - MAX_SAFE_INTEGER <= n <= MAX_SAFE_INTEGER)
  /\ nonce t' = copied (tl_nonce from) (nonce t)
  /\ gasLimit t' = copied (tl_gasLimit from) (gasLimit t)
  /\ gasPrice t' = copied (tl_gasPrice from) (gasPrice t)
  /\ maxPriorityFeePerGas t' = copied (tl_maxPriorityFeePerGas from) (maxPriorityFeePerGas t)
  /\ maxFeePerGas t' = copied (tl_maxFeePerGas from) (maxFeePerGas t)
  /\ data t' = copied (tl_data from) (data t)
  /\ value t' = copied (tl_value from) (value t)
  /\ chainId t' = copied (tl_chainId from) (chainId t)
  /\ (forall sig,
        tl_signature from = Some sig ->
        acceptable_signature (sig_r sig) (sig_s sig) (sig_yParity sig) = true)
  /\ signature t' = copied (tl_signature from) (signature t)
  /\ match tl_accessList from with
     | Some v => exists l, accessListify v = Ok l /\ accessList t' = Some l
     | None => accessList t' = accessList t
     end.

(** The six numeric fields of the payload fit 256 bits. *)
Definition numbers_fit (t : Transaction) : Prop :=
  uint256 (chainId t) /\ uint256 (nonce t) /\ uint256 (maxPriorityFeePerGas t)
  /\ uint256 (maxFeePerGas t) /\ uint256 (gasLimit t) /\ uint256 (value t).

(** The plugin's view of a request of the standalone variant: the fee
    currency sits in [customData]. *)
Definition plugin_request (tx : Celo.CeloTransactionRequest) : Plugin.TransactionRequest :=
  Plugin.mkTransactionRequest (Celo.req_type tx)
    (Some (Plugin.mkCeloCustomData (Celo.req_feeCurrency tx))).

Definition plugin_context (context : Celo.PerformActionRequest)
  : Plugin.PerformActionRequest :=
  Plugin.mkPerformActionRequest (Celo.ctx_method context)
    (plugin_request (Celo.ctx_transaction context)).

(** The first argument of the request is an object of the store that
    takes an assignment to [feeCurrency]. *)
Definition first_argument_assignable (σ : Store) (request : JsonRpcRequestBody) : Prop :=
  exists l obj,
    nth_error (args request) 0 = Some (VRef l) /\ σ !! l = Some obj
    /\ accepts obj "feeCurrency" = true.

(** What a payload tells of a transaction: an absent number reads as
    zero, absent data as empty, an absent access list as the empty list;
    the gas price and the signature are not part of the unsigned
    payload. *)
Definition payload_view (tx : Transaction) : TransactionLike :=
  mkTransactionLike (Some CIP_64_TYPE_NUMBER)
    (Some (or_zero (chainId tx))) (Some (or_zero (nonce tx)))
    (Some (or_zero (maxPriorityFeePerGas tx)))
    (Some (or_zero (maxFeePerGas tx))) None
    (Some (or_zero (gasLimit tx))) (to tx) (Some (or_zero (value tx)))
    (Some (match data tx with Some d => d | None => [] end))
    (Some (match accessList tx with Some al => al | None => [] end))
    None None.

(** The addresses and the access list are stored normalized, as the
    setters leave them. *)
Definition normalized `{Crypto} (t : Transaction) (fee : string) : Prop :=
  (forall a, to t = Some a -> getAddress (JsVal a) = Ok a)
  /\ (forall al, accessList t = Some al -> accessListify al = Ok al)
  /\ getAddress (JsVal fee) = Ok fee.

(** The fee currency that a value holds, if any: [undefined] and [null]
    both stand for an absent one. *)
Definition present (v : Nullable string) : option string :=
  match v with
  | JsVal s => Some s
  | _ => None
  end.

(** A stand-in for the generic constructor, to run the definitions on
    examples: it knows no typed payload and no object of type 123, and
    makes a new transaction of any other object. *)
Definition unsupported_type : Error :=
  mkError INVALID_ARGUMENT "unsupported transaction type" "type" EUndefined.

Definition sample_generic {Like : Type} (type_of : Like -> option Z) : Generic Like :=
  {| Transaction_from_text := fun _ => Err unsupported_type;
     Transaction_from_object := fun o =>
       match type_of o with
       | Some 123 => Err unsupported_type
       | ty => Ok (mkGenericTransaction ty new_Transaction)
       end |}.

Definition sample_celo_generic : Generic Celo.CeloTransactionLike :=
  sample_generic (fun o => tl_type (Celo.base o)).

Definition sample_plugin_generic : Generic Plugin.PluginTransactionLike :=
  sample_generic (fun o => tl_type (Plugin.base o)).

(** A signature that the sample check rejects: the first byte of [s] is
    0x80. *)
Definition high_s_signature : Signature :=
  mkSignature (repeat x01 32) (x80 :: repeat x00 31) 0.


(** Two transactions that differ (absent fields against zeros, a gas
    price and a signature against none) and have the same unsigned
    payload. *)
Definition sample_sparse_fields : Transaction :=
  mkTransaction (Some 44787) None None None None None None None None None None.

Definition sample_dense_fields : Transaction :=
  mkTransaction (Some 44787) (Some 0) (Some 0) (Some 0) (Some 5) (Some 0) None (Some 0)
    (Some []) (Some []) (Some sample_signature).

(** * Properties *)

(** ** Bytes and big-endian numbers *)

Lemma Z_of_byte_range (b : byte) : 0 <= Z_of_byte b < 256.
Proof.
  unfold Z_of_byte. pose proof (Byte.to_N_bounded b). lia.
Qed.

Lemma byte_of_Z_of_byte (b : byte) : byte_of_Z (Z_of_byte b) = b.
Proof.
  unfold byte_of_Z. pose proof (Z_of_byte_range b) as Hr.
  rewrite Z.mod_small by lia. unfold Z_of_byte. rewrite N2Z.id.
  now rewrite Byte.of_to_N.
Qed.

Lemma Z_of_byte_of_Z (z : Z) : Z_of_byte (byte_of_Z z) = z mod 256.
Proof.
  unfold byte_of_Z.
  pose proof (Z.mod_pos_bound z 256 ltac:(lia)) as Hm.
  destruct (Byte.of_N (Z.to_N (z mod 256))) as [b|] eqn:E.
  - apply Byte.to_of_N in E. unfold Z_of_byte. first [rewrite E | rewrite <- E]. lia.
  - apply Byte.of_N_None_iff in E. lia.
Qed.

Lemma Z_of_byte_small (z : Z) : 0 <= z < 256 -> Z_of_byte (byte_of_Z z) = z.
Proof. intros. rewrite Z_of_byte_of_Z. now apply Z.mod_small. Qed.

Lemma be_fold_acc (b : bytes) :
  forall acc,
    fold_left (fun acc x => acc * 256 + Z_of_byte x) b acc
    = acc * 256 ^ Z.of_nat (length b) + be_value b.
Proof.
  unfold be_value. induction b as [|x b IH]; intros acc.
  - simpl. lia.
  - cbn [fold_left length]. rewrite IH, (IH (0 * 256 + Z_of_byte x)).
    rewrite Nat2Z.inj_succ, Z.pow_succ_r by lia. lia.
Qed.

Lemma be_value_app (a b : bytes) :
  be_value (a ++ b) = be_value a * 256 ^ Z.of_nat (length b) + be_value b.
Proof.
  unfold be_value at 1. rewrite fold_left_app. apply be_fold_acc.
Qed.

Lemma be_value_cons (x : byte) (b : bytes) :
  be_value (x :: b) = Z_of_byte x * 256 ^ Z.of_nat (length b) + be_value b.
Proof.
  change (x :: b) with ([x] ++ b). rewrite be_value_app. unfold be_value at 1. simpl. lia.
Qed.

Lemma be_loop_value (fuel : nat) :
  forall v acc, 0 <= v < 256 ^ Z.of_nat fuel ->
    be_value (be_loop fuel v acc) = v * 256 ^ Z.of_nat (length acc) + be_value acc.
Proof.
  induction fuel as [|f IH]; intros v acc Hv.
  - simpl in *. assert (v = 0) by lia. subst. lia.
  - cbn [be_loop]. destruct (v =? 0) eqn:E.
    + apply Z.eqb_eq in E. subst. lia.
    + rewrite IH.
      * rewrite be_value_cons.
        rewrite Z_of_byte_of_Z, Z.mod_mod by lia.
        simpl length. rewrite Nat2Z.inj_succ, Z.pow_succ_r by lia.
        pose proof (Z.div_mod v 256 ltac:(lia)). nia.
      * rewrite Nat2Z.inj_succ, Z.pow_succ_r in Hv by lia.
        split; [apply Z.div_pos; lia|].
        apply Z.div_lt_upper_bound; lia.
Qed.

Lemma log2_fuel (v : Z) : 0 <= v -> v < 256 ^ Z.of_nat (S (Z.to_nat (Z.log2 v))).
Proof.
  intros Hv. destruct (Z.eq_dec v 0) as [->|Hn].
  - simpl. lia.
  - pose proof (Z.log2_nonneg v).
    assert (Hlt : v < 2 ^ Z.succ (Z.log2 v)) by (apply Z.log2_spec; lia).
    rewrite Nat2Z.inj_succ, Z2Nat.id by lia.
    eapply Z.lt_le_trans; [exact Hlt|].
    change 256 with (2 ^ 8). rewrite <- Z.pow_mul_r by lia.
    apply Z.pow_le_mono_r; lia.
Qed.

Lemma be_value_be_bytes (v : Z) : 0 <= v -> be_value (be_bytes v) = v.
Proof.
  intros Hv. unfold be_bytes. rewrite be_loop_value.
  - simpl. unfold be_value. simpl. lia.
  - split; [lia|]. now apply log2_fuel.
Qed.

Lemma be_loop_length (fuel : nat) :
  forall v acc (k : nat), 0 <= v < 256 ^ Z.of_nat k ->
    (length (be_loop fuel v acc) <= length acc + k)%nat.
Proof.
  induction fuel as [|f IH]; intros v acc k Hv; cbn [be_loop]; [lia|].
  destruct (v =? 0) eqn:E; [lia|].
  apply Z.eqb_neq in E.
  destruct k as [|k]; [simpl in Hv; lia|].
  specialize (IH (v / 256) (byte_of_Z (v mod 256) :: acc) k).
  simpl length in IH.
  rewrite Nat2Z.inj_succ, Z.pow_succ_r in Hv by lia.
  assert (0 <= v / 256 < 256 ^ Z.of_nat k).
  { split; [apply Z.div_pos; lia|]. apply Z.div_lt_upper_bound; lia. }
  specialize (IH H). lia.
Qed.

Lemma be_bytes_length (v : Z) (k : nat) :
  0 <= v < 256 ^ Z.of_nat k -> (length (be_bytes v) <= k)%nat.
Proof.
  intros Hv. unfold be_bytes.
  pose proof (be_loop_length (S (Z.to_nat (Z.log2 v))) v [] k Hv). simpl in *. lia.
Qed.

Lemma be_bytes_nonempty (v : Z) : 0 < v -> (1 <= length (be_bytes v))%nat.
Proof.
  intros Hv. unfold be_bytes. cbn [be_loop].
  destruct (v =? 0) eqn:E; [apply Z.eqb_eq in E; lia|].
  clear E. generalize (Z.to_nat (Z.log2 v)) (v / 256) (@nil byte) (byte_of_Z (v mod 256)).
  intros f. induction f as [|f IH]; intros w acc b; cbn [be_loop].
  - simpl. lia.
  - destruct (w =? 0); [simpl; lia|].
    specialize (IH (w / 256) (b :: acc) (byte_of_Z (w mod 256))). lia.
Qed.

(** ** The recursive-list codec *)

(** Induction over structured data, with the hypothesis on every element
    of a list. *)
Lemma RlpItem_ind (P : RlpItem -> Prop) :
  (forall b, P (RBytes b)) ->
  (forall items, Forall P items -> P (RList items)) ->
  forall item, P item.
Proof.
  intros Hb Hl. fix IH 1. intros [b|items].
  - apply Hb.
  - apply Hl. induction items as [|x xs IHxs]; constructor.
    + apply IH.
    + apply IHxs.
Qed.

Lemma _encode_nonempty (item : RlpItem) : (1 <= length (_encode item))%nat.
Proof.
  destruct item as [b|items]; cbn [_encode].
  - destruct b as [|x [|y b]].
    + simpl. lia.
    + destruct (Z_of_byte x <=? 127); simpl; lia.
    + destruct (Z.of_nat (length (x :: y :: b)) <=? 55); simpl; lia.
  - destruct (Z.of_nat (length (flat_map _encode items)) <=? 55); simpl; lia.
Qed.

Lemma _encode_bytes_length (b : bytes) :
  (length b <= length (_encode (RBytes b)))%nat.
Proof.
  cbn [_encode]. destruct b as [|x [|y b]].
  - simpl. lia.
  - destruct (Z_of_byte x <=? 127); simpl; lia.
  - destruct (Z.of_nat (length (x :: y :: b)) <=? 55); simpl length;
      rewrite ?length_app; simpl length; lia.
Qed.

Lemma _encode_list_length (items : list RlpItem) :
  (length (flat_map _encode items) < length (_encode (RList items)))%nat.
Proof.
  cbn [_encode]. destruct (_ <=? _); simpl length; rewrite ?length_app; lia.
Qed.

(** A decoded item uses at least one byte. *)
Lemma _decode_consumes (fuel : nat) (data : bytes) (item : RlpItem) (rest : bytes) :
  _decode fuel data = Ok (item, rest) -> (length rest < length data)%nat.
Proof.
  destruct fuel as [|f]; [discriminate|].
  destruct data as [|b data]; [discriminate|].
  cbn [_decode]. unfold checkOffset, short_error.
  repeat match goal with
         | |- context [if ?c then _ else _] => destruct c eqn:?
         | |- context [_decodeChildren ?f ?p] => destruct (_decodeChildren f p)
         end; cbn [bind]; intros E; inversion E; subst; clear E;
    rewrite ?length_skipn; simpl; lia.
Qed.

(** With fuel for twice the data, one more unit changes nothing. *)
Lemma _decode_fuel_step (fuel : nat) :
  (forall data, (2 * length data <= fuel)%nat ->
     _decode (S fuel) data = _decode fuel data)
  /\ (forall payload, (2 * length payload + 1 <= fuel)%nat ->
        _decodeChildren (S fuel) payload = _decodeChildren fuel payload).
Proof.
  induction fuel as [|f [IHd IHc]].
  - split.
    + intros [|b data] H; [reflexivity|simpl in H; lia].
    + intros payload H. lia.
  - split.
    + intros [|b data] H; [reflexivity|].
      simpl length in H.
      assert (Hc : forall n, _decodeChildren (S f) (firstn n data)
                             = _decodeChildren f (firstn n data)).
      { intros n. apply IHc. pose proof (length_firstn n data) as Hl. lia. }
      assert (Hc' : forall n m, _decodeChildren (S f) (firstn n (skipn m data))
                             = _decodeChildren f (firstn n (skipn m data))).
      { intros n m. apply IHc.
        pose proof (length_firstn n (skipn m data)) as Hl.
        rewrite length_skipn in Hl. lia. }
      cbn [_decode]. rewrite Hc. rewrite Hc'. reflexivity.
    + intros [|b payload] H; [reflexivity|].
      remember (b :: payload) as p eqn:Ep.
      change (_decodeChildren (S (S f)) p)
        with (match p with
              | [] => Ok []
              | _ => let* decoded := _decode (S f) p in
                     let* others := _decodeChildren (S f) (snd decoded) in
                     Ok (fst decoded :: others)
              end).
      change (_decodeChildren (S f) p)
        with (match p with
              | [] => Ok []
              | _ => let* decoded := _decode f p in
                     let* others := _decodeChildren f (snd decoded) in
                     Ok (fst decoded :: others)
              end).
      subst p. simpl length in H.
      rewrite IHd by (simpl; lia).
      destruct (_decode f (b :: payload)) as [[item rest]|e] eqn:E; [|reflexivity].
      cbn [bind snd fst]. apply _decode_consumes in E. simpl in E.
      rewrite IHc by lia. reflexivity.
Qed.

(** The result of decoding does not depend on the fuel, once there is
    fuel for twice the data. *)
Lemma _decode_fuel_irrelevant (data : bytes) (fuel : nat) :
  (2 * length data <= fuel)%nat ->
  _decode fuel data = _decode (2 * length data) data.
Proof.
  intros H. induction H as [|f Hle IH]; [reflexivity|].
  rewrite <- IH. apply _decode_fuel_step. exact Hle.
Qed.

Lemma firstn_app_exact {A : Type} (a b : list A) : firstn (length a) (a ++ b) = a.
Proof.
  rewrite firstn_app, Nat.sub_diag, firstn_all. simpl. apply app_nil_r.
Qed.

Lemma skipn_app_exact {A : Type} (a b : list A) : skipn (length a) (a ++ b) = b.
Proof.
  rewrite skipn_app, Nat.sub_diag, skipn_all. reflexivity.
Qed.

(** The bytes of a length below 2^64 are between one and eight (for a
    length above 55) and read back as the length. *)
Lemma arrayifyInteger_spec (n : Z) :
  55 < n < 2 ^ 64 ->
  (1 <= length (arrayifyInteger n) <= 8)%nat
  /\ unarrayifyInteger (arrayifyInteger n) = n.
Proof.
  intros Hn. unfold arrayifyInteger, unarrayifyInteger. repeat split.
  - apply be_bytes_nonempty. lia.
  - apply be_bytes_length. change (256 ^ Z.of_nat 8) with (2 ^ 64). lia.
  - apply be_value_be_bytes. lia.
Qed.

(** The elements of a list payload decode one after the other, when each
    of them does. *)
Lemma _decodeChildren_encode (items : list RlpItem) :
  Forall (fun item => forall rest fuel,
            Z.of_nat (length (_encode item)) < 2 ^ 64 ->
            (2 * length (_encode item ++ rest) <= fuel)%nat ->
            _decode fuel (_encode item ++ rest) = Ok (item, rest)) items ->
  Z.of_nat (length (flat_map _encode items)) < 2 ^ 64 ->
  forall g, (2 * length (flat_map _encode items) + 1 <= g)%nat ->
    _decodeChildren g (flat_map _encode items) = Ok items.
Proof.
  intros IH. induction IH as [|x xs Hx _ IHxs]; intros Hbound g Hg.
  - destruct g; reflexivity.
  - cbn [flat_map] in *. rewrite length_app in *.
    pose proof (_encode_nonempty x) as Hxne.
    destruct g as [|g]; [lia|].
    destruct (_encode x ++ flat_map _encode xs) as [|b0 p0] eqn:Ep.
    { apply (f_equal (@length byte)) in Ep. rewrite length_app in Ep. simpl in Ep. lia. }
    cbn [_decodeChildren]. rewrite <- Ep.
    rewrite (Hx (flat_map _encode xs) g) by (rewrite ?length_app; lia).
    cbn [bind snd fst]. rewrite IHxs by lia. reflexivity.
Qed.

(** Decoding the encoding of an item, followed by anything, gives the
    item back and leaves what followed. *)
Lemma _decode_encode (item : RlpItem) :
  forall rest fuel,
    Z.of_nat (length (_encode item)) < 2 ^ 64 ->
    (2 * length (_encode item ++ rest) <= fuel)%nat ->
    _decode fuel (_encode item ++ rest) = Ok (item, rest).
Proof.
  induction item as [b|items IH] using RlpItem_ind; intros rest fuel Hsize Hfuel.
  - (* a byte string *)
    pose proof (_encode_nonempty (RBytes b)) as Hne.
    pose proof (_encode_bytes_length b) as Hb.
    assert (Hb' : Z.of_nat (length b) < 2 ^ 64) by lia. clear Hb.
    destruct fuel as [|f]; [rewrite length_app in Hfuel; lia|].
    cbn [_encode] in *.
    assert (Hgen : forall n, n = Z.of_nat (length b) ->
              (forall x, b = [x] -> 127 < Z_of_byte x) ->
              _decode (S f)
                ((if n <=? 55 then byte_of_Z (128 + n) :: b
                  else byte_of_Z (183 + Z.of_nat (length (arrayifyInteger n)))
                         :: arrayifyInteger n ++ b) ++ rest)
              = Ok (RBytes b, rest)).
    { intros n -> _. destruct (Z.of_nat (length b) <=? 55) eqn:E.
      - apply Z.leb_le in E. cbn [app _decode].
        rewrite Z_of_byte_small by lia.
        destruct (248 <=? 128 + Z.of_nat (length b)) eqn:E1; [apply Z.leb_le in E1; lia|].
        destruct (192 <=? 128 + Z.of_nat (length b)) eqn:E2; [apply Z.leb_le in E2; lia|].
        destruct (184 <=? 128 + Z.of_nat (length b)) eqn:E3; [apply Z.leb_le in E3; lia|].
        destruct (128 <=? 128 + Z.of_nat (length b)) eqn:E4; [|apply Z.leb_gt in E4; lia].
        replace (Z.to_nat (128 + Z.of_nat (length b) - 128)) with (length b) by lia.
        unfold checkOffset.
        destruct (Nat.leb (length b) (length (b ++ rest))) eqn:E5;
          [|apply Nat.leb_gt in E5; rewrite length_app in E5; lia].
        cbn [bind]. now rewrite firstn_app_exact, skipn_app_exact.
      - apply Z.leb_gt in E.
        destruct (arrayifyInteger_spec (Z.of_nat (length b)) ltac:(lia)) as [Hl Hv].
        set (len := arrayifyInteger (Z.of_nat (length b))) in *.
        cbn [app _decode].
        rewrite Z_of_byte_small by lia.
        destruct (248 <=? 183 + Z.of_nat (length len)) eqn:E1; [apply Z.leb_le in E1; lia|].
        destruct (192 <=? 183 + Z.of_nat (length len)) eqn:E2; [apply Z.leb_le in E2; lia|].
        destruct (184 <=? 183 + Z.of_nat (length len)) eqn:E3; [|apply Z.leb_gt in E3; lia].
        replace (Z.to_nat (183 + Z.of_nat (length len) - 183)) with (length len) by lia.
        rewrite <- app_assoc.
        rewrite firstn_app_exact, skipn_app_exact, Hv, Nat2Z.id.
        unfold checkOffset.
        destruct (Nat.leb (length len) (length (len ++ b ++ rest))) eqn:E5;
          [|apply Nat.leb_gt in E5; rewrite !length_app in E5; lia].
        destruct (Nat.leb (length b) (length (b ++ rest))) eqn:E6;
          [|apply Nat.leb_gt in E6; rewrite !length_app in E6; lia].
        cbn [bind]. now rewrite firstn_app_exact, skipn_app_exact. }
    destruct b as [|x [|y b']].
    + apply (Hgen 0); [reflexivity|discriminate].
    + destruct (Z_of_byte x <=? 127) eqn:E.
      * apply Z.leb_le in E. pose proof (Z_of_byte_range x).
        cbn [app _decode].
        destruct (248 <=? Z_of_byte x) eqn:E1; [apply Z.leb_le in E1; lia|].
        destruct (192 <=? Z_of_byte x) eqn:E2; [apply Z.leb_le in E2; lia|].
        destruct (184 <=? Z_of_byte x) eqn:E3; [apply Z.leb_le in E3; lia|].
        destruct (128 <=? Z_of_byte x) eqn:E4; [apply Z.leb_le in E4; lia|].
        reflexivity.
      * apply Z.leb_gt in E. apply (Hgen 1); [reflexivity|]. intros x' [= <-]. exact E.
    + apply (Hgen (Z.of_nat (length (x :: y :: b')))); [reflexivity|discriminate].
  - (* a list *)
    pose proof (_encode_nonempty (RList items)) as Hne.
    pose proof (_encode_list_length items) as Hpay.
    destruct fuel as [|f]; [rewrite length_app in Hfuel; lia|].
    cbn [_encode] in *.
    set (payload := flat_map _encode items) in *.
    assert (Hchildren : forall g, (2 * length payload + 1 <= g)%nat ->
              _decodeChildren g payload = Ok items).
    { apply _decodeChildren_encode; [exact IH|]. subst payload. lia. }
    destruct (Z.of_nat (length payload) <=? 55) eqn:E.
    + apply Z.leb_le in E. cbn [app _decode].
      rewrite Z_of_byte_small by lia.
      destruct (248 <=? 192 + Z.of_nat (length payload)) eqn:E1; [apply Z.leb_le in E1; lia|].
      destruct (192 <=? 192 + Z.of_nat (length payload)) eqn:E2; [|apply Z.leb_gt in E2; lia].
      replace (Z.to_nat (192 + Z.of_nat (length payload) - 192)) with (length payload) by lia.
      unfold checkOffset.
      destruct (Nat.leb (length payload) (length (payload ++ rest))) eqn:E5;
        [|apply Nat.leb_gt in E5; rewrite length_app in E5; lia].
      cbn [bind]. rewrite firstn_app_exact, skipn_app_exact.
      rewrite Hchildren; [reflexivity|].
      simpl length in Hfuel. rewrite length_app in Hfuel. lia.
    + apply Z.leb_gt in E.
      destruct (arrayifyInteger_spec (Z.of_nat (length payload)) ltac:(lia)) as [Hl Hv].
      set (len := arrayifyInteger (Z.of_nat (length payload))) in *.
      cbn [app _decode].
      rewrite Z_of_byte_small by lia.
      destruct (248 <=? 247 + Z.of_nat (length len)) eqn:E1; [|apply Z.leb_gt in E1; lia].
      replace (Z.to_nat (247 + Z.of_nat (length len) - 247)) with (length len) by lia.
      rewrite <- app_assoc.
      rewrite firstn_app_exact, skipn_app_exact, Hv, Nat2Z.id.
      unfold checkOffset.
      destruct (Nat.leb (length len) (length (len ++ payload ++ rest))) eqn:E5;
        [|apply Nat.leb_gt in E5; rewrite !length_app in E5; lia].
      destruct (Nat.leb (length payload) (length (payload ++ rest))) eqn:E6;
        [|apply Nat.leb_gt in E6; rewrite !length_app in E6; lia].
      cbn [bind]. rewrite firstn_app_exact, skipn_app_exact.
      rewrite Hchildren; [reflexivity|].
      simpl length in Hfuel. rewrite !length_app in Hfuel. lia.
Qed.

(** Decoding inverts encoding. *)
Lemma decodeRlp_encodeRlp (item : RlpItem) :
  Z.of_nat (length (encodeRlp item)) < 2 ^ 64 ->
  decodeRlp (encodeRlp item) = Ok item.
Proof.
  intros Hsize. unfold decodeRlp, encodeRlp in *.
  pose proof (_decode_encode item [] (2 * length (_encode item)) Hsize) as H.
  rewrite app_nil_r in H. rewrite H by lia. reflexivity.
Qed.

(** ** Hex digits and addresses *)

Lemma hex_char_spec (v : Z) :
  0 <= v < 16 ->
  is_hex_digit (hex_char v) = true
  /\ is_upper_hex (hex_char v) = false
  /\ hex_digit_value (hex_char v) = v
  /\ to_lower (hex_char v) = hex_char v.
Proof.
  intros Hv.
  assert (Hcases : v = 0 \/ v = 1 \/ v = 2 \/ v = 3 \/ v = 4 \/ v = 5 \/ v = 6 \/ v = 7
          \/ v = 8 \/ v = 9 \/ v = 10 \/ v = 11 \/ v = 12 \/ v = 13 \/ v = 14 \/ v = 15)
    by lia.
  repeat (destruct Hcases as [->|Hcases]; [vm_compute; auto|]).
  subst v. vm_compute. auto.
Qed.

Lemma hex_digit_spec (c : ascii) :
  is_hex_digit c = true ->
  hex_char (hex_digit_value c) = to_lower c
  /\ 0 <= hex_digit_value c < 16.
Proof.
  destruct c as [[] [] [] [] [] [] [] []]; intros H; try discriminate H;
    (split; [reflexivity | vm_compute; split; [discriminate | reflexivity]]).
Qed.

Lemma to_lower_idem (c : ascii) : to_lower (to_lower c) = to_lower c.
Proof. destruct c as [[] [] [] [] [] [] [] []]; reflexivity. Qed.

Lemma to_lower_to_upper (c : ascii) : to_lower (to_upper c) = to_lower c.
Proof. destruct c as [[] [] [] [] [] [] [] []]; reflexivity. Qed.

Lemma to_lower_hex (c : ascii) :
  is_hex_digit c = true ->
  is_hex_digit (to_lower c) = true
  /\ hex_digit_value (to_lower c) = hex_digit_value c.
Proof.
  destruct c as [[] [] [] [] [] [] [] []]; intros H; try discriminate H;
    split; reflexivity.
Qed.

Lemma to_upper_hex (c : ascii) :
  is_hex_digit c = true ->
  is_hex_digit (to_upper c) = true
  /\ hex_digit_value (to_upper c) = hex_digit_value c.
Proof.
  destruct c as [[] [] [] [] [] [] [] []]; intros H; try discriminate H;
    split; reflexivity.
Qed.

(** A byte is its two hex digits. *)
Lemma byte_of_nibbles (x : byte) :
  byte_of_Z (16 * (Z_of_byte x / 16) + Z_of_byte x mod 16) = x.
Proof.
  rewrite <- Z.div_mod by lia. apply byte_of_Z_of_byte.
Qed.

Lemma hex_pairs_hex_chars (b : bytes) : hex_pairs (hex_chars b) = Some b.
Proof.
  induction b as [|x b IH]; [reflexivity|].
  cbn [hex_chars hex_pairs].
  pose proof (Z_of_byte_range x) as Hr.
  destruct (hex_char_spec (Z_of_byte x / 16)) as (H1 & _ & H2 & _).
  { split; [apply Z.div_pos; lia | apply Z.div_lt_upper_bound; lia]. }
  destruct (hex_char_spec (Z_of_byte x mod 16)) as (H3 & _ & H4 & _).
  { apply Z.mod_pos_bound. lia. }
  rewrite H1, H3, H2, H4, IH. cbn [andb]. now rewrite byte_of_nibbles.
Qed.

Lemma length_hex_chars (b : bytes) : length (hex_chars b) = (2 * length b)%nat.
Proof. induction b as [|x b IH]; simpl; lia. Qed.

Lemma hex_chars_lower (b : bytes) :
  forallb is_hex_digit (hex_chars b) = true
  /\ existsb is_upper_hex (hex_chars b) = false
  /\ map to_lower (hex_chars b) = hex_chars b.
Proof.
  induction b as [|x b (IH1 & IH2 & IH3)]; [auto|].
  pose proof (Z_of_byte_range x) as Hr.
  destruct (hex_char_spec (Z_of_byte x / 16)) as (H1 & H2 & _ & H3).
  { split; [apply Z.div_pos; lia | apply Z.div_lt_upper_bound; lia]. }
  destruct (hex_char_spec (Z_of_byte x mod 16)) as (H4 & H5 & _ & H6).
  { apply Z.mod_pos_bound. lia. }
  cbn [hex_chars forallb existsb map].
  rewrite H1, H2, H3, H4, H5, H6, IH1, IH2, IH3. auto.
Qed.

(** Forty (or any even number of) hex digits denote bytes, whose hex
    string is the lower-case spelling of the digits. *)
Lemma hex_pairs_digits (n : nat) :
  forall d, length d = (2 * n)%nat -> forallb is_hex_digit d = true ->
    exists b, hex_pairs d = Some b /\ length b = n /\ hex_chars b = map to_lower d.
Proof.
  induction n as [|n IH]; intros d Hlen Hhex.
  - destruct d; [|discriminate]. exists []. auto.
  - destruct d as [|hi [|lo d]]; try (simpl in Hlen; lia).
    cbn [forallb] in Hhex.
    apply andb_prop in Hhex as [Hhi Hhex]. apply andb_prop in Hhex as [Hlo Hhex].
    destruct (IH d) as (b & Hb & Hbl & Hbc); [simpl in Hlen; lia|exact Hhex|].
    exists (byte_of_Z (16 * hex_digit_value hi + hex_digit_value lo) :: b).
    cbn [hex_pairs]. rewrite Hhi, Hlo, Hb. cbn [andb].
    split; [reflexivity|]. split; [simpl; lia|].
    destruct (hex_digit_spec hi Hhi) as [Hc1 Hr1].
    destruct (hex_digit_spec lo Hlo) as [Hc2 Hr2].
    cbn [hex_chars map]. rewrite Z_of_byte_small by lia.
    replace ((16 * hex_digit_value hi + hex_digit_value lo) / 16)
      with (hex_digit_value hi)
      by (apply Z.div_unique with (r := hex_digit_value lo); lia).
    replace ((16 * hex_digit_value hi + hex_digit_value lo) mod 16)
      with (hex_digit_value lo)
      by (apply Z.mod_unique with (q := hex_digit_value hi); lia).
    now rewrite Hc1, Hc2, Hbc.
Qed.

(** The checksum only changes the case of letters. *)
Lemma checksum_chars_lower (chars : list ascii) :
  forall hashed, map to_lower (checksum_chars chars hashed) = map to_lower chars.
Proof.
  assert (H : forall n chars, (length chars <= n)%nat ->
            forall hashed, map to_lower (checksum_chars chars hashed) = map to_lower chars).
  { induction n as [|n IH]; intros cs Hn hashed.
    - destruct cs; [reflexivity|simpl in Hn; lia].
    - destruct cs as [|hi [|lo rest]]; try reflexivity.
      cbn [checksum_chars map].
      rewrite IH by (simpl in Hn; lia).
      f_equal; [|f_equal].
      + destruct (8 <=? _); [apply to_lower_to_upper|reflexivity].
      + destruct (8 <=? _); [apply to_lower_to_upper|reflexivity]. }
  intros hashed. now apply (H (length chars)).
Qed.

Lemma checksum_chars_length (chars : list ascii) :
  forall hashed, length (checksum_chars chars hashed) = length chars.
Proof.
  intros hashed.
  rewrite <- (length_map to_lower (checksum_chars chars hashed)), checksum_chars_lower.
  apply length_map.
Qed.

Lemma is_hex_digit_lower (c : ascii) : is_hex_digit (to_lower c) = is_hex_digit c.
Proof. destruct c as [[] [] [] [] [] [] [] []]; reflexivity. Qed.

Lemma forallb_hex_lower (d : list ascii) :
  forallb is_hex_digit (map to_lower d) = forallb is_hex_digit d.
Proof.
  induction d as [|c d IH]; [reflexivity|].
  cbn [map forallb]. now rewrite is_hex_digit_lower, IH.
Qed.

Lemma map_to_lower_idem (d : list ascii) : map to_lower (map to_lower d) = map to_lower d.
Proof.
  rewrite map_map. apply map_ext. intros c. apply to_lower_idem.
Qed.

Lemma address_digits_spec (s : string) (d : list ascii) :
  address_digits s = Some d ->
  forallb is_hex_digit d = true /\ length d = 40%nat.
Proof.
  unfold address_digits.
  match goal with |- context [forallb is_hex_digit ?body] => generalize body end.
  intros body H.
  destruct (forallb is_hex_digit body) eqn:E1; [|discriminate].
  destruct (Nat.eqb (length body) 40) eqn:E2; [|discriminate].
  cbn [andb] in H. injection H as <-. apply Nat.eqb_eq in E2. auto.
Qed.

Lemma getAddress_inv {crypto : Crypto} (v : Nullable string) (a : string) :
  getAddress v = Ok a ->
  exists s d, v = JsVal s /\ address_digits s = Some d /\ a = getChecksumAddress d.
Proof.
  unfold getAddress. destruct v as [| |s]; try discriminate.
  destruct (address_digits s) as [d|] eqn:E; [|discriminate].
  unfold assertArgument. destruct (_ || _); cbn [bind]; [|discriminate].
  intros [= <-]. eauto.
Qed.

Lemma hex_chars_inj (a b : bytes) : hex_chars a = hex_chars b -> a = b.
Proof.
  intros E. apply (f_equal hex_pairs) in E. rewrite !hex_pairs_hex_chars in E.
  congruence.
Qed.

(** What [getBytes] reads in a checksummed spelling are the bytes of the
    digits. *)
Lemma getBytes_getChecksumAddress {crypto : Crypto} (d : list ascii) :
  forallb is_hex_digit d = true -> length d = 40%nat ->
  exists b, hex_pairs d = Some b /\ length b = 20%nat
            /\ getBytes (getChecksumAddress d) = Ok b.
Proof.
  intros Hhex Hlen.
  destruct (hex_pairs_digits 20 d Hlen Hhex) as (b & Hb & Hbl & Hbc).
  exists b. repeat split; auto.
  unfold getChecksumAddress.
  set (cs := checksum_chars (map to_lower d) _).
  assert (Hlow : map to_lower cs = map to_lower d).
  { subst cs. rewrite checksum_chars_lower. apply map_to_lower_idem. }
  assert (Hcl : length cs = 40%nat).
  { subst cs. rewrite checksum_chars_length, length_map. exact Hlen. }
  assert (Hch : forallb is_hex_digit cs = true).
  { rewrite <- forallb_hex_lower, Hlow, forallb_hex_lower. exact Hhex. }
  destruct (hex_pairs_digits 20 cs Hcl Hch) as (b' & Hb' & _ & Hbc').
  assert (b' = b) as -> by (apply hex_chars_inj; congruence).
  cbn [getBytes]. rewrite list_ascii_of_string_of_list_ascii, Hb'. reflexivity.
Qed.

(** The normalized spelling of an address denotes the same twenty bytes
    as any of its spellings. *)
Lemma getAddress_bytes {crypto : Crypto} (s a : string) :
  getAddress (JsVal s) = Ok a ->
  getBytes a = Ok (address_bytes s) /\ length (address_bytes s) = 20%nat.
Proof.
  intros Ha. apply getAddress_inv in Ha as (s' & d & [= <-] & Hd & ->).
  destruct (address_digits_spec s d Hd) as [Hhex Hlen].
  destruct (getBytes_getChecksumAddress d Hhex Hlen) as (b & Hb & Hbl & Hg).
  unfold address_bytes. rewrite Hd, Hb. auto.
Qed.

Lemma address_digits_hexlify (b : bytes) :
  length b = 20%nat -> address_digits (hexlify b) = Some (hex_chars b).
Proof.
  intros Hlen. unfold address_digits, hexlify.
  cbn [andb]. rewrite list_ascii_of_string_of_list_ascii.
  destruct (hex_chars_lower b) as (Hhex & _ & _). rewrite Hhex.
  rewrite length_hex_chars, Hlen. reflexivity.
Qed.

(** Reading an address back from its twenty bytes gives its normalized
    spelling. *)
Lemma getAddress_hexlify {crypto : Crypto} (s a : string) :
  getAddress (JsVal s) = Ok a ->
  getAddress (JsVal (hexlify (address_bytes s))) = Ok a.
Proof.
  intros Ha. apply getAddress_inv in Ha as (s' & d & [= <-] & Hd & ->).
  destruct (address_digits_spec s d Hd) as [Hhex Hlen].
  destruct (hex_pairs_digits 20 d Hlen Hhex) as (b & Hb & Hbl & Hbc).
  unfold address_bytes. rewrite Hd, Hb.
  unfold getAddress. rewrite (address_digits_hexlify b Hbl).
  destruct (hex_chars_lower b) as (_ & Hup & Hlow).
  unfold mixed_case. rewrite Hup. cbn [andb negb orb assertArgument bind].
  unfold getChecksumAddress. rewrite Hlow, Hbc. reflexivity.
Qed.

Lemma handleAddress_address {crypto : Crypto} (s a : string) :
  getAddress (JsVal s) = Ok a ->
  handleAddress (RBytes (address_bytes s)) = Ok (Some a).
Proof.
  intros Ha. destruct (getAddress_bytes s a Ha) as [_ Hlen].
  unfold handleAddress. destruct (address_bytes s) as [|x b] eqn:E; [discriminate|].
  rewrite <- E, (getAddress_hexlify s a Ha). reflexivity.
Qed.

(** What the normalizer returns is a fixed point of the normalizer. *)
Lemma getAddress_normalized {crypto : Crypto} (v : Nullable string) (a : string) :
  getAddress v = Ok a -> getAddress (JsVal a) = Ok a.
Proof.
  intros Ha. apply getAddress_inv in Ha as (s & d & _ & Hd & ->).
  destruct (address_digits_spec s d Hd) as [Hhex Hlen].
  unfold getChecksumAddress.
  set (cs := checksum_chars (map to_lower d) _).
  assert (Hlow : map to_lower cs = map to_lower d).
  { subst cs. rewrite checksum_chars_lower. apply map_to_lower_idem. }
  assert (Hcl : length cs = 40%nat).
  { subst cs. rewrite checksum_chars_length, length_map. exact Hlen. }
  assert (Hch : forallb is_hex_digit cs = true).
  { rewrite <- forallb_hex_lower, Hlow, forallb_hex_lower. exact Hhex. }
  unfold getAddress, address_digits.
  rewrite list_ascii_of_string_of_list_ascii, Hch, Hcl. cbn [andb Nat.eqb].
  unfold getChecksumAddress. rewrite Hlow. fold cs.
  rewrite String.eqb_refl, orb_true_r. reflexivity.
Qed.

(** The invariant of the fee currency: what the setter stores is a
    normalized address. *)
Lemma set_feeCurrency_normalized {crypto : Crypto} (v : Nullable string) :
  (forall this this',
     Celo.set_feeCurrency this v = Ok this' ->
     getAddress (JsVal (Celo.feeCurrency this')) = Ok (Celo.feeCurrency this'))
  /\ (forall this this',
        Plugin.set_feeCurrency this v = Ok this' ->
        exists a, Plugin.feeCurrency this' = JsVal a /\ getAddress (JsVal a) = Ok a).
Proof.
  split; intros this this' Hs.
  - unfold Celo.set_feeCurrency in Hs.
    destruct (getAddress v) as [a|] eqn:Ea; cbn [bind] in Hs; [|discriminate].
    injection Hs as <-. cbn [Celo.feeCurrency]. eapply getAddress_normalized; eauto.
  - unfold Plugin.set_feeCurrency in Hs.
    destruct (getAddress v) as [a|] eqn:Ea; cbn [bind] in Hs; [|discriminate].
    injection Hs as <-. cbn [Plugin.feeCurrency]. exists a. split; [reflexivity|].
    eapply getAddress_normalized; eauto.
Qed.

(** ** Serialization *)

(** Inversion of a successful bind in a hypothesis. *)
Tactic Notation "bind_ok" hyp(H) "as" simple_intropattern(x) ident(E) :=
  match type of H with
  | bind ?r _ = Ok _ =>
      destruct r as [x|] eqn:E; cbn [bind] in H; [|discriminate H]
  end.

Lemma toBeArray_ok (v : Z) (b : bytes) :
  toBeArray v = Ok b -> b = be_bytes v /\ 0 <= v.
Proof.
  unfold toBeArray, assert. destruct (0 <=? v) eqn:E; cbn [bind]; [|discriminate].
  intros [= <-]. apply Z.leb_le in E. auto.
Qed.

Lemma formatNumber_ok (v : Z) (name : string) (b : bytes) :
  formatNumber v name = Ok b -> b = be_bytes v /\ 0 <= v.
Proof.
  unfold formatNumber. intros H. bind_ok H as r E. apply toBeArray_ok in E as [-> Hv].
  unfold assertArgument in H. destruct (Nat.leb _ _); cbn [bind] in H; [|discriminate].
  injection H as <-. auto.
Qed.

Lemma mapM_IBytes (l : list bytes) : mapM rlp_item (map IBytes l) = Ok (map RBytes l).
Proof.
  induction l as [|x l IH]; [reflexivity|].
  cbn [map mapM rlp_item bind]. rewrite IH. reflexivity.
Qed.

Lemma check_slots_ok (keys : list bytes) :
  forall index ks, check_slots index keys = Ok ks -> ks = keys.
Proof.
  induction keys as [|k keys IH]; intros index ks H.
  - now injection H as <-.
  - cbn [check_slots] in H. bind_ok H as u E. bind_ok H as others E0. injection H as <-.
    f_equal. eapply IH. eassumption.
Qed.

Lemma accessSetify_ok {crypto : Crypto} (a : string) (keys : list bytes) (set : AccessSet) :
  accessSetify (JsVal a) keys = Ok set ->
  getAddress (JsVal a) = Ok (address set) /\ storageKeys set = keys.
Proof.
  unfold accessSetify. intros H. bind_ok H as a' E. bind_ok H as ks E0. injection H as <-.
  apply check_slots_ok in E0 as ->. auto.
Qed.

(** The encoder's view of a validated access list. *)
Lemma rlp_item_access_list {crypto : Crypto} (l sets : AccessList) :
  accessListify l = Ok sets ->
  mapM rlp_item
    (map (fun set => IList [IAddress (address set); IList (map IBytes (storageKeys set))])
       sets)
  = Ok (map access_set_item l).
Proof.
  unfold accessListify. revert sets. induction l as [|x l IH]; intros sets H.
  - injection H as <-. reflexivity.
  - cbn [mapM] in H. bind_ok H as a E. bind_ok H as a0 E0. injection H as <-.
    apply accessSetify_ok in E as [Ha Hk].
    destruct (getAddress_bytes _ _ Ha) as [Hb _].
    cbn [map mapM rlp_item bind]. rewrite Hb. cbn [bind].
    rewrite mapM_IBytes. cbn [bind].
    rewrite (IH _ eq_refl). cbn [bind].
    unfold access_set_item. rewrite Hk. reflexivity.
Qed.

(** The two classes serialize alike. *)
Lemma serialize_variants {crypto : Crypto} (t : Transaction) (fee : string)
  (signature : option Signature) :
  Celo.serialize (Celo.mkCip64Transaction t fee) signature
  = Plugin.serialize (Plugin.mkCip64Transaction t (JsVal fee)) signature.
Proof. reflexivity. Qed.

(** The encoder's view of the elements the serializer builds. *)
Lemma rlp_item_fields {crypto : Crypto} (t : Transaction) (fc : Nullable string)
  (b1 b2 b3 b4 b5 b6 : bytes) (f_to f_al : RlpInput) (f_cur : string)
  (extra : list bytes) :
  match to t with
  | Some a => let* a' := getAddress (JsVal a) in Ok (IAddress a')
  | None => Ok (IBytes [])
  end = Ok f_to ->
  formatAccessList (match accessList t with Some l => l | None => [] end) = Ok f_al ->
  getAddress fc = Ok f_cur ->
  exists fee,
    fc = JsVal fee
    /\ rlp_item (IList ([IBytes b1; IBytes b2; IBytes b3; IBytes b4; IBytes b5; f_to;
                         IBytes b6;
                         match data t with Some d => IBytes d | None => IBytes [] end;
                         f_al; IAddress f_cur] ++ map IBytes extra))
       = Ok (RList ([RBytes b1; RBytes b2; RBytes b3; RBytes b4; RBytes b5;
                     RBytes (match to t with Some a => address_bytes a | None => [] end);
                     RBytes b6;
                     RBytes (match data t with Some d => d | None => [] end);
                     RList (match accessList t with
                            | Some l => map access_set_item l
                            | None => []
                            end);
                     RBytes (address_bytes fee)] ++ map RBytes extra)).
Proof.
  intros Eto Eal Ecur.
  destruct (getAddress_inv _ _ Ecur) as (fee & d & -> & _ & _).
  exists fee. split; [reflexivity|].
  destruct (getAddress_bytes _ _ Ecur) as [Hfee _].
  unfold formatAccessList in Eal. bind_ok Eal as sets Esets. injection Eal as <-.
  pose proof (rlp_item_access_list _ _ Esets) as Hal.
  assert (Hto : rlp_item f_to
                = Ok (RBytes (match to t with Some a => address_bytes a | None => [] end))).
  { destruct (to t) as [a|].
    - bind_ok Eto as a' Ea. injection Eto as <-.
      cbn [rlp_item]. destruct (getAddress_bytes _ _ Ea) as [-> _]. reflexivity.
    - injection Eto as <-. reflexivity. }
  assert (Hdata : rlp_item (match data t with Some d => IBytes d | None => IBytes [] end)
                  = Ok (RBytes (match data t with Some d => d | None => [] end))).
  { destruct (data t); reflexivity. }
  cbn [app rlp_item mapM bind].
  rewrite Hto. cbn [bind]. rewrite Hdata. cbn [bind]. rewrite Hal. cbn [bind].
  rewrite Hfee. cbn [bind]. rewrite mapM_IBytes. cbn [bind].
  destruct (accessList t); reflexivity.
Qed.

(** A successful serialization is the type tag followed by the list
    encoding of the ten elements, and of the three of the signature. *)
Lemma Plugin_serialize_layout {crypto : Crypto} (this : Plugin.Cip64Transaction)
  (signature : option Signature) (out : bytes) :
  Plugin.serialize this signature = Ok out ->
  exists fee,
    Plugin.feeCurrency this = JsVal fee
    /\ out = payload (unsigned_fields (Plugin.fields this) fee
                      ++ optional_signature_fields signature).
Proof.
  unfold Plugin.serialize. intros Hs.
  destruct this as [t fc]. cbn [Plugin.fields Plugin.feeCurrency] in *.
  bind_ok Hs as f_chainId E1. apply formatNumber_ok in E1 as [-> _].
  bind_ok Hs as f_nonce E2. apply formatNumber_ok in E2 as [-> _].
  bind_ok Hs as f_prio E3. apply formatNumber_ok in E3 as [-> _].
  bind_ok Hs as f_fee E4. apply formatNumber_ok in E4 as [-> _].
  bind_ok Hs as f_gas E5. apply formatNumber_ok in E5 as [-> _].
  bind_ok Hs as f_to Eto.
  bind_ok Hs as f_value E6. apply formatNumber_ok in E6 as [-> _].
  bind_ok Hs as f_al Eal.
  bind_ok Hs as f_cur Ecur.
  bind_ok Hs as elements Esig.
  bind_ok Hs as encoded Eenc.
  injection Hs as <-. unfold payload, concat_bytes, CIP_64_TYPE_HEX.
  cbn [List.concat app]. rewrite app_nil_r.
  unfold encodeRlpInput in Eenc. bind_ok Eenc as item Eitem. injection Eenc as <-.
  destruct signature as [sig|].
  - bind_ok Esig as y Ey. bind_ok Esig as r Er. bind_ok Esig as s Es.
    injection Esig as <-.
    apply formatNumber_ok in Ey as [-> _].
    apply toBeArray_ok in Er as [-> _]. apply toBeArray_ok in Es as [-> _].
    destruct (rlp_item_fields t fc (be_bytes (or_zero (chainId t))) (be_bytes (or_zero (nonce t)))
                (be_bytes (or_zero (maxPriorityFeePerGas t))) (be_bytes (or_zero (maxFeePerGas t)))
                (be_bytes (or_zero (gasLimit t))) (be_bytes (or_zero (value t))) _ _ _
                [be_bytes (sig_yParity sig); be_bytes (be_value (sig_r sig));
                 be_bytes (be_value (sig_s sig))] Eto Eal Ecur) as (fee & -> & Hitem).
    exists fee. split; [reflexivity|].
    cbn [map app] in Hitem. cbn [app] in Eitem.
    rewrite Hitem in Eitem. injection Eitem as <-. reflexivity.
  - injection Esig as <-.
    destruct (rlp_item_fields t fc (be_bytes (or_zero (chainId t))) (be_bytes (or_zero (nonce t)))
                (be_bytes (or_zero (maxPriorityFeePerGas t))) (be_bytes (or_zero (maxFeePerGas t)))
                (be_bytes (or_zero (gasLimit t))) (be_bytes (or_zero (value t))) _ _ _ [] Eto Eal Ecur)
      as (fee & -> & Hitem).
    exists fee. split; [reflexivity|].
    cbn [map app] in Hitem. cbn [app] in Eitem.
    rewrite Hitem in Eitem. injection Eitem as <-. reflexivity.
Qed.

(** Serialization needs a fee currency that the normalizer accepts. *)
Lemma Plugin_serialize_feeCurrency {crypto : Crypto} (this : Plugin.Cip64Transaction)
  (signature : option Signature) (out : bytes) :
  Plugin.serialize this signature = Ok out ->
  exists a, getAddress (Plugin.feeCurrency this) = Ok a.
Proof.
  unfold Plugin.serialize. intros Hs.
  bind_ok Hs as f_chainId E1. bind_ok Hs as f_nonce E2. bind_ok Hs as f_prio E3.
  bind_ok Hs as f_fee E4. bind_ok Hs as f_gas E5. bind_ok Hs as f_to Eto.
  bind_ok Hs as f_value E6. bind_ok Hs as f_al Eal. bind_ok Hs as f_cur Ecur.
  eauto.
Qed.

(** ** Errors of the serializer *)

Lemma toBeArray_error (v : Z) (e : Error) : toBeArray v = Err e -> plain_error e.
Proof.
  unfold toBeArray, assert. destruct (0 <=? v); cbn [bind]; [discriminate|].
  intros [= <-]. now right.
Qed.

Lemma formatNumber_error (v : Z) (name : string) (e : Error) :
  formatNumber v name = Err e -> plain_error e.
Proof.
  unfold formatNumber. destruct (toBeArray v) as [b|e'] eqn:E; cbn [bind].
  - unfold assertArgument. destruct (Nat.leb _ _); cbn [bind]; [discriminate|].
    intros [= <-]. now left.
  - intros [= <-]. eapply toBeArray_error; eauto.
Qed.

Lemma getAddress_error {crypto : Crypto} (v : Nullable string) (e : Error) :
  getAddress v = Err e -> code e = INVALID_ARGUMENT.
Proof.
  unfold getAddress. destruct v as [| |s]; try (intros [= <-]; reflexivity).
  destruct (address_digits s); [|intros [= <-]; reflexivity].
  unfold assertArgument. destruct (_ || _); cbn [bind]; [discriminate|].
  intros [= <-]. reflexivity.
Qed.

Lemma check_slots_error (keys : list bytes) :
  forall index e, check_slots index keys = Err e -> code e = INVALID_ARGUMENT.
Proof.
  induction keys as [|k keys IH]; intros index e; cbn [check_slots]; [discriminate|].
  unfold assertArgument. destruct (Nat.eqb _ _); cbn [bind].
  - destruct (check_slots (S index) keys) eqn:E; cbn [bind]; [discriminate|].
    intros [= <-]. eapply IH; eauto.
  - intros [= <-]. reflexivity.
Qed.

Lemma accessListify_error {crypto : Crypto} (l : AccessList) (e : Error) :
  accessListify l = Err e -> code e = INVALID_ARGUMENT.
Proof.
  unfold accessListify. induction l as [|x l IH]; cbn [mapM]; [discriminate|].
  unfold accessSetify at 1.
  destruct (getAddress _) eqn:Ea; cbn [bind];
    [|intros [= <-]; eapply getAddress_error; eauto].
  destruct (check_slots _ _) eqn:Ec; cbn [bind];
    [|intros [= <-]; eapply check_slots_error; eauto].
  destruct (mapM _ l) eqn:El; cbn [bind]; [discriminate|].
  intros [= <-]. now apply IH.
Qed.

Lemma Plugin_serialize_error {crypto : Crypto} (this : Plugin.Cip64Transaction)
  (signature : option Signature) (e : Error) :
  Plugin.serialize this signature = Err e -> plain_error e.
Proof.
  unfold Plugin.serialize. destruct this as [t fc].
  cbn [Plugin.fields Plugin.feeCurrency].
  pose proof formatNumber_error as Hnum.
  destruct (formatNumber (or_zero (chainId t)) "chainId") as [b1|] eqn:E1; cbn [bind];
    [|intros [= <-]; eauto].
  destruct (formatNumber (or_zero (nonce t)) "nonce") as [b2|] eqn:E2; cbn [bind];
    [|intros [= <-]; eauto].
  destruct (formatNumber (or_zero (maxPriorityFeePerGas t)) "maxPriorityFeePerGas")
    as [b3|] eqn:E3; cbn [bind]; [|intros [= <-]; eauto].
  destruct (formatNumber (or_zero (maxFeePerGas t)) "maxFeePerGas") as [b4|] eqn:E4;
    cbn [bind]; [|intros [= <-]; eauto].
  destruct (formatNumber (or_zero (gasLimit t)) "gasLimit") as [b5|] eqn:E5; cbn [bind];
    [|intros [= <-]; eauto].
  destruct (match to t with Some _ => _ | None => _ end) as [f_to|e'] eqn:Eto; cbn [bind].
  2:{ intros [= <-]. destruct (to t); [|discriminate].
      destruct (getAddress _) eqn:Ea; cbn [bind] in Eto; [discriminate|].
      injection Eto as <-. left. eapply getAddress_error; eauto. }
  destruct (formatNumber (or_zero (value t)) "value") as [b6|] eqn:Ev; cbn [bind];
    [|intros [= <-]; eauto].
  destruct (formatAccessList _) as [f_al|e'] eqn:Eal; cbn [bind].
  2:{ intros [= <-]. unfold formatAccessList in Eal.
      destruct (accessListify _) eqn:El; cbn [bind] in Eal; [discriminate|].
      injection Eal as <-. left. eapply accessListify_error; eauto. }
  destruct (getAddress fc) as [f_cur|e'] eqn:Ecur; cbn [bind];
    [|intros [= <-]; left; eapply getAddress_error; eauto].
  destruct signature as [sig|].
  - destruct (formatNumber (sig_yParity sig) "yParity") as [y|] eqn:Ey; cbn [bind];
      [|intros [= <-]; eapply formatNumber_error; eauto].
    destruct (toBeArray (be_value (sig_r sig))) as [r|] eqn:Er; cbn [bind];
      [|intros [= <-]; eapply toBeArray_error; eauto].
    destruct (toBeArray (be_value (sig_s sig))) as [s|] eqn:Es; cbn [bind];
      [|intros [= <-]; eapply toBeArray_error; eauto].
    destruct (rlp_item_fields t fc b1 b2 b3 b4 b5 b6 _ _ _ [y; r; s] Eto Eal Ecur)
      as (fee & _ & Hitem).
    unfold encodeRlpInput. cbn [map app] in Hitem. cbn [app bind]. rewrite Hitem.
    cbn [bind]. discriminate.
  - destruct (rlp_item_fields t fc b1 b2 b3 b4 b5 b6 _ _ _ [] Eto Eal Ecur)
      as (fee & _ & Hitem).
    unfold encodeRlpInput. cbn [map app] in Hitem. cbn [app bind]. rewrite Hitem.
    cbn [bind]. discriminate.
Qed.

(** ** The serializer: layout, signature requirement, fee currency *)

Lemma Celo_serialize_layout {crypto : Crypto} (this : Celo.Cip64Transaction)
  (signature : option Signature) (out : bytes) :
  Celo.serialize this signature = Ok out ->
  out = payload (unsigned_fields (Celo.fields this) (Celo.feeCurrency this)
                 ++ optional_signature_fields signature).
Proof.
  destruct this as [t fee]. rewrite serialize_variants. intros Hs.
  apply Plugin_serialize_layout in Hs as (fee' & [= <-] & ->). reflexivity.
Qed.

(** The scenario of the specification, byte by byte: the tag, a list of
    32 bytes of payload, the chain id 44787 on two bytes, seven empty
    elements, the empty access list, and the twenty bytes of the fee
    currency. *)
Example sample_unsigned_payload_hex :
  hexlify sample_unsigned_payload
  = "0x7be082aef380808080808080c094874069fa1eb16d44d622f2e0ca25eea172369bc1".
Proof. vm_compute. reflexivity. Qed.

Lemma plain_error_supported (e : Error) :
  plain_error e -> code e <> UNSUPPORTED_OPERATION.
Proof. intros [H|H]; rewrite H; discriminate. Qed.

Lemma Celo_serialize_error {crypto : Crypto} (this : Celo.Cip64Transaction)
  (signature : option Signature) (e : Error) :
  Celo.serialize this signature = Err e -> plain_error e.
Proof.
  destruct this as [t fee]. rewrite serialize_variants. apply Plugin_serialize_error.
Qed.

(** ** An unset fee currency *)

Lemma getAddress_unset {crypto : Crypto} :
  getAddress (JsVal "") = Err (invalid_address (JsVal ""))
  /\ getAddress JsUndefined = Err (invalid_address JsUndefined)
  /\ getAddress JsNull = Err (invalid_address JsNull).
Proof. repeat split. Qed.

(** If the fields serialize with some fee currency, then with an unset
    one the serializer stops at the fee currency. *)
Lemma Plugin_serialize_stops {crypto : Crypto} (t : Transaction) (fc fc' : Nullable string)
  (signature : option Signature) (out : bytes) (e : Error) :
  Plugin.serialize (Plugin.mkCip64Transaction t fc) signature = Ok out ->
  getAddress fc' = Err e ->
  Plugin.serialize (Plugin.mkCip64Transaction t fc') signature = Err e.
Proof.
  unfold Plugin.serialize. cbn [Plugin.fields Plugin.feeCurrency]. intros Hs He.
  bind_ok Hs as f_chainId E1. bind_ok Hs as f_nonce E2. bind_ok Hs as f_prio E3.
  bind_ok Hs as f_fee E4. bind_ok Hs as f_gas E5. bind_ok Hs as f_to Eto.
  bind_ok Hs as f_value E6. bind_ok Hs as f_al Eal.
  cbn [bind]. rewrite He. reflexivity.
Qed.

(** C6. With the fee currency never set (the empty string of the
    standalone class, [undefined] in the plugin's class) neither
    [serialized] nor [unsignedSerialized] yields bytes; and if the other
    fields are such that the transaction would serialize with a fee
    currency, the failure is the address error raised for the unset fee
    currency. *)
Theorem unset_feeCurrency_fails {crypto : Crypto} (t : Transaction) :
  (is_ok (Celo.unsignedSerialized (Celo.mkCip64Transaction t "")) = false
   /\ is_ok (Celo.serialized (Celo.mkCip64Transaction t "")) = false
   /\ is_ok (Plugin.unsignedSerialized (Plugin.mkCip64Transaction t JsUndefined)) = false
   /\ is_ok (Plugin.serialized (Plugin.mkCip64Transaction t JsUndefined)) = false)
  /\ (forall fee out,
        Celo.unsignedSerialized (Celo.mkCip64Transaction t fee) = Ok out ->
        Celo.unsignedSerialized (Celo.mkCip64Transaction t "")
        = Err (invalid_address (JsVal ""))
        /\ Plugin.unsignedSerialized (Plugin.mkCip64Transaction t JsUndefined)
           = Err (invalid_address JsUndefined))
  /\ (forall fee out,
        Celo.serialized (Celo.mkCip64Transaction t fee) = Ok out ->
        Celo.serialized (Celo.mkCip64Transaction t "")
        = Err (invalid_address (JsVal ""))
        /\ Plugin.serialized (Plugin.mkCip64Transaction t JsUndefined)
           = Err (invalid_address JsUndefined)).
Proof.
  assert (Hnone : forall fc sig, getAddress fc = Err (invalid_address fc) ->
            is_ok (Plugin.serialize (Plugin.mkCip64Transaction t fc) sig) = false).
  { intros fc sig Hfc.
    destruct (Plugin.serialize _ sig) as [out|e] eqn:E; [|reflexivity].
    apply Plugin_serialize_feeCurrency in E as [a Ha].
    cbn [Plugin.feeCurrency] in Ha. congruence. }
  split; [|split].
  - repeat split.
    + unfold Celo.unsignedSerialized. rewrite serialize_variants. now apply Hnone.
    + unfold Celo.serialized. cbn [Celo.fields].
      destruct (signature t); cbn [assert bind]; [|reflexivity].
      rewrite serialize_variants. now apply Hnone.
    + now apply Hnone.
    + unfold Plugin.serialized. cbn [Plugin.fields].
      destruct (signature t); cbn [assert bind]; [|reflexivity]. now apply Hnone.
  - intros fee out Hs. unfold Celo.unsignedSerialized in *.
    rewrite serialize_variants in *. split.
    + eapply Plugin_serialize_stops; [exact Hs|reflexivity].
    + eapply Plugin_serialize_stops; [exact Hs|reflexivity].
  - intros fee out Hs. unfold Celo.serialized, Plugin.serialized in *.
    cbn [Celo.fields Plugin.fields] in *.
    destruct (signature t); cbn [assert bind] in *; [|discriminate].
    rewrite serialize_variants in *. split.
    + eapply Plugin_serialize_stops; [exact Hs|reflexivity].
    + eapply Plugin_serialize_stops; [exact Hs|reflexivity].
Qed.

Lemma unset_feeCurrency_fails_witness :
  @Celo.unsignedSerialized sample_crypto
    (Celo.mkCip64Transaction sample_fields sample_feeCurrency)
  = Ok sample_unsigned_payload
  /\ @Celo.unsignedSerialized sample_crypto (Celo.mkCip64Transaction sample_fields "")
     = Err (invalid_address (JsVal ""))
  /\ @Plugin.unsignedSerialized sample_crypto
       (Plugin.mkCip64Transaction sample_fields JsUndefined)
     = Err (invalid_address JsUndefined).
Proof.
  split; [vm_compute; reflexivity|].
  apply (proj1 (proj2 (@unset_feeCurrency_fails sample_crypto sample_fields))
           sample_feeCurrency sample_unsigned_payload).
  vm_compute. reflexivity.
Defined.

(** ** The parser *)

Lemma Celo_parse_common {crypto : Crypto} (data : bytes) :
  Celo.parseCip64 data
  = let* r := parse_common data in
    Ok (Celo.mkCeloTransactionLike (fst r) (or_undefined (snd r))).
Proof.
  unfold Celo.parseCip64, parse_common, well_shaped.
  destruct (decodeRlp (skipn 1 data)) as [decoded|]; cbn [bind]; [|reflexivity].
  destruct (assertArgument _ _ _ _); cbn [bind]; [|reflexivity].
  repeat match goal with
         | |- bind ?r _ = bind (bind ?r _) _ => destruct r; cbn [bind]; [|reflexivity]
         end.
  destruct (Nat.eqb _ 10); cbn [bind fst snd]; [reflexivity|].
  destruct (parseEipSignature _ _); reflexivity.
Qed.

Lemma Plugin_parse_common {crypto : Crypto} (data : bytes) :
  Plugin.parseCip64 data
  = let* r := parse_common data in
    Ok (Plugin.mkPluginTransactionLike (fst r)
          (Some (Plugin.mkCeloCustomData (or_null (snd r))))).
Proof.
  unfold Plugin.parseCip64, parse_common, well_shaped.
  destruct (decodeRlp (skipn 1 data)) as [decoded|]; cbn [bind]; [|reflexivity].
  destruct (assertArgument _ _ _ _); cbn [bind]; [|reflexivity].
  repeat match goal with
         | |- bind ?r _ = bind (bind ?r _) _ => destruct r; cbn [bind]; [|reflexivity]
         end.
  destruct (Nat.eqb _ 10); cbn [bind fst snd]; [reflexivity|].
  destruct (parseEipSignature _ _); reflexivity.
Qed.

(** *** Where the errors of the parser come from *)

Lemma _decode_error (fuel : nat) :
  (forall data e, _decode fuel data = Err e -> code e = BUFFER_OVERRUN)
  /\ (forall payload e, _decodeChildren fuel payload = Err e -> code e = BUFFER_OVERRUN).
Proof.
  induction fuel as [|f [IHd IHc]].
  - split.
    + intros data e [= <-]. reflexivity.
    + intros [|b p] e; [discriminate|]. intros [= <-]. reflexivity.
  - split.
    + intros [|b data] e; [intros [= <-]; reflexivity|].
      cbn [_decode]. unfold checkOffset, short_error.
      repeat match goal with
             | |- context [if ?c then _ else _] => destruct c
             | |- context [_decodeChildren f ?p] =>
                 let E := fresh "E" in
                 destruct (_decodeChildren f p) eqn:E; [|apply IHc in E]
             end; cbn [bind]; intros [= <-]; auto.
    + intros [|b p] e; [discriminate|].
      cbn [_decodeChildren].
      destruct (_decode f (b :: p)) as [[item rest]|e'] eqn:E; cbn [bind snd fst].
      * destruct (_decodeChildren f rest) eqn:E'; cbn [bind]; [discriminate|].
        intros [= <-]. eapply IHc; eauto.
      * intros [= <-]. eapply IHd; eauto.
Qed.

Lemma other_error_neq (e : Error) (data : bytes) :
  other_error e -> e <> field_count_error data.
Proof.
  intros [H|[H|H]] ->; cbn in H; solve [congruence | discriminate H].
Qed.

Lemma decodeRlp_error (data : bytes) (e : Error) :
  decodeRlp data = Err e -> other_error e.
Proof.
  unfold decodeRlp.
  destruct (_decode _ data) as [[item rest]|e'] eqn:E; cbn [bind snd fst].
  - unfold assertArgument. destruct (Nat.eqb _ _); cbn [bind]; [discriminate|].
    intros [= <-]. right. right. reflexivity.
  - intros [= <-]. apply _decode_error in E. right. left. rewrite E. discriminate.
Qed.

Lemma handleUint_error (r : RlpItem) (param : string) (e : Error) :
  handleUint r param = Err e -> argument e = param.
Proof.
  unfold handleUint, assertArgument. destruct r as [[|x b]|l]; try discriminate.
  - destruct (_ <=? _); cbn [bind]; [discriminate|]. now intros [= <-].
  - now intros [= <-].
Qed.

Lemma handleNumber_error (r : RlpItem) (param : string) (e : Error) :
  handleNumber r param = Err e -> argument e = param.
Proof.
  unfold handleNumber, assertArgument. destruct r as [[|x b]|l]; try discriminate.
  - destruct (_ <=? _); cbn [bind]; [discriminate|]. now intros [= <-].
  - now intros [= <-].
Qed.

Lemma getAddress_argument {crypto : Crypto} (v : Nullable string) (e : Error) :
  getAddress v = Err e -> argument e = "address".
Proof.
  unfold getAddress. destruct v as [| |s]; try (intros [= <-]; reflexivity).
  destruct (address_digits s); [|intros [= <-]; reflexivity].
  unfold assertArgument. destruct (_ || _); cbn [bind]; [discriminate|].
  intros [= <-]. reflexivity.
Qed.

Lemma handleAddress_error {crypto : Crypto} (r : RlpItem) (e : Error) :
  handleAddress r = Err e -> argument e = "address".
Proof.
  unfold handleAddress. destruct r as [[|x b]|l]; try discriminate.
  - destruct (getAddress _) eqn:E; cbn [bind]; [discriminate|].
    intros [= <-]. eapply getAddress_argument; eauto.
  - now intros [= <-].
Qed.

Lemma hexlify_item_error (r : RlpItem) (e : Error) :
  hexlify_item r = Err e -> argument e = "value".
Proof. destruct r; [discriminate|]. now intros [= <-]. Qed.

Lemma handleAccessList_error {crypto : Crypto} (r : RlpItem) (param : string) (e : Error) :
  handleAccessList r param = Err e -> argument e = param.
Proof.
  unfold handleAccessList.
  destruct (match r with RList sets => _ | RBytes _ => _ end); [discriminate|].
  now intros [= <-].
Qed.

Lemma eipSignature_error {crypto : Crypto} (fields : list RlpItem) (e : Error) :
  eipSignature fields = Err e -> argument e <> "data".
Proof.
  unfold eipSignature.
  destruct (handleNumber _ "yParity") as [y|e'].
  - destruct ((y =? 0) || (y =? 1)); cbn [bind].
    + unfold zeroPadValue.
      destruct (hexlify_item (nth 1 fields _)) eqn:E1; cbn [bind];
        [|intros [= <-]; apply hexlify_item_error in E1; rewrite E1; discriminate].
      unfold assert. destruct (Nat.leb _ _); cbn [bind]; [|intros [= <-]; discriminate].
      destruct (hexlify_item (nth 2 fields _)) eqn:E2; cbn [bind];
        [|intros [= <-]; apply hexlify_item_error in E2; rewrite E2; discriminate].
      destruct (Nat.leb _ _); cbn [bind]; [|intros [= <-]; discriminate].
      unfold Signature_from, assertArgument.
      destruct (acceptable_signature _ _ _); cbn [bind]; [discriminate|].
      intros [= <-]. discriminate.
    + intros [= <-]. discriminate.
  - cbn [bind]. intros [= <-]. discriminate.
Qed.

(** Apart from the shape check, no step of the parser raises the
    field-count error. *)
Lemma parse_common_field_count {crypto : Crypto} (data : bytes) :
  parse_common data = Err (field_count_error data)
  <-> exists decoded,
        decodeRlp (skipn 1 data) = Ok decoded /\ well_shaped decoded = false.
Proof.
  unfold parse_common. split.
  - destruct (decodeRlp (skipn 1 data)) as [decoded|e] eqn:Ed; cbn [bind].
    + destruct (well_shaped decoded) eqn:Es; [|eauto].
      cbn [assertArgument bind]. intros Hp. exfalso.
      assert (Hother : other_error (field_count_error data)).
      { revert Hp.
        set (fields := match decoded with RList l => l | RBytes _ => [] end).
        repeat match goal with
               | |- bind (handleUint ?r ?p) _ = Err _ -> _ =>
                   let E := fresh "E" in
                   destruct (handleUint r p) eqn:E; cbn [bind];
                   [|intros [= <-]; apply handleUint_error in E; left; rewrite E; discriminate]
               | |- bind (handleNumber ?r ?p) _ = Err _ -> _ =>
                   let E := fresh "E" in
                   destruct (handleNumber r p) eqn:E; cbn [bind];
                   [|intros [= <-]; apply handleNumber_error in E; left; rewrite E; discriminate]
               | |- bind (handleAddress ?r) _ = Err _ -> _ =>
                   let E := fresh "E" in
                   destruct (handleAddress r) eqn:E; cbn [bind];
                   [|intros [= <-]; apply handleAddress_error in E; left; rewrite E; discriminate]
               | |- bind (hexlify_item ?r) _ = Err _ -> _ =>
                   let E := fresh "E" in
                   destruct (hexlify_item r) eqn:E; cbn [bind];
                   [|intros [= <-]; apply hexlify_item_error in E; left; rewrite E; discriminate]
               | |- bind (handleAccessList ?r ?p) _ = Err _ -> _ =>
                   let E := fresh "E" in
                   destruct (handleAccessList r p) eqn:E; cbn [bind];
                   [|intros [= <-]; apply handleAccessList_error in E; left; rewrite E; discriminate]
               end.
        destruct (Nat.eqb _ 10); [discriminate|].
        unfold parseEipSignature.
        destruct (eipSignature _) eqn:Esig; cbn [bind]; [discriminate|].
        intros [= <-]. left. eapply eipSignature_error; eauto. }
      now apply (other_error_neq _ data) in Hother.
    + intros [= ->]. apply decodeRlp_error in Ed.
      now apply (other_error_neq _ data) in Ed.
  - intros (decoded & -> & Hs). cbn [bind]. rewrite Hs. reflexivity.
Qed.

Lemma Celo_parse_error {crypto : Crypto} (data : bytes) (e : Error) :
  Celo.parseCip64 data = Err e <-> parse_common data = Err e.
Proof.
  rewrite Celo_parse_common. destruct (parse_common data); cbn [bind]; split; congruence.
Qed.

Lemma Plugin_parse_error {crypto : Crypto} (data : bytes) (e : Error) :
  Plugin.parseCip64 data = Err e <-> parse_common data = Err e.
Proof.
  rewrite Plugin_parse_common. destruct (parse_common data); cbn [bind]; split; congruence.
Qed.

(** C4. The parser fails with the "invalid field count" argument error,
    which carries the raw bytes in hex, if and only if the payload decodes
    to something that is not a list of exactly ten or exactly thirteen
    elements; so lists of nine, eleven or fourteen elements are rejected
    with it, and lists of ten or thirteen pass the check.  Both
    variants. *)
Theorem field_count_check {crypto : Crypto} (data : bytes) :
  (Celo.parseCip64 data = Err (field_count_error data)
   <-> exists decoded,
         decodeRlp (skipn 1 data) = Ok decoded /\ well_shaped decoded = false)
  /\ (Plugin.parseCip64 data = Err (field_count_error data)
      <-> exists decoded,
            decodeRlp (skipn 1 data) = Ok decoded /\ well_shaped decoded = false)
  /\ (forall l,
        decodeRlp (skipn 1 data) = Ok (RList l) ->
        length l = 9%nat \/ length l = 11%nat \/ length l = 14%nat ->
        Celo.parseCip64 data = Err (field_count_error data)
        /\ Plugin.parseCip64 data = Err (field_count_error data))
  /\ (forall l,
        decodeRlp (skipn 1 data) = Ok (RList l) ->
        length l = 10%nat \/ length l = 13%nat ->
        Celo.parseCip64 data <> Err (field_count_error data)
        /\ Plugin.parseCip64 data <> Err (field_count_error data)).
Proof.
  split; [|split; [|split]].
  - rewrite Celo_parse_error. apply parse_common_field_count.
  - rewrite Plugin_parse_error. apply parse_common_field_count.
  - intros l Hd Hlen.
    rewrite Celo_parse_error, Plugin_parse_error.
    assert (parse_common data = Err (field_count_error data)); [|auto].
    apply parse_common_field_count. exists (RList l). split; [exact Hd|].
    unfold well_shaped. destruct Hlen as [Hl | [Hl | Hl]]; rewrite Hl; reflexivity.
  - intros l Hd Hlen.
    rewrite Celo_parse_error, Plugin_parse_error.
    assert (parse_common data <> Err (field_count_error data)); [|auto].
    intros Hp. apply parse_common_field_count in Hp as (decoded & Hd' & Hs).
    rewrite Hd in Hd'. injection Hd' as <-. unfold well_shaped in Hs.
    destruct Hlen as [Hl | Hl]; rewrite Hl in Hs; discriminate Hs.
Qed.

Lemma field_count_check_witness :
  decodeRlp (skipn 1 (sample_payload 9)) = Ok (RList (sample_elements 9))
  /\ @Celo.parseCip64 sample_crypto (sample_payload 9)
     = Err (field_count_error (sample_payload 9))
  /\ @Plugin.parseCip64 sample_crypto (sample_payload 9)
     = Err (field_count_error (sample_payload 9)).
Proof.
  split; [vm_compute; reflexivity|].
  apply (proj1 (proj2 (proj2 (@field_count_check sample_crypto (sample_payload 9))))
           (sample_elements 9)).
  - vm_compute. reflexivity.
  - left. reflexivity.
Defined.

(** Nine, eleven and fourteen elements are rejected, ten and thirteen
    parse. *)
Example field_count_samples :
  @Celo.parseCip64 sample_crypto (sample_payload 11)
  = Err (field_count_error (sample_payload 11))
  /\ @Celo.parseCip64 sample_crypto (sample_payload 14)
     = Err (field_count_error (sample_payload 14))
  /\ is_ok (@Celo.parseCip64 sample_crypto (sample_payload 10)) = true
  /\ is_ok (@Celo.parseCip64 sample_crypto (sample_payload 13)) = true
  /\ is_ok (@Plugin.parseCip64 sample_crypto (sample_payload 10)) = true
  /\ is_ok (@Plugin.parseCip64 sample_crypto (sample_payload 13)) = true.
Proof. repeat split; vm_compute; reflexivity. Qed.




Lemma is_ok_inv {A : Type} (r : Result A) : is_ok r = true -> exists a, r = Ok a.
Proof. destruct r; [eauto|discriminate]. Qed.

(** The parser on a payload whose elements decode. *)
Lemma parse_common_intro {crypto : Crypto} (data : bytes) (l : list RlpItem)
  (fee : option string) :
  decodeRlp (skipn 1 data) = Ok (RList l) ->
  length l = 10%nat \/ length l = 13%nat ->
  other_fields_decode l = true ->
  handleAddress (nth 9 l (RBytes [])) = Ok fee ->
  (length l = 13%nat -> is_ok (eipSignature (skipn 10 l)) = true) ->
  exists tx, parse_common data = Ok (tx, fee).
Proof.
  intros Hd Hlen Hother Hfee Hsig. unfold parse_common. rewrite Hd. cbn [bind].
  assert (Hshape : well_shaped (RList l) = true).
  { unfold well_shaped. destruct Hlen as [Hl | Hl]; rewrite Hl; reflexivity. }
  rewrite Hshape. cbn [assertArgument bind].
  unfold other_fields_decode in Hother.
  repeat (apply andb_prop in Hother as [Hother ?]).
  repeat match goal with
         | Hok : is_ok _ = true |- _ =>
             let v := fresh "v" in
             let E := fresh "E" in
             apply is_ok_inv in Hok as [v E]; rewrite E
         end.
  cbn [bind]. rewrite Hfee. cbn [bind].
  destruct Hlen as [Hl | Hl]; rewrite Hl.
  - cbn [Nat.eqb]. eauto.
  - cbn [Nat.eqb]. unfold parseEipSignature.
    destruct (is_ok_inv _ (Hsig Hl)) as [sig ->]. cbn [bind]. eauto.
Qed.

(** C9. A payload of ten or thirteen elements whose element 9, the fee
    currency, is the empty byte sequence is accepted whenever its other
    elements decode: the standalone parser returns it with the fee
    currency absent ([undefined]), the plugin's with the fee currency
    [null]. *)
Theorem parse_accepts_empty_feeCurrency {crypto : Crypto} (data : bytes)
  (l : list RlpItem) :
  decodeRlp (skipn 1 data) = Ok (RList l) ->
  length l = 10%nat \/ length l = 13%nat ->
  nth 9 l (RBytes []) = RBytes [] ->
  other_fields_decode l = true ->
  (length l = 13%nat -> is_ok (eipSignature (skipn 10 l)) = true) ->
  exists tx,
    Celo.parseCip64 data = Ok (Celo.mkCeloTransactionLike tx JsUndefined)
    /\ Plugin.parseCip64 data
       = Ok (Plugin.mkPluginTransactionLike tx (Some (Plugin.mkCeloCustomData JsNull))).
Proof.
  intros Hd Hlen Hempty Hother Hsig.
  destruct (parse_common_intro data l None Hd Hlen Hother) as [tx Hp]; auto.
  { rewrite Hempty. reflexivity. }
  exists tx. rewrite Celo_parse_common, Plugin_parse_common, Hp. split; reflexivity.
Qed.

Lemma parse_accepts_empty_feeCurrency_witness :
  decodeRlp (skipn 1 (sample_payload 13)) = Ok (RList (sample_elements 13))
  /\ nth 9 (sample_elements 13) (RBytes []) = RBytes []
  /\ exists tx,
       @Celo.parseCip64 sample_crypto (sample_payload 13)
       = Ok (Celo.mkCeloTransactionLike tx JsUndefined)
       /\ @Plugin.parseCip64 sample_crypto (sample_payload 13)
          = Ok (Plugin.mkPluginTransactionLike tx (Some (Plugin.mkCeloCustomData JsNull))).
Proof.
  split; [vm_compute; reflexivity|]. split; [reflexivity|].
  apply (@parse_accepts_empty_feeCurrency sample_crypto (sample_payload 13)
           (sample_elements 13)).
  - vm_compute. reflexivity.
  - right. reflexivity.
  - reflexivity.
  - vm_compute. reflexivity.
  - intros _. vm_compute. reflexivity.
Defined.

(** ** The two variants *)

(** A normalized address is never the empty string. *)
Lemma handleAddress_truthy {crypto : Crypto} (r : RlpItem) (a : string) :
  handleAddress r = Ok (Some a) -> or_undefined (Some a) = JsVal a.
Proof.
  unfold handleAddress. destruct r as [[|x b]|l]; try discriminate.
  destruct (getAddress _) as [a'|] eqn:E; cbn [bind]; [|discriminate].
  intros [= <-]. apply getAddress_inv in E as (s & d & _ & _ & ->). reflexivity.
Qed.

(** The values themselves: on the payload of ten empty elements the
    standalone parser returns the fee currency [undefined], the plugin's
    returns it [null]; both say that there is none. *)
Lemma parsers_differ_on_empty_feeCurrency :
  exists c p cd,
    @Celo.parseCip64 sample_crypto (sample_payload 10) = Ok c
    /\ @Plugin.parseCip64 sample_crypto (sample_payload 10) = Ok p
    /\ Plugin.customData p = Some cd
    /\ Celo.tl_feeCurrency c <> Plugin.cd_feeCurrency cd
    /\ present (Celo.tl_feeCurrency c) = present (Plugin.cd_feeCurrency cd).
Proof.
  eexists _, _, _. split; [vm_compute; reflexivity|].
  split; [vm_compute; reflexivity|]. split; [reflexivity|].
  split; [discriminate|reflexivity].
Qed.

(** What the common part returns is what both parsers return. *)
Lemma parse_common_fee {crypto : Crypto} (raw : bytes) (tx : TransactionLike)
  (fee : option string) :
  parse_common raw = Ok (tx, fee) ->
  forall a, fee = Some a -> or_undefined fee = JsVal a.
Proof.
  intros Ep a ->. unfold parse_common in Ep.
  bind_ok Ep as decoded Ed. bind_ok Ep as u Es.
  bind_ok Ep as mp E2. bind_ok Ep as mf E3. bind_ok Ep as ch E0. bind_ok Ep as n E1.
  bind_ok Ep as g E4. bind_ok Ep as t E5. bind_ok Ep as v E6. bind_ok Ep as d E7.
  bind_ok Ep as al E8. bind_ok Ep as fc E9.
  assert (fc = Some a) as ->.
  { destruct (Nat.eqb _ 10); [congruence|].
    destruct (parseEipSignature _ _); cbn [bind] in Ep; congruence. }
  eapply handleAddress_truthy. exact E9.
Qed.

(** C7. The two classes serialize alike: the same result, byte for byte
    or error for error, for the same fields, fee currency and optional
    signature, and a failure for both when the fee currency was never
    set.  The two parsers fail with the same error on the same payloads,
    and where one succeeds so does the other, with the same chainId,
    nonce, fee fields, gasLimit, to, value, data, accessList, hash and
    signature (the same generic field set) and the same fee currency: the
    same address, or none in both, which the standalone parser returns as
    [undefined] and the plugin's as [null]. *)
Theorem variants_agree {crypto : Crypto} :
  (forall t fee signature,
     Celo.serialize (Celo.mkCip64Transaction t fee) signature
     = Plugin.serialize (Plugin.mkCip64Transaction t (JsVal fee)) signature)
  /\ (forall t signature,
        is_ok (Celo.serialize (Celo.mkCip64Transaction t "") signature) = false
        /\ is_ok (Plugin.serialize (Plugin.mkCip64Transaction t JsUndefined) signature)
           = false)
  /\ (forall data e, Celo.parseCip64 data = Err e <-> Plugin.parseCip64 data = Err e)
  /\ (forall data c,
        Celo.parseCip64 data = Ok c ->
        exists fee,
          Plugin.parseCip64 data
          = Ok (Plugin.mkPluginTransactionLike (Celo.base c)
                  (Some (Plugin.mkCeloCustomData fee)))
          /\ present fee = present (Celo.tl_feeCurrency c)
          /\ ((exists a, Celo.tl_feeCurrency c = JsVal a /\ fee = JsVal a)
              \/ (Celo.tl_feeCurrency c = JsUndefined /\ fee = JsNull)))
  /\ (forall data p,
        Plugin.parseCip64 data = Ok p ->
        exists c cd,
          Celo.parseCip64 data = Ok c
          /\ Celo.base c = Plugin.base p
          /\ Plugin.customData p = Some cd
          /\ present (Celo.tl_feeCurrency c) = present (Plugin.cd_feeCurrency cd)).
Proof.
  split; [|split; [|split; [|split]]].
  - intros t fee signature. apply serialize_variants.
  - intros t signature.
    assert (Hnone : forall fc, getAddress fc = Err (invalid_address fc) ->
              is_ok (Plugin.serialize (Plugin.mkCip64Transaction t fc) signature) = false).
    { intros fc Hfc.
      destruct (Plugin.serialize _ signature) as [out|e] eqn:E; [|reflexivity].
      apply Plugin_serialize_feeCurrency in E as [a Ha].
      cbn [Plugin.feeCurrency] in Ha. congruence. }
    split; [rewrite serialize_variants|]; now apply Hnone.
  - intros data e. now rewrite Celo_parse_error, Plugin_parse_error.
  - intros data c Hc. rewrite Celo_parse_common in Hc. rewrite Plugin_parse_common.
    destruct (parse_common data) as [[tx fee]|] eqn:Ep; [|discriminate].
    cbn [bind fst snd] in *. injection Hc as <-. cbn [Celo.base Celo.tl_feeCurrency].
    exists (or_null fee). split; [reflexivity|].
    destruct fee as [a|].
    + rewrite (parse_common_fee _ _ _ Ep a eq_refl). split; [reflexivity|].
      left. exists a. split; reflexivity.
    + split; [reflexivity|]. right. split; reflexivity.
  - intros data p Hp. rewrite Plugin_parse_common in Hp. rewrite Celo_parse_common.
    destruct (parse_common data) as [[tx fee]|] eqn:Ep; [|discriminate].
    cbn [bind fst snd] in *. injection Hp as <-.
    cbn [Plugin.base Plugin.customData].
    eexists _, _. split; [reflexivity|]. split; [reflexivity|]. split; [reflexivity|].
    cbn [Celo.tl_feeCurrency Plugin.cd_feeCurrency].
    destruct fee as [a|]; [|reflexivity].
    now rewrite (parse_common_fee _ _ _ Ep a eq_refl).
Qed.

Lemma variants_agree_witness :
  (exists c,
     @Celo.parseCip64 sample_crypto sample_unsigned_payload = Ok c
     /\ @Plugin.parseCip64 sample_crypto sample_unsigned_payload
        = Ok (Plugin.mkPluginTransactionLike (Celo.base c)
                (Some (Plugin.mkCeloCustomData (JsVal sample_feeCurrency)))))
  /\ (exists c fee,
        @Celo.parseCip64 sample_crypto (sample_payload 13) = Ok c
        /\ @Plugin.parseCip64 sample_crypto (sample_payload 13)
           = Ok (Plugin.mkPluginTransactionLike (Celo.base c)
                   (Some (Plugin.mkCeloCustomData fee)))
        /\ present fee = None /\ present (Celo.tl_feeCurrency c) = None).
Proof.
  split.
  - destruct (@Celo.parseCip64 sample_crypto sample_unsigned_payload) as [c|] eqn:Ec;
      [|vm_compute in Ec; discriminate Ec].
    exists c. split; [reflexivity|].
    destruct (proj1 (proj2 (proj2 (proj2 (@variants_agree sample_crypto))))
                sample_unsigned_payload c Ec) as (fee & Hp & _ & Hfee).
    rewrite Hp. vm_compute in Ec. injection Ec as <-.
    destruct Hfee as [(a & Ha & ->) | (Hu & _)].
    + cbn in Ha. injection Ha as <-. reflexivity.
    + discriminate Hu.
  - destruct (@Celo.parseCip64 sample_crypto (sample_payload 13)) as [c|] eqn:Ec;
      [|vm_compute in Ec; discriminate Ec].
    destruct (proj1 (proj2 (proj2 (proj2 (@variants_agree sample_crypto))))
                (sample_payload 13) c Ec) as (fee & Hp & Hpres & _).
    exists c, fee. split; [reflexivity|]. split; [exact Hp|].
    vm_compute in Ec. injection Ec as <-. split; [rewrite Hpres|]; reflexivity.
Defined.

(** ** The gas-estimation rewrite *)

Lemma truthy_inv (v : Nullable string) :
  truthy v = true <-> exists s, v = JsVal s /\ s <> "".
Proof.
  destruct v as [| |s]; cbn [truthy].
  - split; [discriminate|]. intros (s & Hs & _). discriminate Hs.
  - split; [discriminate|]. intros (s & Hs & _). discriminate Hs.
  - rewrite negb_true_iff. split.
    + intros Hne. exists s. split; [reflexivity|]. now apply String.eqb_neq.
    + intros (s' & [= <-] & Hne). now apply String.eqb_neq.
Qed.

(** What an assignment to a property changes in the store. *)
Lemma set_property_frame (σ σ' : Store) (target : option JsValue) (key : string)
  (v : JsValue) :
  set_property σ target key v = Ok σ' ->
  exists l obj,
    target = Some (VRef l) /\ σ !! l = Some obj /\ accepts obj key = true
    /\ σ' = <[l := with_property obj key v]> σ.
Proof.
  unfold set_property. destruct target as [[| | | |l]|]; try discriminate.
  destruct (σ !! l) as [obj|] eqn:E; [|discriminate].
  destruct (accepts obj key) eqn:Ea; [|discriminate].
  intros [= <-]. eauto 6.
Qed.

Lemma set_property_intro (σ : Store) (l : loc) (obj : JsObject) (key : string)
  (v : JsValue) :
  σ !! l = Some obj -> accepts obj key = true ->
  set_property σ (Some (VRef l)) key v = Ok (<[l := with_property obj key v]> σ).
Proof. intros Hobj Ha. unfold set_property. now rewrite Hobj, Ha. Qed.

(** C8. The rewrite returns the request it was given.  When the request
    and the action are the gas estimation and the transaction declares a
    fee currency, the object that is the first argument of the returned
    request has gained the property [feeCurrency] with that value, its
    other properties being as they were; in every other case the request
    and every object are as they were.  No object other than that first
    argument is ever changed.  (The first argument is an object that takes
    the assignment; the update is made in place.)  Both variants. *)
Theorem rpc_rewrite (σ : Store) (request : JsonRpcRequestBody) :
  (forall context : Plugin.PerformActionRequest,
     let fee := Plugin.customData_feeCurrency
                  (Plugin.req_customData (Plugin.ctx_transaction context)) in
     (forall fc l obj,
        gas_estimation_with_fee (method request) (Plugin.ctx_method context) fee fc ->
        nth_error (args request) 0 = Some (VRef l) -> σ !! l = Some obj ->
        accepts obj "feeCurrency" = true ->
        exists obj',
          Plugin.intercept σ request context = Ok (<[l := obj']> σ, request)
          /\ properties obj' !! "feeCurrency" = Some (VString fc)
          /\ (forall key, key <> "feeCurrency" ->
                          properties obj' !! key = properties obj !! key)
          /\ integrity obj' = integrity obj)
     /\ ((forall fc, ~ gas_estimation_with_fee (method request)
                         (Plugin.ctx_method context) fee fc) ->
         Plugin.intercept σ request context = Ok (σ, request))
     /\ (forall σ' request',
           Plugin.intercept σ request context = Ok (σ', request') ->
           request' = request
           /\ forall l, nth_error (args request) 0 <> Some (VRef l) ->
                        σ' !! l = σ !! l))
  /\ (forall context : Celo.PerformActionRequest,
        let fee := Celo.req_feeCurrency (Celo.ctx_transaction context) in
        (forall fc l obj,
           gas_estimation_with_fee (method request) (Celo.ctx_method context) fee fc ->
           nth_error (args request) 0 = Some (VRef l) -> σ !! l = Some obj ->
           accepts obj "feeCurrency" = true ->
           exists obj',
             Celo.getRpcRequest σ (Some request) context
             = Ok (<[l := obj']> σ, Some request)
             /\ properties obj' !! "feeCurrency" = Some (VString fc)
             /\ (forall key, key <> "feeCurrency" ->
                             properties obj' !! key = properties obj !! key)
             /\ integrity obj' = integrity obj)
        /\ ((forall fc, ~ gas_estimation_with_fee (method request)
                            (Celo.ctx_method context) fee fc) ->
            Celo.getRpcRequest σ (Some request) context = Ok (σ, Some request))
        /\ Celo.getRpcRequest σ None context = Ok (σ, None)
        /\ (forall σ' request',
              Celo.getRpcRequest σ (Some request) context = Ok (σ', request') ->
              request' = Some request
              /\ forall l, nth_error (args request) 0 <> Some (VRef l) ->
                           σ' !! l = σ !! l)).
Proof.
  assert (Hobj : forall obj fc,
             properties (with_property obj "feeCurrency" (VString fc)) !! "feeCurrency"
             = Some (VString fc)
             /\ (forall key, key <> "feeCurrency" ->
                   properties (with_property obj "feeCurrency" (VString fc)) !! key
                   = properties obj !! key)
             /\ integrity (with_property obj "feeCurrency" (VString fc)) = integrity obj).
  { intros obj fc. cbn [with_property properties integrity].
    split; [apply lookup_insert_eq|]. split; [|reflexivity].
    intros key Hk. apply lookup_insert_ne. congruence. }
  split.
  - intros context fee. split; [|split].
    + intros fc l obj (Hm & Ha & Hfee & Hne) Harg Hl Hacc.
      exists (with_property obj "feeCurrency" (VString fc)). split; [|apply Hobj].
      unfold Plugin.intercept. rewrite Hm, Ha.
      rewrite !String.eqb_refl. cbn [andb].
      subst fee. destruct (Plugin.req_customData _) as [cd|]; [|discriminate Hfee].
      cbn [Plugin.declares_feeCurrency Plugin.customData_feeCurrency] in *.
      rewrite Hfee. replace (truthy (JsVal fc)) with true
        by (symmetry; apply truthy_inv; eauto).
      rewrite Harg. cbn [js_of_nullable].
      rewrite (set_property_intro σ l obj _ _ Hl Hacc). reflexivity.
    + intros Hgate. unfold Plugin.intercept.
      destruct (String.eqb (method request) "eth_estimateGas") eqn:Em; [|reflexivity].
      destruct (String.eqb (Plugin.ctx_method context) "estimateGas") eqn:Ea;
        [|reflexivity].
      destruct (Plugin.declares_feeCurrency _) eqn:Ed; [|reflexivity].
      exfalso. apply String.eqb_eq in Em, Ea.
      subst fee. destruct (Plugin.req_customData _) as [cd|]; [|discriminate].
      cbn [Plugin.declares_feeCurrency Plugin.customData_feeCurrency] in *.
      apply truthy_inv in Ed as (s & Hs & Hne).
      apply (Hgate s). repeat split; auto.
    + intros σ' request' Hi. unfold Plugin.intercept in Hi.
      destruct (_ && _) in Hi.
      * destruct (set_property _ _ _ _) as [σ''|] eqn:Es; [|discriminate].
        injection Hi as <- <-. split; [reflexivity|].
        apply set_property_frame in Es as (l0 & obj & Harg & Hl & _ & ->).
        intros l Hne. rewrite lookup_insert_ne; [reflexivity|]. congruence.
      * injection Hi as <- <-. auto.
  - intros context fee. split; [|split; [|split]].
    + intros fc l obj (Hm & Ha & Hfee & Hne) Harg Hl Hacc.
      exists (with_property obj "feeCurrency" (VString fc)). split; [|apply Hobj].
      unfold Celo.getRpcRequest. rewrite Hm, Ha.
      rewrite !String.eqb_refl. cbn [andb].
      subst fee. rewrite Hfee. replace (truthy (JsVal fc)) with true
        by (symmetry; apply truthy_inv; eauto).
      rewrite Harg. cbn [js_of_nullable].
      rewrite (set_property_intro σ l obj _ _ Hl Hacc). reflexivity.
    + intros Hgate. unfold Celo.getRpcRequest.
      destruct (String.eqb (method request) "eth_estimateGas") eqn:Em; [|reflexivity].
      destruct (String.eqb (Celo.ctx_method context) "estimateGas") eqn:Ea;
        [|reflexivity].
      destruct (truthy _) eqn:Ed; [|reflexivity].
      exfalso. apply String.eqb_eq in Em, Ea.
      apply truthy_inv in Ed as (s & Hs & Hne).
      apply (Hgate s). repeat split; auto.
    + reflexivity.
    + intros σ' request' Hi. unfold Celo.getRpcRequest in Hi.
      destruct (_ && _) in Hi.
      * destruct (set_property _ _ _ _) as [σ''|] eqn:Es; [|discriminate].
        injection Hi as <- <-. split; [reflexivity|].
        apply set_property_frame in Es as (l0 & obj & Harg & Hl & _ & ->).
        intros l Hne. rewrite lookup_insert_ne; [reflexivity|]. congruence.
      * injection Hi as <- <-. auto.
Qed.

Lemma rpc_rewrite_witness :
  (exists obj',
     Plugin.intercept sample_store sample_request sample_plugin_context
     = Ok (<[1%positive := obj']> sample_store, sample_request)
     /\ properties obj' !! "feeCurrency" = Some (VString sample_feeCurrency)
     /\ properties obj' !! "from" = Some (VString "0xabc"))
  /\ Celo.getRpcRequest sample_store (Some (mkRequest "eth_call" [VRef 1%positive]))
       sample_celo_context
     = Ok (sample_store, Some (mkRequest "eth_call" [VRef 1%positive])).
Proof.
  split.
  - destruct (proj1 (proj1 (rpc_rewrite sample_store sample_request)
                       sample_plugin_context)
                sample_feeCurrency 1%positive sample_object)
      as (obj' & Hi & Hfee & Hother & _).
    + repeat split. discriminate.
    + reflexivity.
    + reflexivity.
    + reflexivity.
    + exists obj'. split; [exact Hi|]. split; [exact Hfee|].
      rewrite Hother by discriminate. reflexivity.
  - apply (proj1 (proj2 (proj2 (rpc_rewrite sample_store
                                  (mkRequest "eth_call" [VRef 1%positive]))
                           sample_celo_context))).
    intros fc (Hm & _). discriminate Hm.
Defined.

(** ** Construction in the plugin *)

(** C10. In the plugin, [create] on an object of type 123 whose
    [customData] is present but has no fee currency enters the CIP-64
    branch, where assigning the missing fee currency fails in the address
    normalizer: the result is the invalid-address error, not a
    transaction and not the generic constructor. *)
Theorem create_rejects_missing_feeCurrency {crypto : Crypto}
  {generic : Generic Plugin.PluginTransactionLike} (from : TransactionLike) :
  tl_type from = Some CIP_64_TYPE_NUMBER ->
  Plugin.create
    (Plugin.FromObject
       (Plugin.mkPluginTransactionLike from (Some (Plugin.mkCeloCustomData JsUndefined))))
  = Err (invalid_address JsUndefined).
Proof.
  intros Hty. cbn [Plugin.create]. unfold Plugin.createFromObject.
  cbn [Plugin.base Plugin.customData]. rewrite Hty. reflexivity.
Qed.

Lemma create_rejects_missing_feeCurrency_witness :
  tl_type sample_like = Some CIP_64_TYPE_NUMBER
  /\ @Plugin.create sample_crypto sample_plugin_generic
       (Plugin.FromObject
          (Plugin.mkPluginTransactionLike sample_like
             (Some (Plugin.mkCeloCustomData JsUndefined))))
     = Err (invalid_address JsUndefined).
Proof.
  split; [reflexivity|].
  apply (@create_rejects_missing_feeCurrency sample_crypto sample_plugin_generic
           sample_like). reflexivity.
Defined.

(** ** Round trip *)

Lemma be_value_bound (b : bytes) : 0 <= be_value b < 256 ^ Z.of_nat (length b).
Proof.
  induction b as [|x b IH].
  - unfold be_value. simpl. lia.
  - rewrite be_value_cons. pose proof (Z_of_byte_range x) as Hx.
    simpl length. rewrite Nat2Z.inj_succ, Z.pow_succ_r by lia. nia.
Qed.

Lemma formatNumber_success (v : Z) (name : string) :
  0 <= v <= BN_MAX_UINT -> formatNumber v name = Ok (be_bytes v).
Proof.
  intros Hv. unfold formatNumber, toBeArray, assert.
  replace (0 <=? v) with true by (symmetry; apply Z.leb_le; lia). cbn [bind].
  assert (Hlen : (length (be_bytes v) <= 32)%nat).
  { apply be_bytes_length. unfold BN_MAX_UINT in Hv.
    change (256 ^ Z.of_nat 32) with (2 ^ 256). lia. }
  apply Nat.leb_le in Hlen. rewrite Hlen. reflexivity.
Qed.

Lemma handleUint_be_bytes (v : Z) (param : string) :
  0 <= v <= BN_MAX_UINT -> handleUint (RBytes (be_bytes v)) param = Ok v.
Proof.
  intros Hv. pose proof (be_value_be_bytes v ltac:(lia)) as Hval.
  unfold handleUint. destruct (be_bytes v) as [|x b] eqn:E.
  - unfold be_value in Hval. simpl in Hval. now subst.
  - rewrite Hval. unfold assertArgument.
    replace (v <=? BN_MAX_UINT) with true by (symmetry; apply Z.leb_le; lia).
    reflexivity.
Qed.

Lemma handleNumber_be_bytes (v : Z) (param : string) :
  0 <= v <= MAX_SAFE_INTEGER -> handleNumber (RBytes (be_bytes v)) param = Ok v.
Proof.
  intros Hv. pose proof (be_value_be_bytes v ltac:(lia)) as Hval.
  unfold handleNumber. destruct (be_bytes v) as [|x b] eqn:E.
  - unfold be_value in Hval. simpl in Hval. now subst.
  - rewrite Hval. unfold assertArgument.
    replace (v <=? MAX_SAFE_INTEGER) with true by (symmetry; apply Z.leb_le; lia).
    reflexivity.
Qed.

Lemma mapM_fixed {A : Type} (f : A -> Result A) (l : list A) :
  mapM f l = Ok l -> Forall (fun x => f x = Ok x) l.
Proof.
  induction l as [|x l IH]; intros Hm; constructor.
  - cbn [mapM] in Hm. destruct (f x) as [y|]; cbn [bind] in Hm; [|discriminate].
    destruct (mapM f l); cbn [bind] in Hm; [|discriminate]. congruence.
  - apply IH. cbn [mapM] in Hm. destruct (f x) as [y|]; cbn [bind] in Hm; [|discriminate].
    destruct (mapM f l); cbn [bind] in Hm; [|discriminate]. congruence.
Qed.

Lemma slots_roundtrip (keys : list bytes) :
  forall index, check_slots index keys = Ok keys ->
    mapM slot_of_item (map RBytes keys) = Ok keys.
Proof.
  induction keys as [|k keys IH]; intros index Hc; [reflexivity|].
  cbn [check_slots] in Hc. cbn [map mapM slot_of_item].
  unfold assertArgument in *.
  destruct (Nat.eqb (length k) 32); cbn [bind] in *; [|discriminate].
  destruct (check_slots (S index) keys) as [ks|] eqn:E; cbn [bind] in Hc; [|discriminate].
  injection Hc as ->. rewrite (IH _ E). reflexivity.
Qed.

(** Reading back the elements of a validated access list. *)
Lemma handleAccessList_roundtrip {crypto : Crypto} (al : AccessList) (param : string) :
  accessListify al = Ok al ->
  handleAccessList (RList (map access_set_item al)) param = Ok al.
Proof.
  intros Hal. apply mapM_fixed in Hal.
  unfold handleAccessList.
  set (value := RList (map access_set_item al)).
  assert (Hsets : mapM (set_of_item value) (map access_set_item al) = Ok al).
  { clearbody value. induction Hal as [|x l Hx _ IH]; [reflexivity|].
    cbn [map mapM]. rewrite IH. clear IH.
    unfold accessSetify in Hx.
    destruct (getAddress (JsVal (address x))) as [a|] eqn:Ea; cbn [bind] in Hx;
      [|discriminate].
    destruct (check_slots 0 (storageKeys x)) as [ks|] eqn:Ek; cbn [bind] in Hx;
      [|discriminate].
    destruct x as [xa xk]. cbn [address storageKeys] in *.
    injection Hx as -> ->.
    cbn [access_set_item set_of_item address storageKeys].
    rewrite (getAddress_hexlify _ _ Ea). cbn [bind].
    rewrite (slots_roundtrip _ _ Ek). reflexivity. }
  subst value. cbn beta iota. rewrite Hsets. reflexivity.
Qed.

(** The round trip in general: whatever the serializer accepts comes
    back from the parser with the absent numbers as zero, absent data as
    the empty sequence and an absent access list as the empty list. *)
Lemma parse_unsignedSerialized_defaults {crypto : Crypto} (tx : Transaction)
  (fee : string) :
  0 <= or_zero (chainId tx) <= BN_MAX_UINT ->
  0 <= or_zero (nonce tx) <= MAX_SAFE_INTEGER ->
  0 <= or_zero (maxPriorityFeePerGas tx) <= BN_MAX_UINT ->
  0 <= or_zero (maxFeePerGas tx) <= BN_MAX_UINT ->
  0 <= or_zero (gasLimit tx) <= BN_MAX_UINT ->
  0 <= or_zero (value tx) <= BN_MAX_UINT ->
  (forall a, to tx = Some a -> getAddress (JsVal a) = Ok a) ->
  (forall al, accessList tx = Some al -> accessListify al = Ok al) ->
  getAddress (JsVal fee) = Ok fee ->
  exists out,
    Celo.unsignedSerialized (Celo.mkCip64Transaction tx fee) = Ok out
    /\ (Z.of_nat (length out) < 2 ^ 31 ->
        Celo.parseCip64 out
        = Ok (Celo.mkCeloTransactionLike
                (mkTransactionLike (Some CIP_64_TYPE_NUMBER)
                   (Some (or_zero (chainId tx))) (Some (or_zero (nonce tx)))
                   (Some (or_zero (maxPriorityFeePerGas tx)))
                   (Some (or_zero (maxFeePerGas tx))) None
                   (Some (or_zero (gasLimit tx))) (to tx) (Some (or_zero (value tx)))
                   (Some (match data tx with Some d => d | None => [] end))
                   (Some (match accessList tx with Some al => al | None => [] end))
                   None None)
                (JsVal fee))).
Proof.
  intros Hc Hn Hmp Hmf Hgl Hv Hto Hal Hfee.
  assert (Hn' : 0 <= or_zero (nonce tx) <= BN_MAX_UINT).
  { assert (MAX_SAFE_INTEGER <= BN_MAX_UINT) by (vm_compute; discriminate). lia. }
  assert (Hal' : accessListify (match accessList tx with Some al => al | None => [] end)
                 = Ok (match accessList tx with Some al => al | None => [] end)).
  { destruct (accessList tx) as [al|]; [now apply Hal|reflexivity]. }
  (* the serialization succeeds *)
  assert (Hser : exists out, Celo.unsignedSerialized (Celo.mkCip64Transaction tx fee) = Ok out).
  { unfold Celo.unsignedSerialized, Celo.serialize.
    cbn [Celo.fields Celo.feeCurrency].
    rewrite !formatNumber_success by assumption. cbn [bind].
    destruct (match to tx with Some a => _ | None => _ end) as [f_to|] eqn:Eto.
    2:{ destruct (to tx) as [a|]; [|discriminate]. rewrite (Hto a eq_refl) in Eto.
        discriminate. }
    cbn [bind].
    destruct (formatAccessList _) as [f_al|] eqn:Eal.
    2:{ unfold formatAccessList in Eal. rewrite Hal' in Eal. discriminate. }
    cbn [bind]. rewrite Hfee. cbn [bind].
    destruct (rlp_item_fields tx (JsVal fee)
                (be_bytes (or_zero (chainId tx))) (be_bytes (or_zero (nonce tx)))
                (be_bytes (or_zero (maxPriorityFeePerGas tx)))
                (be_bytes (or_zero (maxFeePerGas tx)))
                (be_bytes (or_zero (gasLimit tx))) (be_bytes (or_zero (value tx)))
                f_to f_al fee [] Eto Eal Hfee)
      as (fee' & _ & Hitem).
    cbn [map app] in Hitem.
    unfold encodeRlpInput. rewrite Hitem. cbn [bind]. eauto. }
  destruct Hser as [out Hout]. exists out. split; [exact Hout|].
  intros Hsize.
  (* its layout, and what the decoder reads *)
  pose proof (Celo_serialize_layout _ None out Hout) as Hlay.
  cbn [optional_signature_fields Celo.fields Celo.feeCurrency] in Hlay.
  rewrite app_nil_r in Hlay.
  assert (Hdec : decodeRlp (skipn 1 out) = Ok (RList (unsigned_fields tx fee))).
  { rewrite Hlay. unfold payload. cbn [skipn]. apply decodeRlp_encodeRlp.
    rewrite Hlay in Hsize. unfold payload in Hsize. cbn [length] in Hsize.
    rewrite Nat2Z.inj_succ in Hsize.
    assert (Hp : 2 ^ 31 <= 2 ^ 64) by (apply Z.pow_le_mono_r; lia). lia. }
  (* the fields, one by one *)
  assert (Hto' : handleAddress
                   (RBytes (match to tx with Some a => address_bytes a | None => [] end))
                 = Ok (to tx)).
  { destruct (to tx) as [a|]; [|reflexivity]. apply handleAddress_address. now apply Hto. }
  assert (Hlist : handleAccessList
                    (RList (match accessList tx with
                            | Some l => map access_set_item l
                            | None => []
                            end)) "accessList"
                  = Ok (match accessList tx with Some al => al | None => [] end)).
  { destruct (accessList tx) as [al|].
    - apply handleAccessList_roundtrip. now apply Hal.
    - reflexivity. }
  rewrite Celo_parse_common. unfold parse_common. rewrite Hdec. cbn [bind].
  unfold unsigned_fields, numeric_field.
  cbn [well_shaped length Nat.eqb orb assertArgument bind nth].
  fold (or_zero (chainId tx)) (or_zero (nonce tx)) (or_zero (maxPriorityFeePerGas tx))
       (or_zero (maxFeePerGas tx)) (or_zero (gasLimit tx)) (or_zero (value tx)).
  rewrite !handleUint_be_bytes by assumption. cbn [bind].
  rewrite handleNumber_be_bytes by assumption. cbn [bind].
  rewrite Hto'. cbn [bind hexlify_item].
  rewrite Hlist. cbn [bind].
  rewrite (handleAddress_address fee fee Hfee). cbn [bind fst snd].
  rewrite (handleAddress_truthy _ _ (handleAddress_address fee fee Hfee)).
  reflexivity.
Qed.

(** C2. A field set whose numbers are unsigned integers within their
    ranges, whose addresses (the optional recipient, those of the access
    list and the fee currency) are normalized and whose storage keys are
    32 bytes serializes, and parsing its unsigned serialization returns
    exactly that field set, of type 123, without gas price, hash or
    signature.  (The payload length is bounded as the length arithmetic
    of the list codec requires.) *)
Theorem parse_unsignedSerialized {crypto : Crypto}
  (c n mp mf gl v : Z) (gp : option Z) (t : option string) (d : bytes)
  (al : AccessList) (sig : option Signature) (fee : string) :
  0 <= c <= BN_MAX_UINT -> 0 <= n <= MAX_SAFE_INTEGER ->
  0 <= mp <= BN_MAX_UINT -> 0 <= mf <= BN_MAX_UINT ->
  0 <= gl <= BN_MAX_UINT -> 0 <= v <= BN_MAX_UINT ->
  (forall a, t = Some a -> getAddress (JsVal a) = Ok a) ->
  accessListify al = Ok al ->
  getAddress (JsVal fee) = Ok fee ->
  exists out,
    Celo.unsignedSerialized
      (Celo.mkCip64Transaction
         (mkTransaction (Some c) (Some n) (Some mp) (Some mf) gp (Some gl) t (Some v)
            (Some d) (Some al) sig) fee) = Ok out
    /\ (Z.of_nat (length out) < 2 ^ 31 ->
        Celo.parseCip64 out
        = Ok (Celo.mkCeloTransactionLike
                (mkTransactionLike (Some CIP_64_TYPE_NUMBER) (Some c) (Some n) (Some mp)
                   (Some mf) None (Some gl) t (Some v) (Some d) (Some al) None None)
                (JsVal fee))).
Proof.
  intros Hc Hn Hmp Hmf Hgl Hv Hto Hal Hfee.
  apply (parse_unsignedSerialized_defaults
           (mkTransaction (Some c) (Some n) (Some mp) (Some mf) gp (Some gl) t (Some v)
              (Some d) (Some al) sig) fee); cbn [chainId nonce maxPriorityFeePerGas
              maxFeePerGas gasLimit value to accessList or_zero]; try assumption.
  intros al' [= <-]. exact Hal.
Qed.

Lemma parse_unsignedSerialized_witness :
  @Celo.unsignedSerialized sample_crypto
    (Celo.mkCip64Transaction sample_rich_fields sample_feeCurrency)
  = Ok sample_rich_payload
  /\ @Celo.parseCip64 sample_crypto sample_rich_payload
     = Ok (Celo.mkCeloTransactionLike
             (mkTransactionLike (Some CIP_64_TYPE_NUMBER) (Some 44787) (Some 7)
                (Some 2000000000) (Some 5000000000) None (Some 21000)
                (Some sample_feeCurrency) (Some 1000000000000000000)
                (Some [xde; xad; xbe; xef]) (Some sample_access_list) None None)
             (JsVal sample_feeCurrency)).
Proof.
  destruct (@parse_unsignedSerialized sample_crypto 44787 7 2000000000 5000000000 21000
              1000000000000000000 None (Some sample_feeCurrency) [xde; xad; xbe; xef]
              sample_access_list None sample_feeCurrency)
    as (out & Hout & Hparse);
    try (split; discriminate); try reflexivity.
  - intros a [= <-]. reflexivity.
  - assert (out = sample_rich_payload) as ->.
    { vm_compute in Hout. injection Hout as <-. reflexivity. }
    split; [exact Hout|]. apply Hparse. vm_compute. reflexivity.
Defined.

(** * Further properties *)

(** ** When the serializer succeeds *)

Lemma formatNumber_range (v : Z) (name : string) (b : bytes) :
  formatNumber v name = Ok b -> 0 <= v <= BN_MAX_UINT.
Proof.
  unfold formatNumber. intros Hf. bind_ok Hf as r E.
  apply toBeArray_ok in E as [-> Hv].
  unfold assertArgument in Hf.
  destruct (Nat.leb (length (be_bytes v)) 32) eqn:El; cbn [bind] in Hf; [|discriminate].
  apply Nat.leb_le in El.
  pose proof (be_value_bound (be_bytes v)) as Hb.
  rewrite (be_value_be_bytes v Hv) in Hb.
  assert (256 ^ Z.of_nat (length (be_bytes v)) <= 256 ^ 32)
    by (apply Z.pow_le_mono_r; lia).
  change (256 ^ 32) with (2 ^ 256) in *. unfold BN_MAX_UINT. lia.
Qed.

Lemma is_ok_true {A : Type} (r : Result A) (a : A) : r = Ok a -> is_ok r = true.
Proof. now intros ->. Qed.

(** The serializer of the plugin's class, on any fee currency. *)
Lemma Plugin_serialize_succeeds {crypto : Crypto} (t : Transaction)
  (fc : Nullable string) (signature : option Signature) :
  is_ok (Plugin.serialize (Plugin.mkCip64Transaction t fc) signature) = true
  <-> serializable t fc /\ serializable_signature signature.
Proof.
  split.
  - intros Hok. apply is_ok_inv in Hok as [out Hs].
    unfold Plugin.serialize in Hs. cbn [Plugin.fields Plugin.feeCurrency] in Hs.
    bind_ok Hs as f_chainId E1. apply formatNumber_range in E1.
    bind_ok Hs as f_nonce E2. apply formatNumber_range in E2.
    bind_ok Hs as f_prio E3. apply formatNumber_range in E3.
    bind_ok Hs as f_fee E4. apply formatNumber_range in E4.
    bind_ok Hs as f_gas E5. apply formatNumber_range in E5.
    bind_ok Hs as f_to Eto.
    bind_ok Hs as f_value E6. apply formatNumber_range in E6.
    bind_ok Hs as f_al Eal.
    bind_ok Hs as f_cur Ecur.
    bind_ok Hs as elements Esig.
    split.
    + unfold serializable, uint256. repeat (split; [assumption|]).
      split; [|split].
      * intros a Ha. rewrite Ha in Eto.
        destruct (getAddress (JsVal a)); [reflexivity|discriminate].
      * intros al Hal. rewrite Hal in Eal. unfold formatAccessList in Eal.
        destruct (accessListify al); [reflexivity|discriminate].
      * now rewrite Ecur.
    + destruct signature as [sig|]; [|exact I].
      bind_ok Esig as y Ey. now apply formatNumber_range in Ey.
  - intros [(Hc & Hn & Hmp & Hmf & Hgl & Hv & Hto & Hal & Hfee) Hsig].
    unfold uint256 in *.
    unfold Plugin.serialize. cbn [Plugin.fields Plugin.feeCurrency].
    rewrite !formatNumber_success by assumption. cbn [bind].
    destruct (match to t with Some a => _ | None => _ end) as [f_to|] eqn:Eto.
    2:{ destruct (to t) as [a|]; [|discriminate].
        destruct (is_ok_inv _ (Hto a eq_refl)) as [a' Ha']. rewrite Ha' in Eto.
        discriminate. }
    cbn [bind].
    destruct (formatAccessList _) as [f_al|] eqn:Eal.
    2:{ unfold formatAccessList in Eal.
        destruct (accessList t) as [al|].
        - destruct (is_ok_inv _ (Hal al eq_refl)) as [al' Hal']. rewrite Hal' in Eal.
          discriminate.
        - discriminate. }
    cbn [bind].
    destruct (is_ok_inv _ Hfee) as [f_cur Ecur]. rewrite Ecur. cbn [bind].
    destruct signature as [sig|].
    + cbn [serializable_signature] in Hsig.
      rewrite formatNumber_success by assumption. cbn [bind].
      unfold toBeArray, assert.
      pose proof (be_value_bound (sig_r sig)) as Hr.
      pose proof (be_value_bound (sig_s sig)) as Hs.
      replace (0 <=? be_value (sig_r sig)) with true by (symmetry; apply Z.leb_le; lia).
      replace (0 <=? be_value (sig_s sig)) with true by (symmetry; apply Z.leb_le; lia).
      cbn [bind].
      destruct (rlp_item_fields t fc
                  (be_bytes (or_zero (chainId t))) (be_bytes (or_zero (nonce t)))
                  (be_bytes (or_zero (maxPriorityFeePerGas t)))
                  (be_bytes (or_zero (maxFeePerGas t)))
                  (be_bytes (or_zero (gasLimit t))) (be_bytes (or_zero (value t)))
                  f_to f_al f_cur
                  [be_bytes (sig_yParity sig); be_bytes (be_value (sig_r sig));
                   be_bytes (be_value (sig_s sig))] Eto Eal Ecur)
        as (fee' & _ & Hitem).
      cbn [map app] in Hitem. cbn [app].
      unfold encodeRlpInput. rewrite Hitem. reflexivity.
    + cbn [bind].
      destruct (rlp_item_fields t fc
                  (be_bytes (or_zero (chainId t))) (be_bytes (or_zero (nonce t)))
                  (be_bytes (or_zero (maxPriorityFeePerGas t)))
                  (be_bytes (or_zero (maxFeePerGas t)))
                  (be_bytes (or_zero (gasLimit t))) (be_bytes (or_zero (value t)))
                  f_to f_al f_cur [] Eto Eal Ecur)
        as (fee' & _ & Hitem).
      cbn [map app] in Hitem.
      unfold encodeRlpInput. rewrite Hitem. reflexivity.
Qed.

(** The serializer of the plugin's class, in full: when it succeeds and
    what it then returns. *)
Lemma Plugin_serialize_iff {crypto : Crypto} (t : Transaction) (fc : Nullable string)
  (signature : option Signature) (out : bytes) :
  Plugin.serialize (Plugin.mkCip64Transaction t fc) signature = Ok out
  <-> serializable t fc /\ serializable_signature signature
      /\ exists fee,
           fc = JsVal fee
           /\ out = x7b :: encodeRlp (RList (unsigned_fields t fee
                                             ++ optional_signature_fields signature)).
Proof.
  split.
  - intros Hs. pose proof (is_ok_true _ _ Hs) as Hok.
    apply Plugin_serialize_succeeds in Hok as [H1 H2].
    split; [exact H1|]. split; [exact H2|].
    apply Plugin_serialize_layout in Hs as (fee & Hfee & ->).
    cbn [Plugin.feeCurrency Plugin.fields] in *. eauto.
  - intros (H1 & H2 & fee & -> & ->).
    assert (Hok : is_ok (Plugin.serialize (Plugin.mkCip64Transaction t (JsVal fee))
                           signature) = true).
    { apply Plugin_serialize_succeeds. auto. }
    apply is_ok_inv in Hok as [out Hout]. rewrite Hout. f_equal.
    apply Plugin_serialize_layout in Hout as (fee' & Hfee & ->).
    cbn [Plugin.feeCurrency Plugin.fields] in *. now injection Hfee as <-.
Qed.

(** ** The layout of the payload *)



(** ** The signature *)

(** C5. [serialized] fails with the unsupported-operation error, whose
    message points to [unsignedSerialized], exactly when no signature is
    present.  With a signature, on every field set that can be serialized
    it yields bytes, the encoding of thirteen elements: the ten fields
    followed by yParity, r and s.  [unsignedSerialized] does not look at
    the signature: with or without one, on every field set that can be
    serialized it yields the encoding of the ten fields.  Both classes. *)
Theorem serialized_requires_signature {crypto : Crypto} (t : Transaction) :
  (forall fee : string,
     (signature t = None ->
      Celo.serialized (Celo.mkCip64Transaction t fee) = Err unsigned_error)
     /\ (forall e,
           Celo.serialized (Celo.mkCip64Transaction t fee) = Err e ->
           code e = UNSUPPORTED_OPERATION -> signature t = None)
     /\ (forall sig out,
           signature t = Some sig ->
           length (unsigned_fields t fee ++ signature_fields sig) = 13%nat
           /\ (Celo.serialized (Celo.mkCip64Transaction t fee) = Ok out
               <-> serializable t (JsVal fee)
                   /\ 0 <= sig_yParity sig <= BN_MAX_UINT
                   /\ out = x7b :: encodeRlp
                                     (RList (unsigned_fields t fee
                                             ++ signature_fields sig))))
     /\ (forall out,
           length (unsigned_fields t fee) = 10%nat
           /\ (Celo.unsignedSerialized (Celo.mkCip64Transaction t fee) = Ok out
               <-> serializable t (JsVal fee)
                   /\ out = x7b :: encodeRlp (RList (unsigned_fields t fee))))
     /\ (forall c n mp mf gp gl t' v d al s,
           t = mkTransaction c n mp mf gp gl t' v d al s ->
           forall s',
             Celo.unsignedSerialized
               (Celo.mkCip64Transaction (mkTransaction c n mp mf gp gl t' v d al s') fee)
             = Celo.unsignedSerialized (Celo.mkCip64Transaction t fee)))
  /\ (forall fc : Nullable string,
        (signature t = None ->
         Plugin.serialized (Plugin.mkCip64Transaction t fc) = Err unsigned_error)
        /\ (forall e,
              Plugin.serialized (Plugin.mkCip64Transaction t fc) = Err e ->
              code e = UNSUPPORTED_OPERATION -> signature t = None)
        /\ (forall sig out,
              signature t = Some sig ->
              Plugin.serialized (Plugin.mkCip64Transaction t fc) = Ok out
              <-> serializable t fc
                  /\ 0 <= sig_yParity sig <= BN_MAX_UINT
                  /\ exists fee,
                       fc = JsVal fee
                       /\ out = x7b :: encodeRlp
                                         (RList (unsigned_fields t fee
                                                 ++ signature_fields sig)))
        /\ (forall out,
              Plugin.unsignedSerialized (Plugin.mkCip64Transaction t fc) = Ok out
              <-> serializable t fc
                  /\ exists fee,
                       fc = JsVal fee
                       /\ out = x7b :: encodeRlp (RList (unsigned_fields t fee)))
        /\ (forall c n mp mf gp gl t' v d al s,
              t = mkTransaction c n mp mf gp gl t' v d al s ->
              forall s',
                Plugin.unsignedSerialized
                  (Plugin.mkCip64Transaction (mkTransaction c n mp mf gp gl t' v d al s')
                     fc)
                = Plugin.unsignedSerialized (Plugin.mkCip64Transaction t fc))).
Proof.
  assert (Hp : forall fc : Nullable string,
        (signature t = None ->
         Plugin.serialized (Plugin.mkCip64Transaction t fc) = Err unsigned_error)
        /\ (forall e,
              Plugin.serialized (Plugin.mkCip64Transaction t fc) = Err e ->
              code e = UNSUPPORTED_OPERATION -> signature t = None)
        /\ (forall sig out,
              signature t = Some sig ->
              Plugin.serialized (Plugin.mkCip64Transaction t fc) = Ok out
              <-> serializable t fc
                  /\ 0 <= sig_yParity sig <= BN_MAX_UINT
                  /\ exists fee,
                       fc = JsVal fee
                       /\ out = x7b :: encodeRlp
                                         (RList (unsigned_fields t fee
                                                 ++ signature_fields sig)))
        /\ (forall out,
              Plugin.unsignedSerialized (Plugin.mkCip64Transaction t fc) = Ok out
              <-> serializable t fc
                  /\ exists fee,
                       fc = JsVal fee
                       /\ out = x7b :: encodeRlp (RList (unsigned_fields t fee)))
        /\ (forall c n mp mf gp gl t' v d al s,
              t = mkTransaction c n mp mf gp gl t' v d al s ->
              forall s',
                Plugin.unsignedSerialized
                  (Plugin.mkCip64Transaction (mkTransaction c n mp mf gp gl t' v d al s')
                     fc)
                = Plugin.unsignedSerialized (Plugin.mkCip64Transaction t fc))).
  { intros fc. split; [|split; [|split; [|split]]].
    - intros Hn. unfold Plugin.serialized. cbn [Plugin.fields]. rewrite Hn. reflexivity.
    - intros e He Hc. unfold Plugin.serialized in He. cbn [Plugin.fields] in He.
      destruct (signature t) as [sig|]; [|reflexivity].
      cbn [assert bind] in He. apply Plugin_serialize_error in He.
      now apply plain_error_supported in He.
    - intros sig out Hsig. unfold Plugin.serialized. cbn [Plugin.fields].
      rewrite Hsig. cbn [assert bind]. rewrite Plugin_serialize_iff.
      cbn [serializable_signature optional_signature_fields]. reflexivity.
    - intros out. unfold Plugin.unsignedSerialized. rewrite Plugin_serialize_iff.
      cbn [serializable_signature optional_signature_fields].
      setoid_rewrite app_nil_r. tauto.
    - intros c n mp mf gp gl t' v d al s -> s'. reflexivity. }
  split; [|exact Hp].
  intros fee. destruct (Hp (JsVal fee)) as (H1 & H2 & H3 & H4 & H5).
  assert (Hs : Celo.serialized (Celo.mkCip64Transaction t fee)
               = Plugin.serialized (Plugin.mkCip64Transaction t (JsVal fee))).
  { unfold Celo.serialized, Plugin.serialized. cbn [Celo.fields Plugin.fields].
    destruct (signature t); reflexivity. }
  assert (Hu : forall t0, Celo.unsignedSerialized (Celo.mkCip64Transaction t0 fee)
               = Plugin.unsignedSerialized (Plugin.mkCip64Transaction t0 (JsVal fee))).
  { reflexivity. }
  rewrite Hs. split; [exact H1|]. split; [exact H2|]. split; [|split].
  - intros sig out Hsig. split; [reflexivity|]. rewrite (H3 sig out Hsig). split.
    + intros (Ha & Hb & fee' & [= <-] & ->). auto.
    + intros (Ha & Hb & ->). eauto.
  - intros out. split; [reflexivity|]. rewrite Hu, H4. split.
    + intros (Ha & fee' & [= <-] & ->). auto.
    + intros (Ha & ->). eauto.
  - intros c n mp mf gp gl t' v d al s Ht s'. rewrite !Hu. now apply (H5 _ _ _ _ _ _ _ _ _ _ s).
Qed.

Lemma serialized_requires_signature_witness :
  @Celo.serialized sample_crypto
    (Celo.mkCip64Transaction sample_fields sample_feeCurrency) = Err unsigned_error
  /\ @Plugin.serialized sample_crypto
       (Plugin.mkCip64Transaction sample_signed_fields (JsVal sample_feeCurrency))
     = Ok (x7b :: encodeRlp (RList (unsigned_fields sample_signed_fields
                                      sample_feeCurrency
                                    ++ signature_fields sample_signature)))
  /\ @Celo.serialized sample_crypto
       (Celo.mkCip64Transaction sample_signed_fields sample_feeCurrency)
     = Ok sample_signed_payload
  /\ @Celo.unsignedSerialized sample_crypto
       (Celo.mkCip64Transaction sample_signed_fields sample_feeCurrency)
     = Ok (x7b :: encodeRlp (RList (unsigned_fields sample_signed_fields
                                      sample_feeCurrency))).
Proof.
  assert (Hser : @serializable sample_crypto sample_signed_fields
                   (JsVal sample_feeCurrency)).
  { unfold serializable, uint256.
    repeat (split; [split; vm_compute; discriminate|]).
    split; [intros a Ha; discriminate Ha|].
    split; [|reflexivity].
    intros al Ha. vm_compute in Ha. injection Ha as <-. reflexivity. }
  split; [|split; [|split]].
  - apply (proj1 (proj1 (@serialized_requires_signature sample_crypto sample_fields)
                    sample_feeCurrency)).
    reflexivity.
  - apply (proj1 (proj2 (proj2 (proj2 (@serialized_requires_signature sample_crypto
                                          sample_signed_fields)
                                   (JsVal sample_feeCurrency))))
             sample_signature _ eq_refl).
    split; [exact Hser|]. split; [split; vm_compute; discriminate|].
    exists sample_feeCurrency. split; reflexivity.
  - apply (proj2 (proj1 (proj2 (proj2 (proj1 (@serialized_requires_signature
                                                sample_crypto sample_signed_fields)
                                         sample_feeCurrency)))
                    sample_signature sample_signed_payload eq_refl)).
    split; [exact Hser|]. split; [split; vm_compute; discriminate|].
    vm_compute. reflexivity.
  - apply (proj2 (proj1 (proj2 (proj2 (proj2 (proj1 (@serialized_requires_signature
                                                       sample_crypto sample_signed_fields)
                                                sample_feeCurrency))))
                    _)).
    split; [exact Hser|reflexivity].
Defined.

(** X1. The serializer succeeds exactly when every numeric field (an
    absent one counting as zero) and the parity of the signature fit 256
    bits, the recipient, if any, and the fee currency are addresses and
    the access list, if any, is valid; so [unsignedSerialized] succeeds
    exactly on serializable fields, and [serialized] exactly when moreover
    a signature is present.  Both classes. *)
Theorem serialize_succeeds_iff {crypto : Crypto} (t : Transaction) :
  (forall fee,
     (forall signature,
        is_ok (Celo.serialize (Celo.mkCip64Transaction t fee) signature) = true
        <-> serializable t (JsVal fee) /\ serializable_signature signature)
     /\ (is_ok (Celo.unsignedSerialized (Celo.mkCip64Transaction t fee)) = true
         <-> serializable t (JsVal fee))
     /\ (is_ok (Celo.serialized (Celo.mkCip64Transaction t fee)) = true
         <-> serializable t (JsVal fee)
             /\ exists sig, signature t = Some sig /\ 0 <= sig_yParity sig <= BN_MAX_UINT))
  /\ (forall fc,
        (forall signature,
           is_ok (Plugin.serialize (Plugin.mkCip64Transaction t fc) signature) = true
           <-> serializable t fc /\ serializable_signature signature)
        /\ (is_ok (Plugin.unsignedSerialized (Plugin.mkCip64Transaction t fc)) = true
            <-> serializable t fc)
        /\ (is_ok (Plugin.serialized (Plugin.mkCip64Transaction t fc)) = true
            <-> serializable t fc
                /\ exists sig, signature t = Some sig
                               /\ 0 <= sig_yParity sig <= BN_MAX_UINT)).
Proof.
  assert (Hp : forall fc,
        (forall signature,
           is_ok (Plugin.serialize (Plugin.mkCip64Transaction t fc) signature) = true
           <-> serializable t fc /\ serializable_signature signature)
        /\ (is_ok (Plugin.unsignedSerialized (Plugin.mkCip64Transaction t fc)) = true
            <-> serializable t fc)
        /\ (is_ok (Plugin.serialized (Plugin.mkCip64Transaction t fc)) = true
            <-> serializable t fc
                /\ exists sig, signature t = Some sig
                               /\ 0 <= sig_yParity sig <= BN_MAX_UINT)).
  { intros fc. split; [|split].
    - intros signature. apply Plugin_serialize_succeeds.
    - unfold Plugin.unsignedSerialized. rewrite Plugin_serialize_succeeds.
      cbn [serializable_signature]. tauto.
    - unfold Plugin.serialized. cbn [Plugin.fields].
      destruct (signature t) as [sig|]; cbn [assert bind].
      + rewrite Plugin_serialize_succeeds. cbn [serializable_signature]. split.
        * intros [Hs Hy]. split; [exact Hs|]. exists sig. auto.
        * intros [Hs (sig' & [= <-] & Hy)]. auto.
      + cbn [is_ok]. split; [discriminate|].
        intros [_ (sig & Hsig & _)]. discriminate Hsig. }
  split; [|exact Hp].
  intros fee. destruct (Hp (JsVal fee)) as (H1 & H2 & H3). split; [|split].
  - intros signature. rewrite serialize_variants. apply H1.
  - unfold Celo.unsignedSerialized. rewrite serialize_variants. exact H2.
  - unfold Celo.serialized. cbn [Celo.fields].
    unfold Plugin.serialized in H3. cbn [Plugin.fields] in H3.
    destruct (signature t); cbn [assert bind] in *;
      [rewrite serialize_variants|]; exact H3.
Qed.

Lemma serialize_succeeds_iff_witness :
  @serializable sample_crypto sample_rich_fields (JsVal sample_feeCurrency)
  /\ is_ok (@Celo.unsignedSerialized sample_crypto
              (Celo.mkCip64Transaction sample_rich_fields sample_feeCurrency)) = true.
Proof.
  assert (Hs : @serializable sample_crypto sample_rich_fields
                 (JsVal sample_feeCurrency)).
  { unfold serializable, uint256. repeat split; try discriminate.
    - intros a [= <-]. reflexivity.
    - intros al [= <-]. reflexivity. }
  split; [exact Hs|].
  apply (proj1 (proj2 (proj1 (@serialize_succeeds_iff sample_crypto sample_rich_fields)
                         sample_feeCurrency))).
  exact Hs.
Defined.

(** ** Scalars: stripping and restoring leading zeros *)

Lemma Z_of_byte_zero (x : byte) : Z_of_byte x = 0 -> x = x00.
Proof.
  intros Hx. rewrite <- (byte_of_Z_of_byte x), Hx. reflexivity.
Qed.

(** Leading zero bytes do not change the value. *)
Lemma be_value_zeros (k : nat) (b : bytes) : be_value (repeat x00 k ++ b) = be_value b.
Proof.
  induction k as [|k IH]; [reflexivity|].
  cbn [repeat app]. rewrite be_value_cons, IH.
  change (Z_of_byte x00) with 0. lia.
Qed.

(** Every byte sequence is some zero bytes followed by a sequence without
    a leading zero byte. *)
Lemma strip_zeros (r : bytes) :
  exists k b,
    r = repeat x00 k ++ b
    /\ (forall x b', b = x :: b' -> Z_of_byte x <> 0).
Proof.
  induction r as [|x r (k & b & Hr & Hb)].
  - exists 0%nat, []. split; [reflexivity|]. discriminate.
  - destruct (Z.eq_dec (Z_of_byte x) 0) as [Hz|Hnz].
    + apply Z_of_byte_zero in Hz. subst x. exists (S k), b. cbn [repeat app].
      split; [now rewrite Hr|exact Hb].
    + exists 0%nat, (x :: r). split; [reflexivity|].
      intros x' b' [= <- <-]. exact Hnz.
Qed.

Lemma be_value_lower (x : byte) (b : bytes) :
  Z_of_byte x <> 0 -> 256 ^ Z.of_nat (length b) <= be_value (x :: b).
Proof.
  intros Hx. rewrite be_value_cons.
  pose proof (Z_of_byte_range x). pose proof (be_value_bound b).
  assert (0 < 256 ^ Z.of_nat (length b)) by (apply Z.pow_pos_nonneg; lia). nia.
Qed.

(** The loop rebuilds a sequence without leading zero from its value. *)
Lemma be_loop_canonical (b : bytes) :
  (forall x b', b = x :: b' -> Z_of_byte x <> 0) ->
  forall fuel acc, (length b <= fuel)%nat ->
    be_loop fuel (be_value b) acc = b ++ acc.
Proof.
  induction b as [|y b IH] using rev_ind; intros Hlead fuel acc Hfuel.
  - destruct fuel; reflexivity.
  - rewrite length_app in Hfuel. simpl length in Hfuel.
    destruct fuel as [|fuel]; [lia|].
    rewrite be_value_app. simpl length. change (256 ^ Z.of_nat 1) with 256.
    replace (be_value [y]) with (Z_of_byte y) by (unfold be_value; simpl; lia).
    pose proof (Z_of_byte_range y) as Hy.
    pose proof (be_value_bound b) as Hb.
    cbn [be_loop].
    assert (Hnz : be_value b * 256 + Z_of_byte y <> 0).
    { destruct b as [|x b'].
      - specialize (Hlead y [] eq_refl). unfold be_value. simpl. lia.
      - pose proof (be_value_lower x b' (Hlead x (b' ++ [y]) eq_refl)).
        assert (0 < 256 ^ Z.of_nat (length b')) by (apply Z.pow_pos_nonneg; lia). lia. }
    apply Z.eqb_neq in Hnz. rewrite Hnz.
    replace ((be_value b * 256 + Z_of_byte y) / 256) with (be_value b)
      by (apply Z.div_unique with (r := Z_of_byte y); lia).
    replace ((be_value b * 256 + Z_of_byte y) mod 256) with (Z_of_byte y)
      by (apply Z.mod_unique with (q := be_value b); lia).
    rewrite byte_of_Z_of_byte, <- app_assoc. cbn [app].
    apply IH; [|lia].
    intros x b' ->. apply (Hlead x (b' ++ [y])). reflexivity.
Qed.

Lemma be_bytes_canonical (b : bytes) :
  (forall x b', b = x :: b' -> Z_of_byte x <> 0) ->
  be_bytes (be_value b) = b.
Proof.
  intros Hlead. unfold be_bytes.
  rewrite (be_loop_canonical b Hlead); [apply app_nil_r|].
  destruct b as [|x b]; [simpl; lia|].
  pose proof (be_value_lower x b (Hlead x b eq_refl)) as Hlow.
  assert (Hpos : 0 < 256 ^ Z.of_nat (length b)) by (apply Z.pow_pos_nonneg; lia).
  assert (Hlog : Z.of_nat (length b) <= Z.log2 (be_value (x :: b))).
  { apply Z.log2_le_pow2; [lia|].
    eapply Z.le_trans; [|exact Hlow].
    change 256 with (2 ^ 8). rewrite <- Z.pow_mul_r by lia.
    apply Z.pow_le_mono_r; lia. }
  simpl length. lia.
Qed.

(** Padding the minimal bytes of a scalar back to its width restores
    it. *)
Lemma zero_pad_be_bytes (r : bytes) :
  repeat x00 (length r - length (be_bytes (be_value r))) ++ be_bytes (be_value r) = r
  /\ (length (be_bytes (be_value r)) <= length r)%nat.
Proof.
  destruct (strip_zeros r) as (k & b & -> & Hb).
  rewrite be_value_zeros, (be_bytes_canonical b Hb).
  rewrite length_app, repeat_length.
  replace (k + length b - length b)%nat with k by lia. split; [reflexivity|lia].
Qed.

Lemma zeroPadValue_be_bytes (r : bytes) :
  zeroPadValue (RBytes (be_bytes (be_value r))) (length r) = Ok r.
Proof.
  destruct (zero_pad_be_bytes r) as [Hpad Hlen].
  unfold zeroPadValue, assert. cbn [hexlify_item bind].
  apply Nat.leb_le in Hlen. rewrite Hlen. cbn [bind]. now rewrite Hpad.
Qed.

(** The shared routine reads back the three elements of a signature with
    32-byte scalars and a parity bit. *)
Lemma eipSignature_signature_fields {crypto : Crypto} (sig : Signature) :
  length (sig_r sig) = 32%nat -> length (sig_s sig) = 32%nat ->
  sig_yParity sig = 0 \/ sig_yParity sig = 1 ->
  acceptable_signature (sig_r sig) (sig_s sig) (sig_yParity sig) = true ->
  eipSignature (signature_fields sig) = Ok sig.
Proof.
  intros Hr Hs Hy Hacc. destruct sig as [r s y]. cbn [sig_r sig_s sig_yParity] in *.
  unfold eipSignature, signature_fields. cbn [nth sig_r sig_s sig_yParity].
  rewrite handleNumber_be_bytes
    by (assert (1 <= MAX_SAFE_INTEGER) by (vm_compute; discriminate); lia).
  replace ((y =? 0) || (y =? 1)) with true
    by (destruct Hy as [-> | ->]; reflexivity).
  cbn [bind].
  pose proof (zeroPadValue_be_bytes r) as Hpr. rewrite Hr in Hpr. rewrite Hpr.
  pose proof (zeroPadValue_be_bytes s) as Hps. rewrite Hs in Hps. rewrite Hps.
  cbn [bind]. unfold Signature_from. rewrite Hacc. reflexivity.
Qed.

(** ** The signed round trip *)

(** The parser on a payload that decodes to the ten elements of valid
    fields, followed by the elements [extra] of a signature or by
    nothing. *)
Lemma parse_common_fields {crypto : Crypto} (tx : Transaction) (fee : string)
  (extra : list RlpItem) (raw : bytes) :
  0 <= or_zero (chainId tx) <= BN_MAX_UINT ->
  0 <= or_zero (nonce tx) <= MAX_SAFE_INTEGER ->
  0 <= or_zero (maxPriorityFeePerGas tx) <= BN_MAX_UINT ->
  0 <= or_zero (maxFeePerGas tx) <= BN_MAX_UINT ->
  0 <= or_zero (gasLimit tx) <= BN_MAX_UINT ->
  0 <= or_zero (value tx) <= BN_MAX_UINT ->
  (forall a, to tx = Some a -> getAddress (JsVal a) = Ok a) ->
  (forall al, accessList tx = Some al -> accessListify al = Ok al) ->
  getAddress (JsVal fee) = Ok fee ->
  length extra = 0%nat \/ length extra = 3%nat ->
  decodeRlp (skipn 1 raw) = Ok (RList (unsigned_fields tx fee ++ extra)) ->
  parse_common raw
  = let like :=
      mkTransactionLike (Some CIP_64_TYPE_NUMBER)
        (Some (or_zero (chainId tx))) (Some (or_zero (nonce tx)))
        (Some (or_zero (maxPriorityFeePerGas tx)))
        (Some (or_zero (maxFeePerGas tx))) None
        (Some (or_zero (gasLimit tx))) (to tx) (Some (or_zero (value tx)))
        (Some (match data tx with Some d => d | None => [] end))
        (Some (match accessList tx with Some al => al | None => [] end))
        None None in
    if Nat.eqb (length extra) 0 then Ok (like, Some fee)
    else
      let* tx' := parseEipSignature (with_hash like (keccak256 raw)) extra in
      Ok (tx', Some fee).
Proof.
  intros Hc Hn Hmp Hmf Hgl Hv Hto Hal Hfee Hextra Hdec.
  assert (Hto' : handleAddress
                   (RBytes (match to tx with Some a => address_bytes a | None => [] end))
                 = Ok (to tx)).
  { destruct (to tx) as [a|]; [|reflexivity]. apply handleAddress_address. now apply Hto. }
  assert (Hlist : handleAccessList
                    (RList (match accessList tx with
                            | Some l => map access_set_item l
                            | None => []
                            end)) "accessList"
                  = Ok (match accessList tx with Some al => al | None => [] end)).
  { destruct (accessList tx) as [al|].
    - apply handleAccessList_roundtrip. now apply Hal.
    - reflexivity. }
  unfold parse_common. rewrite Hdec. cbn [bind].
  assert (Hshape : well_shaped (RList (unsigned_fields tx fee ++ extra)) = true).
  { unfold well_shaped. rewrite length_app. cbn [unsigned_fields length].
    destruct Hextra as [He | He]; rewrite He; reflexivity. }
  rewrite Hshape. cbn [assertArgument bind].
  assert (Hlen : Nat.eqb (length (unsigned_fields tx fee ++ extra)) 10
                 = Nat.eqb (length extra) 0).
  { rewrite length_app. cbn [unsigned_fields length].
    destruct Hextra as [He | He]; rewrite He; reflexivity. }
  rewrite Hlen.
  unfold unsigned_fields, numeric_field. cbn [app nth skipn].
  fold (or_zero (chainId tx)) (or_zero (nonce tx)) (or_zero (maxPriorityFeePerGas tx))
       (or_zero (maxFeePerGas tx)) (or_zero (gasLimit tx)) (or_zero (value tx)).
  rewrite !handleUint_be_bytes by assumption. cbn [bind].
  rewrite handleNumber_be_bytes by assumption. cbn [bind].
  rewrite Hto'. cbn [bind hexlify_item].
  rewrite Hlist. cbn [bind].
  rewrite (handleAddress_address fee fee Hfee). cbn [bind].
  reflexivity.
Qed.

(** The round trip of a signed field set. *)
Lemma serialized_roundtrip {crypto : Crypto}
  (c n mp mf gl v : Z) (gp : option Z) (t : option string) (d : bytes)
  (al : AccessList) (sig : Signature) (fee : string) :
  0 <= c <= BN_MAX_UINT -> 0 <= n <= MAX_SAFE_INTEGER ->
  0 <= mp <= BN_MAX_UINT -> 0 <= mf <= BN_MAX_UINT ->
  0 <= gl <= BN_MAX_UINT -> 0 <= v <= BN_MAX_UINT ->
  (forall a, t = Some a -> getAddress (JsVal a) = Ok a) ->
  accessListify al = Ok al ->
  getAddress (JsVal fee) = Ok fee ->
  length (sig_r sig) = 32%nat -> length (sig_s sig) = 32%nat ->
  sig_yParity sig = 0 \/ sig_yParity sig = 1 ->
  acceptable_signature (sig_r sig) (sig_s sig) (sig_yParity sig) = true ->
  exists out,
    Celo.serialized
      (Celo.mkCip64Transaction
         (mkTransaction (Some c) (Some n) (Some mp) (Some mf) gp (Some gl) t (Some v)
            (Some d) (Some al) (Some sig)) fee) = Ok out
    /\ (Z.of_nat (length out) < 2 ^ 31 ->
        Celo.parseCip64 out
        = Ok (Celo.mkCeloTransactionLike
                (mkTransactionLike (Some CIP_64_TYPE_NUMBER) (Some c) (Some n) (Some mp)
                   (Some mf) None (Some gl) t (Some v) (Some d) (Some al)
                   (Some (keccak256 out)) (Some sig))
                (JsVal fee))).
Proof.
  intros Hc Hn Hmp Hmf Hgl Hv Hto Hal Hfee Hr Hs Hy Hacc.
  set (tx := mkTransaction _ _ _ _ _ _ _ _ _ _ _).
  assert (Hn' : 0 <= n <= BN_MAX_UINT).
  { assert (MAX_SAFE_INTEGER <= BN_MAX_UINT) by (vm_compute; discriminate). lia. }
  assert (Hy' : 0 <= sig_yParity sig <= BN_MAX_UINT).
  { assert (1 <= BN_MAX_UINT) by (vm_compute; discriminate). lia. }
  assert (Hok : is_ok (Celo.serialized (Celo.mkCip64Transaction tx fee)) = true).
  { unfold Celo.serialized. cbn [Celo.fields]. subst tx. cbn [signature assert bind].
    rewrite serialize_variants. apply Plugin_serialize_succeeds. split; [|exact Hy'].
    unfold serializable, uint256.
    cbn [chainId nonce maxPriorityFeePerGas maxFeePerGas gasLimit value to accessList
         or_zero].
    repeat (split; [assumption|]). split; [|split].
    - intros a Ha. now rewrite (Hto a Ha).
    - intros al' [= <-]. now rewrite Hal.
    - now rewrite Hfee. }
  apply is_ok_inv in Hok as [out Hout]. exists out. split; [exact Hout|].
  intros Hsize.
  pose proof Hout as Hlay. unfold Celo.serialized in Hlay. cbn [Celo.fields] in Hlay.
  subst tx. cbn [signature assert bind] in Hlay.
  apply Celo_serialize_layout in Hlay.
  cbn [optional_signature_fields Celo.fields Celo.feeCurrency] in Hlay.
  set (tx := mkTransaction _ _ _ _ _ _ _ _ _ _ _) in *.
  assert (Hdec : decodeRlp (skipn 1 out)
                 = Ok (RList (unsigned_fields tx fee ++ signature_fields sig))).
  { rewrite Hlay. unfold payload. cbn [skipn]. apply decodeRlp_encodeRlp.
    rewrite Hlay in Hsize. unfold payload in Hsize. cbn [length] in Hsize.
    rewrite Nat2Z.inj_succ in Hsize.
    assert (Hp : 2 ^ 31 <= 2 ^ 64) by (apply Z.pow_le_mono_r; lia). lia. }
  rewrite Celo_parse_common.
  rewrite (parse_common_fields tx fee (signature_fields sig) out); subst tx;
    cbn [chainId nonce maxPriorityFeePerGas maxFeePerGas gasLimit value to accessList
         data or_zero]; try assumption.
  - cbn [signature_fields length Nat.eqb]. unfold parseEipSignature.
    rewrite (eipSignature_signature_fields sig Hr Hs Hy Hacc). cbn [bind fst snd].
    rewrite (handleAddress_truthy _ _ (handleAddress_address fee fee Hfee)).
    reflexivity.
  - intros al' [= <-]. exact Hal.
  - right. reflexivity.
Qed.

(** X2. A signed field set with valid fields, a signature of two 32-byte
    scalars and a parity bit that [Signature.from] accepts serializes, and
    parsing the signed serialization returns the same fields, the same
    signature, and as hash the digest of the payload.  (Payload shorter
    than 2^31 bytes.) *)
Theorem parse_serialized {crypto : Crypto}
  (c n mp mf gl v : Z) (gp : option Z) (t : option string) (d : bytes)
  (al : AccessList) (sig : Signature) (fee : string) :
  0 <= c <= BN_MAX_UINT -> 0 <= n <= MAX_SAFE_INTEGER ->
  0 <= mp <= BN_MAX_UINT -> 0 <= mf <= BN_MAX_UINT ->
  0 <= gl <= BN_MAX_UINT -> 0 <= v <= BN_MAX_UINT ->
  (forall a, t = Some a -> getAddress (JsVal a) = Ok a) ->
  accessListify al = Ok al ->
  getAddress (JsVal fee) = Ok fee ->
  length (sig_r sig) = 32%nat -> length (sig_s sig) = 32%nat ->
  sig_yParity sig = 0 \/ sig_yParity sig = 1 ->
  acceptable_signature (sig_r sig) (sig_s sig) (sig_yParity sig) = true ->
  exists out,
    Celo.serialized
      (Celo.mkCip64Transaction
         (mkTransaction (Some c) (Some n) (Some mp) (Some mf) gp (Some gl) t (Some v)
            (Some d) (Some al) (Some sig)) fee) = Ok out
    /\ (Z.of_nat (length out) < 2 ^ 31 ->
        Celo.parseCip64 out
        = Ok (Celo.mkCeloTransactionLike
                (mkTransactionLike (Some CIP_64_TYPE_NUMBER) (Some c) (Some n) (Some mp)
                   (Some mf) None (Some gl) t (Some v) (Some d) (Some al)
                   (Some (keccak256 out)) (Some sig))
                (JsVal fee))).
Proof. apply serialized_roundtrip. Qed.

Lemma parse_serialized_witness :
  @Celo.serialized sample_crypto
    (Celo.mkCip64Transaction sample_signed_fields sample_feeCurrency)
  = Ok sample_signed_payload
  /\ @Celo.parseCip64 sample_crypto sample_signed_payload
     = Ok (Celo.mkCeloTransactionLike
             (mkTransactionLike (Some CIP_64_TYPE_NUMBER) (Some 44787) (Some 0) (Some 0)
                (Some 0) None (Some 0) None (Some 0) (Some []) (Some [])
                (Some (@keccak256 sample_crypto sample_signed_payload))
                (Some sample_signature))
             (JsVal sample_feeCurrency)).
Proof.
  destruct (@parse_serialized sample_crypto 44787 0 0 0 0 0 None None [] []
              sample_signature sample_feeCurrency)
    as (out & Hout & Hparse);
    try (split; discriminate); try reflexivity.
  - intros a Ha. discriminate Ha.
  - right. reflexivity.
  - assert (out = sample_signed_payload) as ->.
    { vm_compute in Hout. injection Hout as <-. reflexivity. }
    split; [exact Hout|]. apply Hparse. vm_compute. reflexivity.
Defined.

(** ** What the parser returns *)

Lemma handleUint_range (r : RlpItem) (param : string) (v : Z) :
  handleUint r param = Ok v -> 0 <= v <= BN_MAX_UINT.
Proof.
  unfold handleUint, assertArgument. destruct r as [[|x b]|l]; try discriminate.
  - intros [= <-]. split; [lia|vm_compute; discriminate].
  - destruct (be_value (x :: b) <=? BN_MAX_UINT) eqn:E; cbn [bind]; [|discriminate].
    intros [= <-]. apply Z.leb_le in E. pose proof (be_value_bound (x :: b)). lia.
Qed.

Lemma handleNumber_range (r : RlpItem) (param : string) (v : Z) :
  handleNumber r param = Ok v -> 0 <= v <= MAX_SAFE_INTEGER.
Proof.
  unfold handleNumber, assertArgument. destruct r as [[|x b]|l]; try discriminate.
  - intros [= <-]. split; [lia|vm_compute; discriminate].
  - destruct (be_value (x :: b) <=? MAX_SAFE_INTEGER) eqn:E; cbn [bind]; [|discriminate].
    intros [= <-]. apply Z.leb_le in E. pose proof (be_value_bound (x :: b)). lia.
Qed.

Lemma handleAddress_normalized {crypto : Crypto} (r : RlpItem) (a : string) :
  handleAddress r = Ok (Some a) -> getAddress (JsVal a) = Ok a.
Proof.
  unfold handleAddress. destruct r as [[|x b]|l]; try discriminate.
  destruct (getAddress _) as [a'|] eqn:E; cbn [bind]; [|discriminate].
  intros [= <-]. eapply getAddress_normalized; eauto.
Qed.

Lemma slots_checked (l : list RlpItem) :
  forall ks index, mapM slot_of_item l = Ok ks -> check_slots index ks = Ok ks.
Proof.
  induction l as [|k l IH]; intros ks index Hm.
  - injection Hm as <-. reflexivity.
  - cbn [mapM] in Hm. bind_ok Hm as k' Ek. bind_ok Hm as ks' Eks. injection Hm as <-.
    unfold slot_of_item in Ek. destruct k as [kb|]; [|discriminate].
    unfold assertArgument in Ek.
    destruct (Nat.eqb (length kb) 32) eqn:El; cbn [bind] in Ek; [|discriminate].
    injection Ek as <-. cbn [check_slots]. unfold assertArgument. rewrite El.
    cbn [bind]. rewrite (IH ks' (S index) eq_refl). reflexivity.
Qed.

Lemma set_of_item_valid {crypto : Crypto} (value set : RlpItem) (x : AccessSet) :
  set_of_item value set = Ok x ->
  accessSetify (JsVal (address x)) (storageKeys x) = Ok x.
Proof.
  unfold set_of_item. intros Hs.
  destruct set as [|[|addr [|keys [|]]]]; try discriminate.
  bind_ok Hs as a Ea. bind_ok Hs as ks Ek. injection Hs as <-.
  cbn [address storageKeys]. unfold accessSetify.
  assert (Ha : getAddress (JsVal a) = Ok a).
  { destruct addr as [b|]; [|discriminate]. eapply getAddress_normalized; eauto. }
  rewrite Ha. cbn [bind].
  destruct keys as [|l]; [discriminate|].
  rewrite (slots_checked l ks 0 Ek). reflexivity.
Qed.

(** A decoded access list passes the validation of the serializer
    unchanged. *)
Lemma handleAccessList_valid {crypto : Crypto} (r : RlpItem) (param : string)
  (al : AccessList) :
  handleAccessList r param = Ok al -> accessListify al = Ok al.
Proof.
  unfold handleAccessList. intros Hh.
  destruct r as [|sets]; [discriminate|].
  destruct (mapM (set_of_item (RList sets)) sets) as [l|] eqn:Em; [|discriminate].
  injection Hh as <-. unfold accessListify.
  generalize dependent (RList sets). intros value. revert l.
  induction sets as [|s sets IH]; intros l Hm.
  - injection Hm as <-. reflexivity.
  - cbn [mapM] in Hm. bind_ok Hm as x Ex. bind_ok Hm as xs Exs. injection Hm as <-.
    cbn [mapM]. rewrite (set_of_item_valid _ _ _ Ex). cbn [bind].
    rewrite (IH xs eq_refl). reflexivity.
Qed.

Lemma zeroPadValue_length (r : RlpItem) (len : nat) (b : bytes) :
  zeroPadValue r len = Ok b -> length b = len.
Proof.
  unfold zeroPadValue, assert. intros Hz. bind_ok Hz as b' Eb.
  destruct (Nat.leb (length b') len) eqn:El; cbn [bind] in Hz; [|discriminate].
  injection Hz as <-. apply Nat.leb_le in El.
  rewrite length_app, repeat_length. lia.
Qed.

Lemma eipSignature_valid {crypto : Crypto} (fields : list RlpItem) (sig : Signature) :
  eipSignature fields = Ok sig -> valid_signature sig.
Proof.
  unfold eipSignature. intros He.
  bind_ok He as y Ey. bind_ok He as r Er. bind_ok He as s Es.
  unfold Signature_from, assertArgument in He.
  destruct (acceptable_signature r s y) eqn:Ea; cbn [bind] in He; [|discriminate].
  injection He as <-. unfold valid_signature. cbn [sig_r sig_s sig_yParity].
  apply zeroPadValue_length in Er, Es.
  repeat split; auto.
  destruct (handleNumber _ _) as [y'|]; [|discriminate].
  destruct ((y' =? 0) || (y' =? 1)) eqn:Eb; [|discriminate].
  injection Ey as <-. apply orb_true_iff in Eb as [Eb | Eb]; apply Z.eqb_eq in Eb; auto.
Qed.

(** What the common part of the parsers returns. *)
Lemma parse_common_valid {crypto : Crypto} (raw : bytes) (tx : TransactionLike)
  (fee : option string) :
  parse_common raw = Ok (tx, fee) ->
  decoded_fields tx
  /\ (forall a, fee = Some a -> getAddress (JsVal a) = Ok a)
  /\ ((tl_hash tx = None /\ tl_signature tx = None)
      \/ (tl_hash tx = Some (keccak256 raw)
          /\ exists sig, tl_signature tx = Some sig /\ valid_signature sig)).
Proof.
  unfold parse_common. intros Hp.
  bind_ok Hp as decoded Ed. bind_ok Hp as u Es.
  bind_ok Hp as mp E2. bind_ok Hp as mf E3. bind_ok Hp as c E0. bind_ok Hp as n E1.
  bind_ok Hp as g E4. bind_ok Hp as t E5. bind_ok Hp as v E6. bind_ok Hp as d E7.
  bind_ok Hp as al E8. bind_ok Hp as fc E9.
  apply handleUint_range in E2, E3, E0, E4, E6. apply handleNumber_range in E1.
  apply handleAccessList_valid in E8.
  assert (Hto : forall a, t = Some a -> getAddress (JsVal a) = Ok a).
  { intros a ->. eapply handleAddress_normalized; eauto. }
  assert (Hfc : forall a, fc = Some a -> getAddress (JsVal a) = Ok a).
  { intros a ->. eapply handleAddress_normalized; eauto. }
  destruct (Nat.eqb _ 10).
  - injection Hp as <- <-. split; [|split; [exact Hfc|left; split; reflexivity]].
    unfold decoded_fields.
    cbn [tl_type tl_gasPrice tl_chainId tl_nonce tl_maxPriorityFeePerGas
         tl_maxFeePerGas tl_gasLimit tl_value tl_data tl_to tl_accessList].
    repeat split; eauto.
  - unfold parseEipSignature in Hp. bind_ok Hp as tx' Esig. bind_ok Esig as sig Esig'.
    injection Esig as <-. injection Hp as <- <-.
    split; [|split; [exact Hfc|right]].
    + unfold decoded_fields.
      cbn [with_signature with_hash tl_type tl_gasPrice tl_chainId tl_nonce
           tl_maxPriorityFeePerGas tl_maxFeePerGas tl_gasLimit tl_value tl_data tl_to
           tl_accessList].
      repeat split; eauto.
    + split; [reflexivity|]. exists sig. split; [reflexivity|].
      eapply eipSignature_valid; eauto.
Qed.

(** X3. Whatever the parser returns is a validated field set: its type is
    123 and it has no gas price; chainId, the two fees, gasLimit and value
    are present and fit 256 bits, the nonce is present and a safe integer;
    data and the access list are present, the access list passing the
    validation of the serializer unchanged; the recipient is absent or a
    normalized address; the fee currency is absent or a normalized
    address; and the result carries either neither hash nor signature, or
    the digest of the payload and a signature of two 32-byte scalars and a
    parity bit.  Both variants. *)
Theorem parse_returns_validated_fields {crypto : Crypto} (raw : bytes) :
  (forall tx,
     Celo.parseCip64 raw = Ok tx ->
     decoded_fields (Celo.base tx)
     /\ (Celo.tl_feeCurrency tx = JsUndefined
         \/ exists a, Celo.tl_feeCurrency tx = JsVal a /\ getAddress (JsVal a) = Ok a)
     /\ ((tl_hash (Celo.base tx) = None /\ tl_signature (Celo.base tx) = None)
         \/ (tl_hash (Celo.base tx) = Some (keccak256 raw)
             /\ exists sig,
                  tl_signature (Celo.base tx) = Some sig /\ valid_signature sig)))
  /\ (forall tx,
        Plugin.parseCip64 raw = Ok tx ->
        decoded_fields (Plugin.base tx)
        /\ (exists cd,
              Plugin.customData tx = Some cd
              /\ (Plugin.cd_feeCurrency cd = JsNull
                  \/ exists a, Plugin.cd_feeCurrency cd = JsVal a
                               /\ getAddress (JsVal a) = Ok a))
        /\ ((tl_hash (Plugin.base tx) = None /\ tl_signature (Plugin.base tx) = None)
            \/ (tl_hash (Plugin.base tx) = Some (keccak256 raw)
                /\ exists sig,
                     tl_signature (Plugin.base tx) = Some sig /\ valid_signature sig))).
Proof.
  split; intros tx Hp.
  - rewrite Celo_parse_common in Hp.
    destruct (parse_common raw) as [[b fee]|] eqn:Ec; [|discriminate].
    cbn [bind fst snd] in Hp. injection Hp as <-.
    cbn [Celo.base Celo.tl_feeCurrency].
    destruct (parse_common_valid raw b fee Ec) as (Hf & Hfee & Hsig).
    split; [exact Hf|]. split; [|exact Hsig].
    destruct fee as [a|]; [right|left; reflexivity].
    exists a. split; [|now apply Hfee].
    pose proof (Hfee a eq_refl) as Ha.
    apply getAddress_inv in Ha as (s & d & _ & _ & ->). reflexivity.
  - rewrite Plugin_parse_common in Hp.
    destruct (parse_common raw) as [[b fee]|] eqn:Ec; [|discriminate].
    cbn [bind fst snd] in Hp. injection Hp as <-.
    cbn [Plugin.base Plugin.customData].
    destruct (parse_common_valid raw b fee Ec) as (Hf & Hfee & Hsig).
    split; [exact Hf|]. split; [|exact Hsig].
    eexists. split; [reflexivity|]. cbn [Plugin.cd_feeCurrency].
    destruct fee as [a|]; [right|left; reflexivity].
    exists a. split; [reflexivity|now apply Hfee].
Qed.

Lemma parse_returns_validated_fields_witness :
  exists tx,
    @Celo.parseCip64 sample_crypto sample_signed_payload = Ok tx
    /\ @decoded_fields sample_crypto (Celo.base tx)
    /\ tl_hash (Celo.base tx) = Some (@keccak256 sample_crypto sample_signed_payload).
Proof.
  destruct (@Celo.parseCip64 sample_crypto sample_signed_payload) as [tx|] eqn:Ep;
    [|vm_compute in Ep; discriminate Ep].
  exists tx. split; [reflexivity|].
  destruct (proj1 (@parse_returns_validated_fields sample_crypto sample_signed_payload)
              tx Ep) as (Hf & _ & Hsig).
  split; [exact Hf|].
  destruct Hsig as [[Hh _] | [Hh _]]; [|exact Hh].
  vm_compute in Ep. injection Ep as <-. discriminate Hh.
Defined.

(** ** The constructors *)

Lemma getBytes_hexlify (b : bytes) : getBytes (hexlify b) = Ok b.
Proof.
  unfold getBytes, hexlify.
  rewrite list_ascii_of_string_of_list_ascii, hex_pairs_hex_chars. reflexivity.
Qed.

(** The text of a type-123 payload is handed to the parser, and what the
    parser returns to the object branch. *)
Lemma Celo_create_payload {crypto : Crypto} {generic : Generic Celo.CeloTransactionLike}
  (rest : bytes) :
  Celo.createTransaction (Celo.FromString (hexlify (x7b :: rest)))
  = let* parsed := Celo.parseCip64 (x7b :: rest) in
    Celo.createTransaction (Celo.FromObject parsed).
Proof.
  unfold Celo.createTransaction.
  replace (String.eqb (hexlify (x7b :: rest)) "") with false by reflexivity.
  rewrite getBytes_hexlify. cbn [bind]. reflexivity.
Qed.

Lemma Plugin_create_payload {crypto : Crypto} {generic : Generic Plugin.PluginTransactionLike}
  (rest : bytes) :
  Plugin.create (Plugin.FromString (hexlify (x7b :: rest)))
  = let* parsed := Plugin.parseCip64 (x7b :: rest) in
    Plugin.create (Plugin.FromObject parsed).
Proof.
  unfold Plugin.create.
  replace (String.eqb (hexlify (x7b :: rest)) "") with false by reflexivity.
  rewrite getBytes_hexlify. cbn [bind]. reflexivity.
Qed.

(** One assignment of the constructor, with the record it yields put in
    normal form. *)
Ltac assign setter :=
  unfold setter;
  cbn [bind copy_present chainId nonce maxPriorityFeePerGas maxFeePerGas gasPrice
       gasLimit to value data accessList signature].

(** A signature that [Signature.from] accepts passes its setter
    unchanged. *)
Lemma copy_signature_accepted {crypto : Crypto} (sig : option Signature)
  (t : Transaction) :
  (forall s, sig = Some s ->
             acceptable_signature (sig_r s) (sig_s s) (sig_yParity s) = true) ->
  copy_present sig set_signature t
  = Ok (mkTransaction (chainId t) (nonce t) (maxPriorityFeePerGas t) (maxFeePerGas t)
          (gasPrice t) (gasLimit t) (to t) (value t) (data t) (accessList t)
          (copied sig (signature t))).
Proof.
  intros Hacc. destruct t as [c n mp mf gp gl t v d al s0].
  destruct sig as [[r s y]|]; [|reflexivity].
  cbn [copy_present]. unfold set_signature, Signature_from, assertArgument.
  cbn [sig_r sig_s sig_yParity]. specialize (Hacc _ eq_refl).
  cbn [sig_r sig_s sig_yParity] in Hacc. rewrite Hacc. reflexivity.
Qed.

(** The field set of the parser passes every setter unchanged. *)
Lemma copy_fields_decoded {crypto : Crypto} (b : TransactionLike) :
  decoded_fields b ->
  (forall s, tl_signature b = Some s -> valid_signature s) ->
  copy_fields b new_Transaction = Ok (fields_of b).
Proof.
  destruct b as [ty c n mp mf gp gl t v d al h sig]. unfold decoded_fields, fields_of.
  cbn [tl_type tl_chainId tl_nonce tl_maxPriorityFeePerGas tl_maxFeePerGas tl_gasPrice
       tl_gasLimit tl_to tl_value tl_data tl_accessList tl_hash tl_signature].
  intros (_ & -> & (c' & -> & _) & (n' & -> & Hn) & (mp' & -> & _) & (mf' & -> & _)
          & (gl' & -> & _) & (v' & -> & _) & (d' & ->) & Hto & (al' & -> & Hal)) Hsig.
  assert (En : (- MAX_SAFE_INTEGER <=? n') && (n' <=? MAX_SAFE_INTEGER) = true).
  { apply andb_true_iff. split; apply Z.leb_le; [|lia].
    assert (0 < MAX_SAFE_INTEGER) by reflexivity. lia. }
  unfold copy_fields, new_Transaction.
  cbn [tl_type tl_chainId tl_nonce tl_maxPriorityFeePerGas tl_maxFeePerGas tl_gasPrice
       tl_gasLimit tl_to tl_value tl_data tl_accessList tl_hash tl_signature].
  assert (Ht : copy_present t set_to
                 (mkTransaction (Some 0) (Some 0) None None None (Some 0) None (Some 0)
                    (Some []) None None)
               = Ok (mkTransaction (Some 0) (Some 0) None None None (Some 0) t (Some 0)
                       (Some []) None None)).
  { destruct t as [a|]; [|reflexivity]. assign @set_to. rewrite (Hto a eq_refl).
    reflexivity. }
  rewrite Ht. cbn [bind].
  assign set_nonce. rewrite En. cbn [assertArgument bind].
  assign set_gasLimit. assign set_maxPriorityFeePerGas. assign set_maxFeePerGas.
  assign set_data. assign set_value. assign set_chainId.
  rewrite copy_signature_accepted by (intros s Hs; now apply (Hsig s Hs)).
  cbn [bind chainId nonce maxPriorityFeePerGas maxFeePerGas gasPrice gasLimit to value
       data accessList signature].
  assign @set_accessList. rewrite Hal. cbn [bind].
  destruct sig; reflexivity.
Qed.

(** The signature of a parsed field set is one that the parser
    validated. *)
Lemma parsed_signature {crypto : Crypto} (raw : bytes) (b : TransactionLike)
  (fee : option string) :
  parse_common raw = Ok (b, fee) ->
  forall s, tl_signature b = Some s -> valid_signature s.
Proof.
  intros Hp s Hs. destruct (parse_common_valid raw b fee Hp) as (_ & _ & Hsig).
  destruct Hsig as [[_ Hn] | (_ & s' & Hs' & Hv)]; [congruence|].
  rewrite Hs in Hs'. now injection Hs' as <-.
Qed.

Lemma address_truthy {crypto : Crypto} (v : Nullable string) (a : string) :
  getAddress v = Ok a -> truthy (JsVal a) = true.
Proof.
  intros Ha. apply getAddress_inv in Ha as (s & d & _ & _ & ->). reflexivity.
Qed.

(** The object branch on a result of the parser that holds a fee
    currency. *)
Lemma Celo_create_decoded {crypto : Crypto} {generic : Generic Celo.CeloTransactionLike}
  (b : TransactionLike) (fee : string) :
  decoded_fields b -> (forall s, tl_signature b = Some s -> valid_signature s) ->
  getAddress (JsVal fee) = Ok fee ->
  Celo.createTransaction (Celo.FromObject (Celo.mkCeloTransactionLike b (JsVal fee)))
  = Ok (Celo.Cip64 (Celo.mkCip64Transaction (fields_of b) fee)).
Proof.
  intros Hb Hsig Hfee. unfold Celo.createTransaction, Celo.createFromObject.
  cbn [Celo.base Celo.tl_feeCurrency].
  rewrite (proj1 Hb), (address_truthy _ _ Hfee). cbn [Z.eqb Pos.eqb CIP_64_TYPE_NUMBER andb].
  replace (CIP_64_TYPE_NUMBER =? CIP_64_TYPE_NUMBER) with true by reflexivity.
  cbn [andb]. unfold Celo.set_feeCurrency. rewrite Hfee. cbn [bind].
  cbn [Celo.fields Celo.new_Cip64Transaction Celo.feeCurrency].
  rewrite (copy_fields_decoded b Hb Hsig). reflexivity.
Qed.

Lemma Plugin_create_decoded {crypto : Crypto} {generic : Generic Plugin.PluginTransactionLike}
  (b : TransactionLike) (fee : string) :
  decoded_fields b -> (forall s, tl_signature b = Some s -> valid_signature s) ->
  getAddress (JsVal fee) = Ok fee ->
  Plugin.create
    (Plugin.FromObject
       (Plugin.mkPluginTransactionLike b (Some (Plugin.mkCeloCustomData (JsVal fee)))))
  = Ok (Plugin.Cip64 (Plugin.mkCip64Transaction (fields_of b) (JsVal fee))).
Proof.
  intros Hb Hsig Hfee. unfold Plugin.create, Plugin.createFromObject.
  cbn [Plugin.base Plugin.customData Plugin.cd_feeCurrency].
  rewrite (proj1 Hb).
  replace (CIP_64_TYPE_NUMBER =? CIP_64_TYPE_NUMBER) with true by reflexivity.
  unfold Plugin.set_feeCurrency. rewrite Hfee. cbn [bind].
  cbn [Plugin.fields Plugin.new_Cip64Transaction Plugin.feeCurrency].
  rewrite (copy_fields_decoded b Hb Hsig). reflexivity.
Qed.

(** The object branch on whatever the parser returns. *)
Lemma Celo_create_parsed {crypto : Crypto} {generic : Generic Celo.CeloTransactionLike} (raw : bytes)
  (like : Celo.CeloTransactionLike) :
  Celo.parseCip64 raw = Ok like ->
  Celo.createTransaction (Celo.FromObject like)
  = match Celo.tl_feeCurrency like with
    | JsVal fee =>
        Ok (Celo.Cip64 (Celo.mkCip64Transaction (fields_of (Celo.base like)) fee))
    | _ => let* t := Transaction_from_object like in Ok (Celo.Delegated t)
    end.
Proof.
  intros Hp. rewrite Celo_parse_common in Hp.
  destruct (parse_common raw) as [[b fee]|] eqn:Ec; [|discriminate].
  cbn [bind fst snd] in Hp. injection Hp as <-.
  destruct (parse_common_valid _ b fee Ec) as (Hb & Hfee & _).
  pose proof (parsed_signature _ _ _ Ec) as Hsig.
  cbn [Celo.tl_feeCurrency Celo.base].
  destruct fee as [a|].
  - pose proof (Hfee a eq_refl) as Ha.
    replace (or_undefined (Some a)) with (JsVal a).
    + now apply Celo_create_decoded.
    + unfold or_undefined. now rewrite (address_truthy _ _ Ha).
  - cbn [or_undefined]. unfold Celo.createTransaction, Celo.createFromObject.
    cbn [Celo.tl_feeCurrency truthy]. rewrite andb_false_r. reflexivity.
Qed.

Lemma Plugin_create_parsed {crypto : Crypto} {generic : Generic Plugin.PluginTransactionLike} (raw : bytes)
  (like : Plugin.PluginTransactionLike) :
  Plugin.parseCip64 raw = Ok like ->
  Plugin.create (Plugin.FromObject like)
  = match Plugin.customData_feeCurrency (Plugin.customData like) with
    | JsVal fee =>
        Ok (Plugin.Cip64
              (Plugin.mkCip64Transaction (fields_of (Plugin.base like)) (JsVal fee)))
    | _ => Err (invalid_address JsNull)
    end.
Proof.
  intros Hp. rewrite Plugin_parse_common in Hp.
  destruct (parse_common raw) as [[b fee]|] eqn:Ec; [|discriminate].
  cbn [bind fst snd] in Hp. injection Hp as <-.
  destruct (parse_common_valid _ b fee Ec) as (Hb & Hfee & _).
  pose proof (parsed_signature _ _ _ Ec) as Hsig.
  cbn [Plugin.customData Plugin.base Plugin.customData_feeCurrency Plugin.cd_feeCurrency].
  destruct fee as [a|]; cbn [or_null].
  - apply Plugin_create_decoded; auto.
  - unfold Plugin.create, Plugin.createFromObject.
    cbn [Plugin.base Plugin.customData Plugin.cd_feeCurrency].
    rewrite (proj1 Hb).
    replace (CIP_64_TYPE_NUMBER =? CIP_64_TYPE_NUMBER) with true by reflexivity.
    reflexivity.
Qed.

(** X4. The constructors on the text of a type-123 payload.  If the
    parser rejects the payload, the constructor fails with the parser's
    error.  If the parser accepts it and it holds a fee currency, both
    constructors return a CIP-64 transaction holding exactly the parsed
    fields and that fee currency: no setter rejects or alters what the
    parser produced.  If the fee-currency element is empty, the
    standalone constructor calls the generic [Transaction.from] on the
    parsed object and ends as that call ends, with its transaction or
    with its error, while the plugin's constructor fails with the
    invalid-address error on [null] without calling it. *)
Theorem create_from_payload {crypto : Crypto}
  {celo_generic : Generic Celo.CeloTransactionLike}
  {plugin_generic : Generic Plugin.PluginTransactionLike} (rest : bytes) :
  let raw := x7b :: rest in
  (forall like,
     Celo.parseCip64 raw = Ok like ->
     Celo.createTransaction (Celo.FromString (hexlify raw))
     = match Celo.tl_feeCurrency like with
       | JsVal fee =>
           Ok (Celo.Cip64 (Celo.mkCip64Transaction (fields_of (Celo.base like)) fee))
       | _ => let* t := Transaction_from_object like in Ok (Celo.Delegated t)
       end)
  /\ (forall like,
        Plugin.parseCip64 raw = Ok like ->
        Plugin.create (Plugin.FromString (hexlify raw))
        = match Plugin.customData_feeCurrency (Plugin.customData like) with
          | JsVal fee =>
              Ok (Plugin.Cip64
                    (Plugin.mkCip64Transaction (fields_of (Plugin.base like)) (JsVal fee)))
          | _ => Err (invalid_address JsNull)
          end)
  /\ (forall e,
        Celo.parseCip64 raw = Err e ->
        Celo.createTransaction (Celo.FromString (hexlify raw)) = Err e)
  /\ (forall e,
        Plugin.parseCip64 raw = Err e ->
        Plugin.create (Plugin.FromString (hexlify raw)) = Err e).
Proof.
  intros raw. subst raw. repeat split.
  - intros like Hp. rewrite Celo_create_payload, Hp. cbn [bind].
    now apply (Celo_create_parsed (x7b :: rest)).
  - intros like Hp. rewrite Plugin_create_payload, Hp. cbn [bind].
    now apply (Plugin_create_parsed (x7b :: rest)).
  - intros e Hp. rewrite Celo_create_payload, Hp. reflexivity.
  - intros e Hp. rewrite Plugin_create_payload, Hp. reflexivity.
Qed.

Lemma create_from_payload_witness :
  (exists like,
     @Celo.parseCip64 sample_crypto sample_rich_payload = Ok like
     /\ @Celo.createTransaction sample_crypto sample_celo_generic
          (Celo.FromString (hexlify sample_rich_payload))
        = Ok (Celo.Cip64
                (Celo.mkCip64Transaction (fields_of (Celo.base like)) sample_feeCurrency)))
  /\ (exists like,
        @Plugin.parseCip64 sample_crypto (sample_payload 10) = Ok like
        /\ @Plugin.create sample_crypto sample_plugin_generic
             (Plugin.FromString (hexlify (sample_payload 10)))
           = Err (invalid_address JsNull))
  /\ (exists like,
        @Celo.parseCip64 sample_crypto (sample_payload 10) = Ok like
        /\ @Celo.createTransaction sample_crypto sample_celo_generic
             (Celo.FromString (hexlify (sample_payload 10)))
           = Err unsupported_type).
Proof.
  split; [|split].
  - destruct (@Celo.parseCip64 sample_crypto sample_rich_payload) as [like|] eqn:Ep;
      [|vm_compute in Ep; discriminate Ep].
    exists like. split; [reflexivity|].
    pose proof (proj1 (@create_from_payload sample_crypto sample_celo_generic
                         sample_plugin_generic (skipn 1 sample_rich_payload))
                  like Ep) as Hc.
    vm_compute in Ep. injection Ep as <-. exact Hc.
  - destruct (@Plugin.parseCip64 sample_crypto (sample_payload 10)) as [like|] eqn:Ep;
      [|vm_compute in Ep; discriminate Ep].
    exists like. split; [reflexivity|].
    pose proof (proj1 (proj2 (@create_from_payload sample_crypto sample_celo_generic
                                sample_plugin_generic (skipn 1 (sample_payload 10))))
                  like Ep) as Hc.
    vm_compute in Ep. injection Ep as <-. exact Hc.
  - destruct (@Celo.parseCip64 sample_crypto (sample_payload 10)) as [like|] eqn:Ep;
      [|vm_compute in Ep; discriminate Ep].
    exists like. split; [reflexivity|].
    pose proof (proj1 (@create_from_payload sample_crypto sample_celo_generic
                         sample_plugin_generic (skipn 1 (sample_payload 10)))
                  like Ep) as Hc.
    vm_compute in Ep. injection Ep as <-. exact Hc.
Defined.

(** ** Serializing what was parsed, parsing what was serialized *)

(** A field set of the parser's shape serializes, with its signature if
    it has one, to a type-123 payload that the parser maps back to it. *)
Lemma serialize_parse_common {crypto : Crypto} (b : TransactionLike) (fee : string) :
  decoded_fields b -> getAddress (JsVal fee) = Ok fee ->
  (forall sig, tl_signature b = Some sig -> valid_signature sig) ->
  exists rest,
    Plugin.serialize (Plugin.mkCip64Transaction (fields_of b) (JsVal fee))
      (tl_signature b) = Ok (x7b :: rest)
    /\ (Z.of_nat (length (x7b :: rest)) < 2 ^ 31 ->
        parse_common (x7b :: rest) = Ok (hashed_as b (x7b :: rest), Some fee)).
Proof.
  intros Hb Hfee Hsig.
  destruct b as [ty c n mp mf gp gl t v d al h sig]. unfold decoded_fields in Hb.
  unfold fields_of, hashed_as.
  cbn [tl_type tl_chainId tl_nonce tl_maxPriorityFeePerGas tl_maxFeePerGas tl_gasPrice
       tl_gasLimit tl_to tl_value tl_data tl_accessList tl_hash tl_signature] in *.
  destruct Hb as (-> & -> & (c' & -> & Hc) & (n' & -> & Hn) & (mp' & -> & Hmp)
                  & (mf' & -> & Hmf) & (gl' & -> & Hgl) & (v' & -> & Hv) & (d' & ->)
                  & Hto & (al' & -> & Hal)).
  set (tx := mkTransaction _ _ _ _ _ _ _ _ _ _ _).
  assert (Hn' : 0 <= n' <= BN_MAX_UINT).
  { assert (MAX_SAFE_INTEGER <= BN_MAX_UINT) by (vm_compute; discriminate). lia. }
  assert (Hok : is_ok (Plugin.serialize (Plugin.mkCip64Transaction tx (JsVal fee)) sig)
                = true).
  { apply Plugin_serialize_succeeds. split.
    - unfold serializable, uint256. subst tx.
      cbn [chainId nonce maxPriorityFeePerGas maxFeePerGas gasLimit value to accessList
           or_zero].
      repeat (split; [assumption|]). split; [|split].
      + intros a Ha. now rewrite (Hto a Ha).
      + intros al0 [= <-]. now rewrite Hal.
      + now rewrite Hfee.
    - destruct sig as [s|]; [|exact I]. cbn [serializable_signature].
      destruct (Hsig s eq_refl) as (_ & _ & Hy & _).
      assert (1 <= BN_MAX_UINT) by (vm_compute; discriminate). lia. }
  apply is_ok_inv in Hok as [out Hout].
  pose proof Hout as Hlay. apply Plugin_serialize_layout in Hlay as (fee' & Hf & Hlay).
  cbn [Plugin.feeCurrency Plugin.fields] in Hf, Hlay. injection Hf as <-.
  unfold payload in Hlay. exists (encodeRlp (RList (unsigned_fields tx fee
                                                  ++ optional_signature_fields sig))).
  rewrite <- Hlay. split; [exact Hout|]. intros Hsize.
  assert (Hdec : decodeRlp (skipn 1 out)
                 = Ok (RList (unsigned_fields tx fee ++ optional_signature_fields sig))).
  { rewrite Hlay. cbn [skipn]. apply decodeRlp_encodeRlp.
    rewrite Hlay in Hsize. cbn [length] in Hsize. rewrite Nat2Z.inj_succ in Hsize.
    assert (Hp : 2 ^ 31 <= 2 ^ 64) by (apply Z.pow_le_mono_r; lia). lia. }
  rewrite (parse_common_fields tx fee (optional_signature_fields sig) out); subst tx;
    cbn [chainId nonce maxPriorityFeePerGas maxFeePerGas gasLimit value to accessList
         data or_zero]; try assumption.
  - destruct sig as [s|]; cbn [optional_signature_fields signature_fields length Nat.eqb];
      [|reflexivity].
    destruct (Hsig s eq_refl) as (Hr & Hs & Hy & Hacc).
    unfold parseEipSignature.
    change [RBytes (be_bytes (sig_yParity s)); RBytes (be_bytes (be_value (sig_r s)));
            RBytes (be_bytes (be_value (sig_s s)))] with (signature_fields s).
    rewrite (eipSignature_signature_fields s Hr Hs Hy Hacc). reflexivity.
  - intros al0 [= <-]. exact Hal.
  - destruct sig as [s|]; [right|left]; reflexivity.
Qed.

(** The payload of a serializer is the text form of nothing but
    itself. *)
Lemma Celo_serialize_plugin {crypto : Crypto} (t : Transaction) (fee : string) :
  Celo.unsignedSerialized (Celo.mkCip64Transaction t fee)
  = Plugin.serialize (Plugin.mkCip64Transaction t (JsVal fee)) None
  /\ Plugin.unsignedSerialized (Plugin.mkCip64Transaction t (JsVal fee))
     = Plugin.serialize (Plugin.mkCip64Transaction t (JsVal fee)) None
  /\ (forall sig,
        signature t = Some sig ->
        Celo.serialized (Celo.mkCip64Transaction t fee)
        = Plugin.serialize (Plugin.mkCip64Transaction t (JsVal fee)) (Some sig)
        /\ Plugin.serialized (Plugin.mkCip64Transaction t (JsVal fee))
           = Plugin.serialize (Plugin.mkCip64Transaction t (JsVal fee)) (Some sig)).
Proof.
  split; [reflexivity|]. split; [reflexivity|]. intros sig Hs.
  unfold Celo.serialized, Plugin.serialized. cbn [Celo.fields Plugin.fields].
  rewrite Hs. split; reflexivity.
Qed.

Lemma serialize_ignores {crypto : Crypto} (c n mp mf gp gp' gl v : option Z)
  (t : option string) (d : option bytes) (al : option AccessList)
  (s s' sig : option Signature) (fee : Nullable string) :
  Plugin.serialize
    (Plugin.mkCip64Transaction (mkTransaction c n mp mf gp gl t v d al s) fee) sig
  = Plugin.serialize
      (Plugin.mkCip64Transaction (mkTransaction c n mp mf gp' gl t v d al s') fee) sig.
Proof. reflexivity. Qed.

(** The two constructors on the text of a payload that the common part
    of the parsers maps to a field set with a fee currency. *)
Lemma create_parse_common {crypto : Crypto}
  {celo_generic : Generic Celo.CeloTransactionLike}
  {plugin_generic : Generic Plugin.PluginTransactionLike}
  (rest : bytes) (b : TransactionLike) (fee : string) :
  parse_common (x7b :: rest) = Ok (b, Some fee) ->
  Celo.createTransaction (Celo.FromString (hexlify (x7b :: rest)))
  = Ok (Celo.Cip64 (Celo.mkCip64Transaction (fields_of b) fee))
  /\ Plugin.create (Plugin.FromString (hexlify (x7b :: rest)))
     = Ok (Plugin.Cip64 (Plugin.mkCip64Transaction (fields_of b) (JsVal fee))).
Proof.
  intros Hp. destruct (parse_common_valid _ b (Some fee) Hp) as (Hb & Hfee & _).
  pose proof (parsed_signature _ _ _ Hp) as Hsig.
  pose proof (Hfee fee eq_refl) as Ha. split.
  - rewrite Celo_create_payload, Celo_parse_common, Hp. cbn [bind fst snd].
    replace (or_undefined (Some fee)) with (JsVal fee).
    + now apply Celo_create_decoded.
    + unfold or_undefined. now rewrite (address_truthy _ _ Ha).
  - rewrite Plugin_create_payload, Plugin_parse_common, Hp. cbn [bind fst snd or_null].
    now apply Plugin_create_decoded.
Qed.

(** X5. A valid field set serializes unsigned, in both classes to the
    same payload, and each constructor given the text of that payload
    returns a CIP-64 transaction with the same fields and fee currency,
    without the gas price and the signature, which the unsigned payload
    does not hold.  (Payload shorter than 2^31 bytes.) *)
Theorem create_unsignedSerialized {crypto : Crypto}
  {celo_generic : Generic Celo.CeloTransactionLike}
  {plugin_generic : Generic Plugin.PluginTransactionLike}
  (c n mp mf gl v : Z) (gp : option Z) (t : option string) (d : bytes)
  (al : AccessList) (sig : option Signature) (fee : string) :
  0 <= c <= BN_MAX_UINT -> 0 <= n <= MAX_SAFE_INTEGER ->
  0 <= mp <= BN_MAX_UINT -> 0 <= mf <= BN_MAX_UINT ->
  0 <= gl <= BN_MAX_UINT -> 0 <= v <= BN_MAX_UINT ->
  (forall a, t = Some a -> getAddress (JsVal a) = Ok a) ->
  accessListify al = Ok al ->
  getAddress (JsVal fee) = Ok fee ->
  let tx := mkTransaction (Some c) (Some n) (Some mp) (Some mf) gp (Some gl) t (Some v)
              (Some d) (Some al) sig in
  let tx' := mkTransaction (Some c) (Some n) (Some mp) (Some mf) None (Some gl) t
               (Some v) (Some d) (Some al) None in
  exists out,
    Celo.unsignedSerialized (Celo.mkCip64Transaction tx fee) = Ok out
    /\ Plugin.unsignedSerialized (Plugin.mkCip64Transaction tx (JsVal fee)) = Ok out
    /\ (Z.of_nat (length out) < 2 ^ 31 ->
        Celo.createTransaction (Celo.FromString (hexlify out))
        = Ok (Celo.Cip64 (Celo.mkCip64Transaction tx' fee))
        /\ Plugin.create (Plugin.FromString (hexlify out))
           = Ok (Plugin.Cip64 (Plugin.mkCip64Transaction tx' (JsVal fee)))).
Proof.
  intros Hc Hn Hmp Hmf Hgl Hv Hto Hal Hfee tx tx'.
  set (b := mkTransactionLike (Some CIP_64_TYPE_NUMBER) (Some c) (Some n) (Some mp)
              (Some mf) None (Some gl) t (Some v) (Some d) (Some al) None None).
  assert (Hb : decoded_fields b).
  { unfold decoded_fields, b.
    cbn [tl_type tl_chainId tl_nonce tl_maxPriorityFeePerGas tl_maxFeePerGas tl_gasPrice
         tl_gasLimit tl_to tl_value tl_data tl_accessList].
    repeat split; eauto. }
  destruct (serialize_parse_common b fee Hb Hfee) as (rest & Hout & Hparse).
  { intros s Hs. discriminate Hs. }
  exists (x7b :: rest).
  destruct (Celo_serialize_plugin tx fee) as (-> & -> & _).
  assert (Hout' : Plugin.serialize (Plugin.mkCip64Transaction tx (JsVal fee)) None
                  = Ok (x7b :: rest)).
  { rewrite <- Hout. apply serialize_ignores. }
  split; [exact Hout'|]. split; [exact Hout'|]. intros Hsize.
  apply (create_parse_common rest b fee (Hparse Hsize)).
Qed.

Lemma create_unsignedSerialized_witness :
  @Celo.unsignedSerialized sample_crypto
    (Celo.mkCip64Transaction sample_rich_fields sample_feeCurrency)
  = Ok sample_rich_payload
  /\ @Plugin.create sample_crypto sample_plugin_generic
       (Plugin.FromString (hexlify sample_rich_payload))
     = Ok (Plugin.Cip64
             (Plugin.mkCip64Transaction
                (mkTransaction (Some 44787) (Some 7) (Some 2000000000) (Some 5000000000)
                   None (Some 21000) (Some sample_feeCurrency)
                   (Some 1000000000000000000) (Some [xde; xad; xbe; xef])
                   (Some sample_access_list) None)
                (JsVal sample_feeCurrency))).
Proof.
  destruct (@create_unsignedSerialized sample_crypto sample_celo_generic
              sample_plugin_generic 44787 7 2000000000 5000000000
              21000 1000000000000000000 None (Some sample_feeCurrency)
              [xde; xad; xbe; xef] sample_access_list None sample_feeCurrency)
    as (out & Hout & _ & Hcreate);
    try (split; discriminate); try reflexivity.
  - intros a [= <-]. reflexivity.
  - assert (out = sample_rich_payload) as ->.
    { vm_compute in Hout. injection Hout as <-. reflexivity. }
    split; [exact Hout|]. apply Hcreate. vm_compute. reflexivity.
Defined.

(** X6. A valid signed field set serializes, in both classes to the same
    payload; each constructor given the text of that payload returns a
    CIP-64 transaction with the same fields, fee currency and signature,
    without the gas price; and serializing that transaction gives the
    payload again.  (Payload shorter than 2^31 bytes.) *)
Theorem create_serialized {crypto : Crypto}
  {celo_generic : Generic Celo.CeloTransactionLike}
  {plugin_generic : Generic Plugin.PluginTransactionLike}
  (c n mp mf gl v : Z) (gp : option Z) (t : option string) (d : bytes)
  (al : AccessList) (sig : Signature) (fee : string) :
  0 <= c <= BN_MAX_UINT -> 0 <= n <= MAX_SAFE_INTEGER ->
  0 <= mp <= BN_MAX_UINT -> 0 <= mf <= BN_MAX_UINT ->
  0 <= gl <= BN_MAX_UINT -> 0 <= v <= BN_MAX_UINT ->
  (forall a, t = Some a -> getAddress (JsVal a) = Ok a) ->
  accessListify al = Ok al ->
  getAddress (JsVal fee) = Ok fee ->
  valid_signature sig ->
  let tx := mkTransaction (Some c) (Some n) (Some mp) (Some mf) gp (Some gl) t (Some v)
              (Some d) (Some al) (Some sig) in
  let tx' := mkTransaction (Some c) (Some n) (Some mp) (Some mf) None (Some gl) t
               (Some v) (Some d) (Some al) (Some sig) in
  exists out,
    Celo.serialized (Celo.mkCip64Transaction tx fee) = Ok out
    /\ Plugin.serialized (Plugin.mkCip64Transaction tx (JsVal fee)) = Ok out
    /\ (Z.of_nat (length out) < 2 ^ 31 ->
        Celo.createTransaction (Celo.FromString (hexlify out))
        = Ok (Celo.Cip64 (Celo.mkCip64Transaction tx' fee))
        /\ Plugin.create (Plugin.FromString (hexlify out))
           = Ok (Plugin.Cip64 (Plugin.mkCip64Transaction tx' (JsVal fee))))
    /\ Celo.serialized (Celo.mkCip64Transaction tx' fee) = Ok out
    /\ Plugin.serialized (Plugin.mkCip64Transaction tx' (JsVal fee)) = Ok out.
Proof.
  intros Hc Hn Hmp Hmf Hgl Hv Hto Hal Hfee Hsig tx tx'.
  set (b := mkTransactionLike (Some CIP_64_TYPE_NUMBER) (Some c) (Some n) (Some mp)
              (Some mf) None (Some gl) t (Some v) (Some d) (Some al) None (Some sig)).
  assert (Hb : decoded_fields b).
  { unfold decoded_fields, b.
    cbn [tl_type tl_chainId tl_nonce tl_maxPriorityFeePerGas tl_maxFeePerGas tl_gasPrice
         tl_gasLimit tl_to tl_value tl_data tl_accessList].
    repeat split; eauto. }
  destruct (serialize_parse_common b fee Hb Hfee) as (rest & Hout & Hparse).
  { intros s [= <-]. exact Hsig. }
  exists (x7b :: rest).
  destruct (Celo_serialize_plugin tx fee) as (_ & _ & Hs).
  destruct (Hs sig eq_refl) as [-> ->].
  destruct (Celo_serialize_plugin tx' fee) as (_ & _ & Hs').
  destruct (Hs' sig eq_refl) as [-> ->].
  assert (Hout' : Plugin.serialize (Plugin.mkCip64Transaction tx (JsVal fee)) (Some sig)
                  = Ok (x7b :: rest)).
  { rewrite <- Hout. apply serialize_ignores. }
  split; [exact Hout'|]. split; [exact Hout'|]. split; [|split; exact Hout].
  intros Hsize. apply (create_parse_common rest _ fee (Hparse Hsize)).
Qed.

Lemma create_serialized_witness :
  @Celo.serialized sample_crypto
    (Celo.mkCip64Transaction sample_signed_fields sample_feeCurrency)
  = Ok sample_signed_payload
  /\ @Celo.createTransaction sample_crypto sample_celo_generic
       (Celo.FromString (hexlify sample_signed_payload))
     = Ok (Celo.Cip64
             (Celo.mkCip64Transaction
                (mkTransaction (Some 44787) (Some 0) (Some 0) (Some 0) None (Some 0) None
                   (Some 0) (Some []) (Some []) (Some sample_signature))
                sample_feeCurrency)).
Proof.
  destruct (@create_serialized sample_crypto sample_celo_generic sample_plugin_generic
              44787 0 0 0 0 0 None None [] []
              sample_signature sample_feeCurrency)
    as (out & Hout & _ & Hcreate & _);
    try (split; discriminate); try reflexivity.
  - intros a Ha. discriminate Ha.
  - repeat split; try reflexivity. right. reflexivity.
  - assert (out = sample_signed_payload) as ->.
    { vm_compute in Hout. injection Hout as <-. reflexivity. }
    split; [exact Hout|]. apply Hcreate. vm_compute. reflexivity.
Defined.

(** X7. Serializing what was parsed.  From any payload that the
    standalone parser accepts with a fee currency, the constructor builds
    a transaction that serializes (signed if the payload was signed,
    unsigned otherwise), and parsing that serialization returns the
    parsed field set again, a signed one with the digest of the new
    payload as its hash.  (New payload shorter than 2^31 bytes.) *)
Theorem parse_create_serialize {crypto : Crypto}
  {generic : Generic Celo.CeloTransactionLike} (raw : bytes)
  (like : Celo.CeloTransactionLike) (fee : string) :
  Celo.parseCip64 raw = Ok like ->
  Celo.tl_feeCurrency like = JsVal fee ->
  exists tx out,
    Celo.createTransaction (Celo.FromObject like) = Ok (Celo.Cip64 tx)
    /\ match tl_signature (Celo.base like) with
       | Some _ => Celo.serialized tx
       | None => Celo.unsignedSerialized tx
       end = Ok out
    /\ (Z.of_nat (length out) < 2 ^ 31 ->
        Celo.parseCip64 out
        = Ok (Celo.mkCeloTransactionLike (hashed_as (Celo.base like) out) (JsVal fee)))
    /\ (tl_signature (Celo.base like) = None ->
        hashed_as (Celo.base like) out = Celo.base like).
Proof.
  intros Hp Hf. rewrite Celo_parse_common in Hp.
  destruct (parse_common raw) as [[b f]|] eqn:Ec; [|discriminate].
  cbn [bind fst snd] in Hp. injection Hp as <-.
  cbn [Celo.tl_feeCurrency Celo.base] in *.
  destruct (parse_common_valid raw b f Ec) as (Hb & Hfee & Hsig).
  assert (Ef : f = Some fee).
  { destruct f as [a|]; [|discriminate Hf]. unfold or_undefined in Hf.
    destruct (truthy (JsVal a)); [|discriminate Hf]. now injection Hf as ->. }
  subst f. pose proof (Hfee fee eq_refl) as Ha. rewrite Hf.
  destruct (serialize_parse_common b fee Hb Ha) as (rest & Hout & Hparse).
  { intros s Hs. destruct Hsig as [[_ Hn] | (_ & s' & Hs' & Hv)]; [congruence|].
    rewrite Hs in Hs'. now injection Hs' as <-. }
  exists (Celo.mkCip64Transaction (fields_of b) fee), (x7b :: rest).
  split; [apply Celo_create_decoded; auto; exact (parsed_signature _ _ _ Ec)|].
  destruct (Celo_serialize_plugin (fields_of b) fee) as (Hu & _ & Hs).
  split; [|split].
  - destruct (tl_signature b) as [s|] eqn:Es.
    + destruct (Hs s) as [-> _]; [unfold fields_of; cbn [signature]; exact Es|].
      exact Hout.
    + rewrite Hu. exact Hout.
  - intros Hsize. rewrite Celo_parse_common, (Hparse Hsize). cbn [bind fst snd].
    unfold or_undefined. now rewrite (address_truthy _ _ Ha).
  - intros Hn. destruct Hsig as [[Hh _] | (_ & s' & Hs' & _)]; [|congruence].
    destruct b as [ty c n mp mf gp gl t v d al h sig]. unfold hashed_as.
    cbn [tl_hash tl_signature] in *. subst. reflexivity.
Qed.

Lemma parse_create_serialize_witness :
  exists like tx,
    @Celo.parseCip64 sample_crypto sample_signed_payload = Ok like
    /\ @Celo.createTransaction sample_crypto sample_celo_generic (Celo.FromObject like)
       = Ok (Celo.Cip64 tx)
    /\ @Celo.serialized sample_crypto tx = Ok sample_signed_payload.
Proof.
  destruct (@Celo.parseCip64 sample_crypto sample_signed_payload) as [like|] eqn:Ep;
    [|vm_compute in Ep; discriminate Ep].
  destruct (@parse_create_serialize sample_crypto sample_celo_generic
              sample_signed_payload like
              sample_feeCurrency Ep)
    as (tx & out & Hc & Hs & _).
  { vm_compute in Ep. injection Ep as <-. reflexivity. }
  exists like, tx. split; [reflexivity|]. split; [exact Hc|].
  vm_compute in Ep. injection Ep as <-.
  cbn [Celo.base tl_signature] in Hs. rewrite Hs. f_equal.
  vm_compute in Hc. injection Hc as <-. vm_compute in Hs. now injection Hs as <-.
Defined.

(** ** The selective copy of the constructors *)

Ltac projections :=
  cbn [bind chainId nonce maxPriorityFeePerGas maxFeePerGas gasPrice gasLimit to value
       data accessList signature].

Ltac projections_in H :=
  cbn [bind chainId nonce maxPriorityFeePerGas maxFeePerGas gasPrice gasLimit to value
       data accessList signature] in H.

Lemma copy_gasLimit (f : option Z) (t : Transaction) :
  copy_present f set_gasLimit t
  = Ok (mkTransaction (chainId t) (nonce t) (maxPriorityFeePerGas t) (maxFeePerGas t)
          (gasPrice t) (copied f (gasLimit t)) (to t) (value t) (data t) (accessList t)
          (signature t)).
Proof. destruct t, f; reflexivity. Qed.

Lemma copy_gasPrice (f : option Z) (t : Transaction) :
  copy_present f set_gasPrice t
  = Ok (mkTransaction (chainId t) (nonce t) (maxPriorityFeePerGas t) (maxFeePerGas t)
          (copied f (gasPrice t)) (gasLimit t) (to t) (value t) (data t) (accessList t)
          (signature t)).
Proof. destruct t, f; reflexivity. Qed.

Lemma copy_maxPriorityFeePerGas (f : option Z) (t : Transaction) :
  copy_present f set_maxPriorityFeePerGas t
  = Ok (mkTransaction (chainId t) (nonce t) (copied f (maxPriorityFeePerGas t))
          (maxFeePerGas t) (gasPrice t) (gasLimit t) (to t) (value t) (data t)
          (accessList t) (signature t)).
Proof. destruct t, f; reflexivity. Qed.

Lemma copy_maxFeePerGas (f : option Z) (t : Transaction) :
  copy_present f set_maxFeePerGas t
  = Ok (mkTransaction (chainId t) (nonce t) (maxPriorityFeePerGas t)
          (copied f (maxFeePerGas t)) (gasPrice t) (gasLimit t) (to t) (value t) (data t)
          (accessList t) (signature t)).
Proof. destruct t, f; reflexivity. Qed.

Lemma copy_data (f : option bytes) (t : Transaction) :
  copy_present f set_data t
  = Ok (mkTransaction (chainId t) (nonce t) (maxPriorityFeePerGas t) (maxFeePerGas t)
          (gasPrice t) (gasLimit t) (to t) (value t) (copied f (data t)) (accessList t)
          (signature t)).
Proof. destruct t, f; reflexivity. Qed.

Lemma copy_value (f : option Z) (t : Transaction) :
  copy_present f set_value t
  = Ok (mkTransaction (chainId t) (nonce t) (maxPriorityFeePerGas t) (maxFeePerGas t)
          (gasPrice t) (gasLimit t) (to t) (copied f (value t)) (data t) (accessList t)
          (signature t)).
Proof. destruct t, f; reflexivity. Qed.

Lemma copy_chainId (f : option Z) (t : Transaction) :
  copy_present f set_chainId t
  = Ok (mkTransaction (copied f (chainId t)) (nonce t) (maxPriorityFeePerGas t)
          (maxFeePerGas t) (gasPrice t) (gasLimit t) (to t) (value t) (data t)
          (accessList t) (signature t)).
Proof. destruct t, f; reflexivity. Qed.

(** The four assignments that can fail. *)
Lemma copy_signature {crypto : Crypto} (f : option Signature) (t t' : Transaction) :
  copy_present f set_signature t = Ok t'
  <-> (forall sig, f = Some sig ->
                   acceptable_signature (sig_r sig) (sig_s sig) (sig_yParity sig) = true)
      /\ t' = mkTransaction (chainId t) (nonce t) (maxPriorityFeePerGas t)
                (maxFeePerGas t) (gasPrice t) (gasLimit t) (to t) (value t) (data t)
                (accessList t) (copied f (signature t)).
Proof.
  destruct t as [c n mp mf gp gl t v d al s0].
  destruct f as [[r s y]|]; cbn [copy_present copied].
  - unfold set_signature, Signature_from, assertArgument.
    cbn [sig_r sig_s sig_yParity]. projections. split.
    + destruct (acceptable_signature r s y) eqn:E; cbn [bind]; [|discriminate].
      intros [= <-]. split; [|reflexivity]. now intros sig [= <-].
    + intros [Ha ->]. specialize (Ha _ eq_refl). cbn [sig_r sig_s sig_yParity] in Ha.
      rewrite Ha. reflexivity.
  - projections. split.
    + intros [= <-]. split; [discriminate|reflexivity].
    + intros [_ ->]. reflexivity.
Qed.

Lemma copy_to {crypto : Crypto} (f : option string) (t t' : Transaction) :
  copy_present f set_to t = Ok t'
  <-> exists r,
        match f with
        | Some v => exists a, getAddress (JsVal v) = Ok a /\ r = Some a
        | None => r = to t
        end
        /\ t' = mkTransaction (chainId t) (nonce t) (maxPriorityFeePerGas t)
                  (maxFeePerGas t) (gasPrice t) (gasLimit t) r (value t) (data t)
                  (accessList t) (signature t).
Proof.
  destruct t as [c n mp mf gp gl t v d al s]. destruct f as [x|]; cbn [copy_present].
  - unfold set_to. projections. split.
    + intros Hs. bind_ok Hs as a Ea. injection Hs as <-. eauto.
    + intros (r & (a & Ea & ->) & ->). rewrite Ea. reflexivity.
  - projections. split.
    + intros [= <-]. eauto.
    + intros (r & -> & ->). reflexivity.
Qed.

Lemma copy_nonce (f : option Z) (t t' : Transaction) :
  copy_present f set_nonce t = Ok t'
  <-> (forall n, f = Some n -> - MAX_SAFE_INTEGER <= n <= MAX_SAFE_INTEGER)
      /\ t' = mkTransaction (chainId t) (copied f (nonce t)) (maxPriorityFeePerGas t)
                (maxFeePerGas t) (gasPrice t) (gasLimit t) (to t) (value t) (data t)
                (accessList t) (signature t).
Proof.
  destruct t as [c n mp mf gp gl t v d al s]. destruct f as [x|]; cbn [copy_present copied].
  - unfold set_nonce, assertArgument. projections. split.
    + destruct (_ && _) eqn:E; cbn [bind]; [|discriminate]. intros [= <-].
      split; [|reflexivity]. intros n' [= <-].
      apply andb_true_iff in E as [E1 E2]. apply Z.leb_le in E1, E2. lia.
    + intros [Hr ->]. specialize (Hr x eq_refl).
      replace ((- MAX_SAFE_INTEGER <=? x) && (x <=? MAX_SAFE_INTEGER)) with true;
        [reflexivity|].
      symmetry. apply andb_true_iff. split; apply Z.leb_le; lia.
  - projections. split.
    + intros [= <-]. split; [discriminate|reflexivity].
    + intros [_ ->]. reflexivity.
Qed.

Lemma copy_accessList {crypto : Crypto} (f : option AccessList) (t t' : Transaction) :
  copy_present f set_accessList t = Ok t'
  <-> exists r,
        match f with
        | Some v => exists l, accessListify v = Ok l /\ r = Some l
        | None => r = accessList t
        end
        /\ t' = mkTransaction (chainId t) (nonce t) (maxPriorityFeePerGas t)
                  (maxFeePerGas t) (gasPrice t) (gasLimit t) (to t) (value t) (data t)
                  r (signature t).
Proof.
  destruct t as [c n mp mf gp gl t v d al s]. destruct f as [x|]; cbn [copy_present].
  - unfold set_accessList. projections. split.
    + intros Hs. bind_ok Hs as l El. injection Hs as <-. eauto.
    + intros (r & (l & El & ->) & ->). rewrite El. reflexivity.
  - projections. split.
    + intros [= <-]. eauto.
    + intros (r & -> & ->). reflexivity.
Qed.

(** The eleven assignments together. *)
Lemma copy_fields_spec {crypto : Crypto} (from : TransactionLike) (t t' : Transaction) :
  copy_fields from t = Ok t' <-> selective_copy from t t'.
Proof.
  unfold copy_fields, selective_copy. split.
  - intros Hc. bind_ok Hc as t1 E1. apply copy_to in E1 as (r & Hr & ->).
    bind_ok Hc as t2 E2. apply copy_nonce in E2 as (Hn & ->). projections_in Hc.
    rewrite copy_gasLimit in Hc. projections_in Hc.
    rewrite copy_gasPrice in Hc. projections_in Hc.
    rewrite copy_maxPriorityFeePerGas in Hc. projections_in Hc.
    rewrite copy_maxFeePerGas in Hc. projections_in Hc.
    rewrite copy_data in Hc. projections_in Hc.
    rewrite copy_value in Hc. projections_in Hc.
    rewrite copy_chainId in Hc. projections_in Hc.
    bind_ok Hc as t3 E3. apply copy_signature in E3 as (Hsig & ->). projections_in Hc.
    apply copy_accessList in Hc as (r' & Hr' & ->). projections.
    split; [|split; [exact Hn|]].
    + destruct (tl_to from); [|exact Hr]. destruct Hr as (a & Ha & ->). eauto.
    + repeat (split; [reflexivity|]). split; [exact Hsig|]. split; [reflexivity|].
      destruct (tl_accessList from); [|exact Hr']. destruct Hr' as (lst & Hl & ->). eauto.
  - intros (Hto & Hn & En & Egl & Egp & Emp & Emf & Ed & Ev & Ec & Hsig & Es & Hal).
    destruct t' as [c' n' mp' mf' gp' gl' t0' v' d' al' s'].
    cbn [chainId nonce maxPriorityFeePerGas maxFeePerGas gasPrice gasLimit to value
         data accessList signature] in *.
    subst.
    destruct (copy_present (tl_to from) set_to t) as [t1|e] eqn:E1.
    2:{ exfalso. assert (Hx : exists t1, copy_present (tl_to from) set_to t = Ok t1).
        { eexists. apply copy_to. exists t0'. split; [|reflexivity].
          destruct (tl_to from); [|exact Hto]. destruct Hto as (a & Ha & [= ->]). eauto. }
        destruct Hx as [t1 Hx]. congruence. }
    apply copy_to in E1 as (r & Hr & ->).
    assert (r = t0') as ->.
    { destruct (tl_to from); [|congruence]. destruct Hr as (a & Ha & ->).
      destruct Hto as (a' & Ha' & ->). congruence. }
    cbn [bind].
    rewrite (proj2 (copy_nonce (tl_nonce from) _ _) (conj Hn eq_refl)). projections.
    rewrite copy_gasLimit. projections. rewrite copy_gasPrice. projections.
    rewrite copy_maxPriorityFeePerGas. projections.
    rewrite copy_maxFeePerGas. projections.
    rewrite copy_data. projections. rewrite copy_value. projections.
    rewrite copy_chainId. projections.
    rewrite (proj2 (copy_signature (tl_signature from) _ _) (conj Hsig eq_refl)).
    projections.
    apply copy_accessList. exists al'. split; [|reflexivity]. projections.
    destruct (tl_accessList from); [|exact Hal]. destruct Hal as (lst & Hl & [= ->]). eauto.
Qed.

(** The object branch of the standalone constructor. *)
Lemma Celo_create_object {crypto : Crypto} {generic : Generic Celo.CeloTransactionLike}
  (o : Celo.CeloTransactionLike) (tx : Celo.Cip64Transaction) :
  Celo.createTransaction (Celo.FromObject o) = Ok (Celo.Cip64 tx)
  <-> tl_type (Celo.base o) = Some CIP_64_TYPE_NUMBER
      /\ truthy (Celo.tl_feeCurrency o) = true
      /\ getAddress (Celo.tl_feeCurrency o) = Ok (Celo.feeCurrency tx)
      /\ selective_copy (Celo.base o) new_Transaction (Celo.fields tx).
Proof.
  unfold Celo.createTransaction, Celo.createFromObject, Celo.set_feeCurrency.
  cbn [Celo.fields Celo.new_Cip64Transaction]. split.
  + destruct (tl_type (Celo.base o)) as [ty|]; cbn [andb]; [|destruct (Transaction_from_object _); discriminate].
    destruct (ty =? CIP_64_TYPE_NUMBER) eqn:Ety; cbn [andb]; [|destruct (Transaction_from_object _); discriminate].
    destruct (truthy (Celo.tl_feeCurrency o)); [|destruct (Transaction_from_object _); discriminate].
    intros Hc. bind_ok Hc as this Ea. bind_ok Ea as a Ea'. injection Ea as <-.
    bind_ok Hc as t Et. injection Hc as <-.
    cbn [Celo.fields Celo.feeCurrency] in *.
    apply Z.eqb_eq in Ety as ->. split; [reflexivity|]. split; [reflexivity|].
    split; [reflexivity|]. now apply copy_fields_spec.
  + intros (Hty & Htr & Ha & Hcopy). rewrite Hty, Htr, Ha.
    replace (CIP_64_TYPE_NUMBER =? CIP_64_TYPE_NUMBER) with true by reflexivity.
    cbn [andb bind Celo.fields Celo.feeCurrency].
    rewrite (proj2 (copy_fields_spec _ _ _) Hcopy). destruct tx. reflexivity.
Qed.

(** The object branch of the plugin's constructor. *)
Lemma Plugin_create_object {crypto : Crypto} {generic : Generic Plugin.PluginTransactionLike}
  (o : Plugin.PluginTransactionLike) (tx : Plugin.Cip64Transaction) :
  Plugin.create (Plugin.FromObject o) = Ok (Plugin.Cip64 tx)
  <-> tl_type (Plugin.base o) = Some CIP_64_TYPE_NUMBER
      /\ (exists cd a,
            Plugin.customData o = Some cd
            /\ getAddress (Plugin.cd_feeCurrency cd) = Ok a
            /\ Plugin.feeCurrency tx = JsVal a)
      /\ selective_copy (Plugin.base o) new_Transaction (Plugin.fields tx).
Proof.
  unfold Plugin.create, Plugin.createFromObject, Plugin.set_feeCurrency.
  cbn [Plugin.fields Plugin.new_Cip64Transaction]. split.
  + destruct (tl_type (Plugin.base o)) as [ty|]; [|destruct (Transaction_from_object _); discriminate].
    destruct (Plugin.customData o) as [cd|]; [|destruct (Transaction_from_object _); discriminate].
    destruct (ty =? CIP_64_TYPE_NUMBER) eqn:Ety; [|destruct (Transaction_from_object _); discriminate].
    intros Hc. bind_ok Hc as this Ea. bind_ok Ea as a Ea'. injection Ea as <-.
    bind_ok Hc as t Et. injection Hc as <-.
    cbn [Plugin.fields Plugin.feeCurrency] in *.
    apply Z.eqb_eq in Ety as ->. split; [reflexivity|]. split; [eauto|].
    now apply copy_fields_spec.
  + intros (Hty & (cd & a & Hcd & Ha & Hf) & Hcopy). rewrite Hty, Hcd.
    replace (CIP_64_TYPE_NUMBER =? CIP_64_TYPE_NUMBER) with true by reflexivity.
    rewrite Ha. cbn [bind Plugin.fields Plugin.feeCurrency].
    rewrite (proj2 (copy_fields_spec _ _ _) Hcopy). destruct tx as [t f].
    cbn [Plugin.feeCurrency] in Hf. subst f. reflexivity.
Qed.

(** X8. The selective copy, in both variants.  The constructor returns a
    CIP-64 transaction for an object exactly when the object has type 123
    and a fee currency that is an address (a non-empty one in the
    standalone variant, the one of a present [customData] in the plugin)
    and its recipient, if present, is an address, its nonce, if present,
    a safe integer, its signature, if present, one that [Signature.from]
    accepts, and its access list, if present, a valid one; the
    transaction then holds the normalized fee currency, every field that
    is present in the object (recipient normalized, access list
    validated), and for every field that is absent the default of a new
    transaction. *)
Theorem create_copies_present_fields {crypto : Crypto}
  {celo_generic : Generic Celo.CeloTransactionLike}
  {plugin_generic : Generic Plugin.PluginTransactionLike} :
  (forall (o : Celo.CeloTransactionLike) (tx : Celo.Cip64Transaction),
     Celo.createTransaction (Celo.FromObject o) = Ok (Celo.Cip64 tx)
     <-> tl_type (Celo.base o) = Some CIP_64_TYPE_NUMBER
         /\ truthy (Celo.tl_feeCurrency o) = true
         /\ getAddress (Celo.tl_feeCurrency o) = Ok (Celo.feeCurrency tx)
         /\ selective_copy (Celo.base o) new_Transaction (Celo.fields tx))
  /\ (forall (o : Plugin.PluginTransactionLike) (tx : Plugin.Cip64Transaction),
        Plugin.create (Plugin.FromObject o) = Ok (Plugin.Cip64 tx)
        <-> tl_type (Plugin.base o) = Some CIP_64_TYPE_NUMBER
            /\ (exists cd a,
                  Plugin.customData o = Some cd
                  /\ getAddress (Plugin.cd_feeCurrency cd) = Ok a
                  /\ Plugin.feeCurrency tx = JsVal a)
            /\ selective_copy (Plugin.base o) new_Transaction (Plugin.fields tx))
  /\ (forall (from : TransactionLike) (t t' : Transaction) (sig : Signature),
        selective_copy from t t' -> tl_signature from = Some sig ->
        Signature_from (sig_r sig) (sig_s sig) (sig_yParity sig) = Ok sig
        /\ signature t' = Some sig).
Proof.
  split; [intros o tx; apply Celo_create_object|].
  split; [intros o tx; apply Plugin_create_object|].
  intros from t t' [r s y] (_ & _ & _ & _ & _ & _ & _ & _ & _ & _ & Hsig & Es & _) Hs.
  specialize (Hsig _ Hs). cbn [sig_r sig_s sig_yParity] in *.
  unfold Signature_from, assertArgument. rewrite Hsig, Es, Hs. split; reflexivity.
Qed.

Lemma create_copies_present_fields_witness :
  (exists tx,
     @Plugin.create sample_crypto sample_plugin_generic
       (Plugin.FromObject
          (Plugin.mkPluginTransactionLike sample_like
             (Some (Plugin.mkCeloCustomData (JsVal sample_feeCurrency)))))
     = Ok (Plugin.Cip64 tx)
     /\ chainId (Plugin.fields tx) = Some 44787
     /\ gasLimit (Plugin.fields tx) = Some 0)
  /\ ~ (exists tx,
          @Celo.createTransaction sample_crypto sample_celo_generic
            (Celo.FromObject
               (Celo.mkCeloTransactionLike (with_signature sample_like high_s_signature)
                  (JsVal sample_feeCurrency)))
          = Ok (Celo.Cip64 tx)).
Proof.
  split.
  - destruct (@Plugin.create sample_crypto sample_plugin_generic
                (Plugin.FromObject
                   (Plugin.mkPluginTransactionLike sample_like
                      (Some (Plugin.mkCeloCustomData (JsVal sample_feeCurrency))))))
      as [[|tx|]|] eqn:Ec; try (vm_compute in Ec; discriminate Ec).
    exists tx. split; [reflexivity|].
    destruct (proj1 (proj1 (proj2 (@create_copies_present_fields sample_crypto
                                     sample_celo_generic sample_plugin_generic)) _ tx) Ec)
      as (_ & _ & Hcopy).
    destruct Hcopy as (_ & _ & _ & Hgl & _ & _ & _ & _ & _ & Hc & _).
    split; [exact Hc|exact Hgl].
  - intros [tx Hc].
    apply (proj1 (@create_copies_present_fields sample_crypto sample_celo_generic
                    sample_plugin_generic)) in Hc as (_ & _ & _ & Hcopy).
    destruct Hcopy as (_ & _ & _ & _ & _ & _ & _ & _ & _ & _ & Hsig & _).
    specialize (Hsig high_s_signature eq_refl). vm_compute in Hsig. discriminate Hsig.
Defined.

(** ** What the constructors hand to the serializer *)

Lemma check_slots_fixed (ks : list bytes) :
  forall index ks', check_slots index ks = Ok ks' ->
                    forall j, check_slots j ks' = Ok ks'.
Proof.
  induction ks as [|k ks IH]; intros index ks' Hc j.
  - injection Hc as <-. reflexivity.
  - cbn [check_slots] in Hc. unfold assertArgument in Hc.
    destruct (Nat.eqb (length k) 32) eqn:El; cbn [bind] in Hc; [|discriminate].
    bind_ok Hc as others Eo. injection Hc as <-.
    cbn [check_slots]. unfold assertArgument. rewrite El. cbn [bind].
    rewrite (IH _ _ Eo (S j)). reflexivity.
Qed.

(** Validating a validated access list changes nothing. *)
Lemma accessListify_idempotent {crypto : Crypto} (v lst : AccessList) :
  accessListify v = Ok lst -> accessListify lst = Ok lst.
Proof.
  unfold accessListify. revert lst.
  induction v as [|x v IH]; intros lst Hm.
  - injection Hm as <-. reflexivity.
  - cbn [mapM] in Hm. bind_ok Hm as y Ey. bind_ok Hm as ys Eys. injection Hm as <-.
    cbn [mapM]. rewrite (IH ys eq_refl).
    unfold accessSetify in Ey. bind_ok Ey as a Ea. bind_ok Ey as ks Ek.
    injection Ey as <-. cbn [address storageKeys]. unfold accessSetify.
    rewrite (getAddress_normalized _ _ Ea). cbn [bind].
    rewrite (check_slots_fixed _ _ _ Ek 0). reflexivity.
Qed.

(** A transaction that a constructor built went through its object
    branch. *)
Lemma Celo_create_inv {crypto : Crypto} {generic : Generic Celo.CeloTransactionLike}
  (from : Celo.CreateInput)
  (tx : Celo.Cip64Transaction) :
  (forall t, from <> Celo.FromInstance t) ->
  Celo.createTransaction from = Ok (Celo.Cip64 tx) ->
  exists o, Celo.createTransaction (Celo.FromObject o) = Ok (Celo.Cip64 tx).
Proof.
  intros Hni Hc. destruct from as [|t|s|o].
  - discriminate Hc.
  - now destruct (Hni t).
  - unfold Celo.createTransaction in Hc.
    destruct (String.eqb s ""); [discriminate Hc|].
    bind_ok Hc as contents Eb.
    destruct contents as [|b rest];
      [destruct (Transaction_from_text _); discriminate Hc|].
    destruct (Z_of_byte b =? CIP_64_TYPE_NUMBER);
      [|destruct (Transaction_from_text _); discriminate Hc].
    bind_ok Hc as parsed Ep. exists parsed. exact Hc.
  - eauto.
Qed.

Lemma Plugin_create_inv {crypto : Crypto}
  {generic : Generic Plugin.PluginTransactionLike} (from : Plugin.CreateInput)
  (tx : Plugin.Cip64Transaction) :
  (forall t, from <> Plugin.FromInstance t) ->
  Plugin.create from = Ok (Plugin.Cip64 tx) ->
  exists o, Plugin.create (Plugin.FromObject o) = Ok (Plugin.Cip64 tx).
Proof.
  intros Hni Hc. destruct from as [|t|s|o].
  - discriminate Hc.
  - now destruct (Hni t).
  - unfold Plugin.create in Hc.
    destruct (String.eqb s ""); [discriminate Hc|].
    bind_ok Hc as contents Eb.
    destruct contents as [|b rest];
      [destruct (Transaction_from_text _); discriminate Hc|].
    destruct (Z_of_byte b =? CIP_64_TYPE_NUMBER);
      [|destruct (Transaction_from_text _); discriminate Hc].
    bind_ok Hc as parsed Ep. exists parsed. exact Hc.
  - eauto.
Qed.

(** The fields that the selective copy stores are such that only a
    number out of range can make the serializer fail. *)
Lemma copied_serializable {crypto : Crypto} (from : TransactionLike) (t : Transaction)
  (fee : string) :
  selective_copy from new_Transaction t -> getAddress (JsVal fee) = Ok fee ->
  serializable t (JsVal fee) <-> numbers_fit t.
Proof.
  intros (Hto & _ & _ & _ & _ & _ & _ & _ & _ & _ & _ & _ & Hal) Hfee.
  unfold serializable, numbers_fit. split.
  - intros (H1 & H2 & H3 & H4 & H5 & H6 & _). auto 10.
  - intros (H1 & H2 & H3 & H4 & H5 & H6). repeat (split; [assumption|]).
    split; [|split].
    + intros a Ha. destruct (tl_to from) as [x|].
      * destruct Hto as (a' & Ha' & Et). rewrite Et in Ha. injection Ha as <-.
        now rewrite (getAddress_normalized _ _ Ha').
      * rewrite Hto in Ha. discriminate Ha.
    + intros al Ha. destruct (tl_accessList from) as [x|].
      * destruct Hal as (lst & Hl & Et). rewrite Et in Ha. injection Ha as <-.
        now rewrite (accessListify_idempotent _ _ Hl).
      * rewrite Hal in Ha. discriminate Ha.
    + now rewrite Hfee.
Qed.

(** X9. A CIP-64 transaction that a constructor built (from an object or
    from the text of a payload, as opposed to an instance it was handed)
    holds a normalized fee currency, and its unsigned serialization
    succeeds exactly when its six numeric fields fit 256 bits: the
    recipient, the access list and the fee currency, which the setters
    validated, cannot make it fail.  Both variants. *)
Theorem created_serializes {crypto : Crypto}
  {celo_generic : Generic Celo.CeloTransactionLike}
  {plugin_generic : Generic Plugin.PluginTransactionLike} :
  (forall from tx,
     (forall t, from <> Celo.FromInstance t) ->
     Celo.createTransaction from = Ok (Celo.Cip64 tx) ->
     getAddress (JsVal (Celo.feeCurrency tx)) = Ok (Celo.feeCurrency tx)
     /\ (is_ok (Celo.unsignedSerialized tx) = true <-> numbers_fit (Celo.fields tx)))
  /\ (forall from tx,
        (forall t, from <> Plugin.FromInstance t) ->
        Plugin.create from = Ok (Plugin.Cip64 tx) ->
        (exists fee, Plugin.feeCurrency tx = JsVal fee /\ getAddress (JsVal fee) = Ok fee)
        /\ (is_ok (Plugin.unsignedSerialized tx) = true
            <-> numbers_fit (Plugin.fields tx))).
Proof.
  split; intros from tx Hni Hc.
  - apply Celo_create_inv in Hc as [o Hc]; [|exact Hni].
    apply Celo_create_object in Hc as (_ & _ & Ha & Hcopy).
    apply getAddress_normalized in Ha. split; [exact Ha|].
    destruct tx as [t fee]. cbn [Celo.fields Celo.feeCurrency] in *.
    unfold Celo.unsignedSerialized. rewrite serialize_variants.
    rewrite Plugin_serialize_succeeds, <- (copied_serializable _ t fee Hcopy Ha).
    cbn [serializable_signature]. tauto.
  - apply Plugin_create_inv in Hc as [o Hc]; [|exact Hni].
    apply Plugin_create_object in Hc as (_ & (cd & a & _ & Ha & Hf) & Hcopy).
    apply getAddress_normalized in Ha. split; [eauto|].
    destruct tx as [t fc]. cbn [Plugin.fields Plugin.feeCurrency] in *. subst fc.
    unfold Plugin.unsignedSerialized.
    rewrite Plugin_serialize_succeeds, <- (copied_serializable _ t a Hcopy Ha).
    cbn [serializable_signature]. tauto.
Qed.

Lemma created_serializes_witness :
  exists tx,
    @Celo.createTransaction sample_crypto sample_celo_generic
      (Celo.FromString (hexlify sample_rich_payload))
    = Ok (Celo.Cip64 tx)
    /\ @getAddress sample_crypto (JsVal (Celo.feeCurrency tx)) = Ok (Celo.feeCurrency tx).
Proof.
  destruct (@Celo.createTransaction sample_crypto sample_celo_generic
              (Celo.FromString (hexlify sample_rich_payload)))
    as [[|tx|]|] eqn:Ec; try (vm_compute in Ec; discriminate Ec).
  exists tx. split; [reflexivity|].
  apply (proj1 (@created_serializes sample_crypto sample_celo_generic
                  sample_plugin_generic)
           (Celo.FromString (hexlify sample_rich_payload)) tx); [discriminate|exact Ec].
Defined.

(** ** The fee-currency setter *)

(** X10. The setter of the fee currency stores a fixed point of the
    normalizer and touches no other field; assigning the stored value
    again, or assigning the same value twice, changes nothing more; and
    the setter fails exactly when the value is not an address, with the
    normalizer's error.  Both classes. *)
Theorem set_feeCurrency_idempotent {crypto : Crypto} (v : Nullable string) :
  (forall this this',
     Celo.set_feeCurrency this v = Ok this' ->
     Celo.fields this' = Celo.fields this
     /\ Celo.set_feeCurrency this' (JsVal (Celo.feeCurrency this')) = Ok this'
     /\ Celo.set_feeCurrency this' v = Ok this')
  /\ (forall this this',
        Plugin.set_feeCurrency this v = Ok this' ->
        Plugin.fields this' = Plugin.fields this
        /\ Plugin.set_feeCurrency this' (Plugin.feeCurrency this') = Ok this'
        /\ Plugin.set_feeCurrency this' v = Ok this')
  /\ (forall this e, Celo.set_feeCurrency this v = Err e <-> getAddress v = Err e)
  /\ (forall this e, Plugin.set_feeCurrency this v = Err e <-> getAddress v = Err e).
Proof.
  unfold Celo.set_feeCurrency, Plugin.set_feeCurrency. repeat split.
  - bind_ok H as a Ea. now injection H as <-.
  - bind_ok H as a Ea. injection H as <-. cbn [Celo.feeCurrency Celo.fields].
    rewrite (getAddress_normalized _ _ Ea). reflexivity.
  - bind_ok H as a Ea. injection H as <-. reflexivity.
  - bind_ok H as a Ea. now injection H as <-.
  - bind_ok H as a Ea. injection H as <-. cbn [Plugin.feeCurrency Plugin.fields].
    rewrite (getAddress_normalized _ _ Ea). reflexivity.
  - bind_ok H as a Ea. injection H as <-. reflexivity.
  - destruct (getAddress v); cbn [bind]; [discriminate|]. now intros [= <-].
  - intros ->. reflexivity.
  - destruct (getAddress v); cbn [bind]; [discriminate|]. now intros [= <-].
  - intros ->. reflexivity.
Qed.

Lemma set_feeCurrency_idempotent_witness :
  exists this',
    @Celo.set_feeCurrency sample_crypto Celo.new_Cip64Transaction
      (JsVal "0x874069fa1eb16d44d622f2e0ca25eea172369bc1") = Ok this'
    /\ Celo.fields this' = new_Transaction
    /\ @Celo.set_feeCurrency sample_crypto this' (JsVal (Celo.feeCurrency this'))
       = Ok this'.
Proof.
  destruct (@Celo.set_feeCurrency sample_crypto Celo.new_Cip64Transaction
              (JsVal "0x874069fa1eb16d44d622f2e0ca25eea172369bc1")) as [this'|] eqn:Es;
    [|vm_compute in Es; discriminate Es].
  exists this'. split; [reflexivity|].
  destruct (proj1 (@set_feeCurrency_idempotent sample_crypto _) _ _ Es) as (Hf & Hi & _).
  split; [exact Hf|exact Hi].
Defined.

(** ** Requests *)



(** X12. [prepareTransactionRequest] returns an empty result exactly when
    the request declares no fee currency or an empty one; otherwise its
    result holds the normalized fee currency, a fixed point of the
    normalizer, and it fails, with the normalizer's error, exactly when
    the non-empty fee currency is not an address.  The fee currency it
    returns is the one the constructor stores in the transaction built
    from an object with the same fee currency. *)
Theorem prepareTransactionRequest_result {crypto : Crypto}
  {generic : Generic Celo.CeloTransactionLike} (request : Celo.CeloTransactionRequest) :
  let fee := Celo.req_feeCurrency request in
  (Celo.prepareTransactionRequest request = Ok JsUndefined <-> truthy fee = false)
  /\ (forall v,
        Celo.prepareTransactionRequest request = Ok v -> v <> JsUndefined ->
        exists a, v = JsVal a /\ getAddress fee = Ok a /\ getAddress (JsVal a) = Ok a)
  /\ (forall e,
        Celo.prepareTransactionRequest request = Err e
        <-> truthy fee = true /\ getAddress fee = Err e)
  /\ (forall b tx,
        Celo.createTransaction (Celo.FromObject (Celo.mkCeloTransactionLike b fee))
        = Ok (Celo.Cip64 tx) ->
        Celo.prepareTransactionRequest request = Ok (JsVal (Celo.feeCurrency tx))).
Proof.
  intros fee. subst fee. unfold Celo.prepareTransactionRequest.
  destruct (truthy (Celo.req_feeCurrency request)) eqn:Et.
  - split; [|split; [|split]].
    + split; [|discriminate].
      destruct (getAddress _); cbn [bind]; discriminate.
    + intros v Hp _. bind_ok Hp as a Ea. injection Hp as <-.
      exists a. split; [reflexivity|]. split; [reflexivity|].
      eapply getAddress_normalized; eauto.
    + intros e. split.
      * destruct (getAddress _); cbn [bind]; [discriminate|]. now intros [= <-].
      * intros [_ ->]. reflexivity.
    + intros b tx Hc. apply Celo_create_object in Hc as (_ & _ & Ha & _).
      cbn [Celo.tl_feeCurrency] in Ha. rewrite Ha. reflexivity.
  - split; [|split; [|split]].
    + split; reflexivity.
    + intros v [= <-] Hv. now destruct Hv.
    + intros e. split; [discriminate|]. intros [Hx _]. discriminate Hx.
    + intros b tx Hc. apply Celo_create_object in Hc as (_ & Htr & _).
      cbn [Celo.tl_feeCurrency] in Htr. congruence.
Qed.

Lemma prepareTransactionRequest_result_witness :
  @Celo.prepareTransactionRequest sample_crypto
    (Celo.mkCeloTransactionRequest None
       (JsVal "0x874069fa1eb16d44d622f2e0ca25eea172369bc1"))
  = Ok (JsVal sample_feeCurrency).
Proof.
  destruct (proj1 (proj2 (@prepareTransactionRequest_result sample_crypto
              sample_celo_generic
              (Celo.mkCeloTransactionRequest None
                 (JsVal "0x874069fa1eb16d44d622f2e0ca25eea172369bc1"))))
              (JsVal sample_feeCurrency))
    as (a & Ha & Hg & _).
  - vm_compute. reflexivity.
  - discriminate.
  - vm_compute. reflexivity.
Defined.

(** ** The request rewrite *)

Lemma set_property_again (σ σ' : Store) (target : option JsValue) (key : string)
  (v : JsValue) :
  set_property σ target key v = Ok σ' -> set_property σ' target key v = Ok σ'.
Proof.
  intros Hs. apply set_property_frame in Hs as (l & obj & -> & Hobj & Hacc & ->).
  unfold set_property. rewrite lookup_insert_eq.
  assert (Hacc' : accepts (with_property obj key v) key = true).
  { unfold accepts in *. cbn [with_property integrity properties].
    destruct (integrity obj); [reflexivity| |discriminate Hacc].
    now rewrite lookup_insert_eq. }
  rewrite Hacc'. rewrite insert_insert_eq. f_equal. f_equal.
  unfold with_property. cbn [properties integrity]. f_equal. apply insert_insert_eq.
Qed.

Lemma set_property_fails (σ : Store) (target : option JsValue) (key : string)
  (v : JsValue) :
  is_ok (set_property σ target key v) = false
  <-> ~ exists l obj,
          target = Some (VRef l) /\ σ !! l = Some obj /\ accepts obj key = true.
Proof.
  unfold set_property. split.
  - intros Hf (l & obj & -> & Hobj & Hacc). rewrite Hobj, Hacc in Hf. discriminate Hf.
  - intros Hn. destruct target as [[| | | |l]|]; try reflexivity.
    destruct (σ !! l) as [obj|] eqn:E; [|reflexivity].
    destruct (accepts obj key) eqn:Ea; [|reflexivity].
    destruct Hn. eauto.
Qed.

Lemma set_property_code (σ : Store) (target : option JsValue) (key : string)
  (v : JsValue) (e : Error) :
  set_property σ target key v = Err e -> code e = JS_TYPE_ERROR.
Proof.
  unfold set_property. destruct target as [[| | | |l]|]; try (now intros [= <-]).
  destruct (σ !! l) as [obj|]; [|now intros [= <-]].
  destruct (accepts obj key); [discriminate|]. now intros [= <-].
Qed.

(** The rewrite of the standalone variant is that of the plugin on the
    same request, the fee currency moved into [customData]. *)
Lemma getRpcRequest_intercept (σ : Store) (request : JsonRpcRequestBody)
  (context : Celo.PerformActionRequest) :
  Celo.getRpcRequest σ (Some request) context
  = let* r := Plugin.intercept σ request (plugin_context context) in
    Ok (fst r, Some (snd r)).
Proof.
  unfold Celo.getRpcRequest, Plugin.intercept, plugin_context, plugin_request.
  cbn [Plugin.ctx_method Plugin.ctx_transaction Plugin.req_customData
       Plugin.declares_feeCurrency Plugin.customData_feeCurrency Plugin.cd_feeCurrency].
  destruct (_ && _ && _); [|reflexivity].
  destruct (set_property _ _ _ _); reflexivity.
Qed.

Lemma intercept_again (σ σ' : Store) (request request' : JsonRpcRequestBody)
  (context : Plugin.PerformActionRequest) :
  Plugin.intercept σ request context = Ok (σ', request') ->
  Plugin.intercept σ' request' context = Ok (σ', request').
Proof.
  unfold Plugin.intercept. destruct (_ && _ && _) eqn:Eg.
  - intros Hi. bind_ok Hi as σ1 Es. injection Hi as <- <-. rewrite Eg.
    rewrite (set_property_again _ _ _ _ _ Es). reflexivity.
  - intros [= <- <-]. rewrite Eg. reflexivity.
Qed.

(** X13. The two request rewrites coincide: [getRpcRequest] on a request
    does what the plugin's [intercept] does when the fee currency sits in
    [customData].  Both are idempotent: applied again to their own
    result, request and store come out unchanged. *)
Theorem rpc_rewrite_idempotent (σ : Store) (request : JsonRpcRequestBody) :
  (forall context,
     Celo.getRpcRequest σ (Some request) context
     = let* r := Plugin.intercept σ request (plugin_context context) in
       Ok (fst r, Some (snd r)))
  /\ (forall context σ' request',
        Plugin.intercept σ request context = Ok (σ', request') ->
        Plugin.intercept σ' request' context = Ok (σ', request'))
  /\ (forall context σ' request',
        Celo.getRpcRequest σ (Some request) context = Ok (σ', request') ->
        Celo.getRpcRequest σ' request' context = Ok (σ', request')).
Proof.
  split; [apply getRpcRequest_intercept|].
  split; [intros context σ' request'; apply intercept_again|].
  intros context σ' request' Hg. rewrite getRpcRequest_intercept in Hg.
  bind_ok Hg as r Er. destruct r as [σ1 r1]. cbn [fst snd] in Hg.
  injection Hg as <- <-. rewrite getRpcRequest_intercept.
  rewrite (intercept_again _ _ _ _ _ Er). reflexivity.
Qed.

Lemma rpc_rewrite_idempotent_witness :
  exists σ',
    Plugin.intercept sample_store sample_request sample_plugin_context
    = Ok (σ', sample_request)
    /\ Plugin.intercept σ' sample_request sample_plugin_context = Ok (σ', sample_request).
Proof.
  destruct (Plugin.intercept sample_store sample_request sample_plugin_context)
    as [[σ' r]|] eqn:Ei; [|vm_compute in Ei; discriminate Ei].
  assert (r = sample_request) as ->.
  { unfold Plugin.intercept in Ei. cbn in Ei. now injection Ei as _ <-. }
  exists σ'. split; [reflexivity|].
  apply (proj1 (proj2 (rpc_rewrite_idempotent sample_store sample_request))
           sample_plugin_context σ' sample_request Ei).
Defined.

(** X14. The rewrite fails exactly when the request and the action are
    the gas estimation, the transaction declares a non-empty fee currency
    and the request's first argument does not take the assignment: it is
    missing, a primitive value, a frozen object, or an object closed to
    extension that has no such property.  The failure is a [TypeError].
    [getRpcRequest] returns a [null] request as it is, whereas
    [intercept], which has no null test, fails with a [TypeError] on
    one. *)
Theorem rpc_rewrite_fails (σ : Store) (request : JsonRpcRequestBody) :
  (forall context,
     is_ok (Plugin.intercept σ request context) = false
     <-> (method request = "eth_estimateGas"
          /\ Plugin.ctx_method context = "estimateGas"
          /\ Plugin.declares_feeCurrency
               (Plugin.req_customData (Plugin.ctx_transaction context)) = true)
         /\ ~ first_argument_assignable σ request)
  /\ (forall context,
        is_ok (Celo.getRpcRequest σ (Some request) context) = false
        <-> (method request = "eth_estimateGas"
             /\ Celo.ctx_method context = "estimateGas"
             /\ truthy (Celo.req_feeCurrency (Celo.ctx_transaction context)) = true)
            /\ ~ first_argument_assignable σ request)
  /\ (forall context, Celo.getRpcRequest σ None context = Ok (σ, None))
  /\ (forall context,
        exists e, Plugin.intercept_nullable σ None context = Err e
                  /\ code e = JS_TYPE_ERROR)
  /\ (forall context,
        Plugin.intercept_nullable σ (Some request) context
        = Plugin.intercept σ request context)
  /\ (forall context e,
        Plugin.intercept σ request context = Err e -> code e = JS_TYPE_ERROR)
  /\ (forall context e,
        Celo.getRpcRequest σ (Some request) context = Err e -> code e = JS_TYPE_ERROR)
  /\ (forall l obj,
        nth_error (args request) 0 = Some (VRef l) -> σ !! l = Some obj ->
        (integrity obj = Frozen -> ~ first_argument_assignable σ request)
        /\ (integrity obj = Extensible -> first_argument_assignable σ request)).
Proof.
  assert (Hp : forall context,
     is_ok (Plugin.intercept σ request context) = false
     <-> (method request = "eth_estimateGas"
          /\ Plugin.ctx_method context = "estimateGas"
          /\ Plugin.declares_feeCurrency
               (Plugin.req_customData (Plugin.ctx_transaction context)) = true)
         /\ ~ first_argument_assignable σ request).
  { intros context. unfold Plugin.intercept, first_argument_assignable.
    destruct (String.eqb (method request) "eth_estimateGas") eqn:Em.
    2:{ cbn [andb is_ok]. split; [discriminate|].
        intros [(Hm & _) _]. rewrite Hm in Em. discriminate Em. }
    destruct (String.eqb (Plugin.ctx_method context) "estimateGas") eqn:Ea.
    2:{ cbn [andb is_ok]. split; [discriminate|].
        intros [(_ & Ha & _) _]. rewrite Ha in Ea. discriminate Ea. }
    destruct (Plugin.declares_feeCurrency _) eqn:Ed.
    2:{ cbn [andb is_ok]. split; [discriminate|]. intros [(_ & _ & Hd) _]. discriminate Hd. }
    cbn [andb]. apply String.eqb_eq in Em, Ea.
    rewrite <- (set_property_fails σ (nth_error (args request) 0) "feeCurrency"
                  (js_of_nullable
                     (Plugin.customData_feeCurrency
                        (Plugin.req_customData (Plugin.ctx_transaction context))))).
    destruct (set_property _ _ _ _); cbn [bind is_ok]; tauto. }
  assert (Hc : forall context e,
        Plugin.intercept σ request context = Err e -> code e = JS_TYPE_ERROR).
  { intros context e. unfold Plugin.intercept.
    destruct (_ && _ && _); [|discriminate].
    destruct (set_property _ _ _ _) as [σ1|e1] eqn:Es; cbn [bind]; [discriminate|].
    intros [= <-]. eapply set_property_code; eauto. }
  split; [exact Hp|]. split; [|split; [reflexivity|]].
  { intros context. rewrite getRpcRequest_intercept.
    rewrite <- (Hp (plugin_context context)).
    destruct (Plugin.intercept _ _ _); reflexivity. }
  split; [intros context; eexists; split; reflexivity|].
  split; [reflexivity|]. split; [exact Hc|]. split.
  - intros context e. rewrite getRpcRequest_intercept.
    destruct (Plugin.intercept σ request (plugin_context context)) as [r|e1] eqn:Ei;
      cbn [bind]; [discriminate|].
    intros [= <-]. eapply Hc; eauto.
  - intros l obj Harg Hobj. unfold first_argument_assignable. split.
    + intros Hf (l' & obj' & Harg' & Hobj' & Hacc).
      rewrite Harg in Harg'. injection Harg' as <-. rewrite Hobj in Hobj'.
      injection Hobj' as <-. unfold accepts in Hacc. rewrite Hf in Hacc.
      discriminate Hacc.
    + intros He. exists l, obj. split; [exact Harg|]. split; [exact Hobj|].
      unfold accepts. now rewrite He.
Qed.

Lemma rpc_rewrite_fails_witness :
  is_ok (Plugin.intercept sample_store (mkRequest "eth_estimateGas" [])
           sample_plugin_context) = false
  /\ is_ok (Plugin.intercept sample_store
              (mkRequest "eth_estimateGas" [VString "0xabc"])
              sample_plugin_context) = false
  /\ is_ok (Celo.getRpcRequest frozen_store (Some sample_request) sample_celo_context)
     = false
  /\ is_ok (Plugin.intercept sample_store sample_request sample_plugin_context) = true.
Proof.
  split; [|split; [|split]].
  - apply (proj1 (rpc_rewrite_fails sample_store (mkRequest "eth_estimateGas" []))
             sample_plugin_context).
    split; [repeat split; reflexivity|].
    intros (l & obj & Hl & _). discriminate Hl.
  - apply (proj1 (rpc_rewrite_fails sample_store
                    (mkRequest "eth_estimateGas" [VString "0xabc"]))
             sample_plugin_context).
    split; [repeat split; reflexivity|].
    intros (l & obj & Hl & _). discriminate Hl.
  - apply (proj1 (proj2 (rpc_rewrite_fails frozen_store sample_request))
             sample_celo_context).
    split; [repeat split; reflexivity|].
    destruct (rpc_rewrite_fails frozen_store sample_request)
      as (_ & _ & _ & _ & _ & _ & _ & Hobj).
    apply (proj1 (Hobj 1%positive _ eq_refl eq_refl)). reflexivity.
  - destruct (Plugin.intercept sample_store sample_request sample_plugin_context)
      eqn:Ei; [reflexivity|].
    exfalso.
    apply (f_equal is_ok) in Ei. cbn [is_ok] in Ei.
    apply (proj1 (rpc_rewrite_fails sample_store sample_request)
             sample_plugin_context) in Ei as [_ Hn].
    apply Hn.
    destruct (rpc_rewrite_fails sample_store sample_request)
      as (_ & _ & _ & _ & _ & _ & _ & Hobj).
    apply (proj2 (Hobj 1%positive _ eq_refl eq_refl)). reflexivity.
Defined.

(** ** The type tag *)

(** The common part of the parsers skips the first byte without looking
    at it; only the hash of a signed payload depends on it. *)
Lemma parse_common_type_byte {crypto : Crypto} (b b' : byte) (rest : bytes)
  (tx : TransactionLike) (fee : option string) :
  parse_common (b :: rest) = Ok (tx, fee) ->
  parse_common (b' :: rest) = Ok (hashed_as tx (b' :: rest), fee).
Proof.
  unfold parse_common. cbn [skipn]. intros Hp.
  bind_ok Hp as decoded Ed. cbn [bind]. unfold assertArgument in *.
  destruct (well_shaped decoded); cbn [bind] in *; [|discriminate Hp].
  bind_ok Hp as mp E2. cbn [bind]. bind_ok Hp as mf E3. cbn [bind].
  bind_ok Hp as c E0. cbn [bind]. bind_ok Hp as n E1. cbn [bind].
  bind_ok Hp as g E4. cbn [bind]. bind_ok Hp as t E5. cbn [bind].
  bind_ok Hp as v E6. cbn [bind]. bind_ok Hp as d E7. cbn [bind].
  bind_ok Hp as al E8. cbn [bind]. bind_ok Hp as fc E9. cbn [bind].
  destruct (Nat.eqb _ 10).
  - injection Hp as <- <-. reflexivity.
  - unfold parseEipSignature in *.
    destruct (eipSignature _) as [sig|]; cbn [bind] in *; [|discriminate Hp].
    injection Hp as <- <-. reflexivity.
Qed.

(** X15. The parsers never look at the type tag: with any other first
    byte in place of it a payload that parses still parses, to the same
    field set and fee currency; only the hash of a signed payload, the
    digest of all its bytes, follows the change.  Both variants. *)
Theorem parse_ignores_type_byte {crypto : Crypto} (b b' : byte) (rest : bytes) :
  (forall like,
     Celo.parseCip64 (b :: rest) = Ok like ->
     Celo.parseCip64 (b' :: rest)
     = Ok (Celo.mkCeloTransactionLike (hashed_as (Celo.base like) (b' :: rest))
             (Celo.tl_feeCurrency like))
     /\ (tl_signature (Celo.base like) = None ->
         Celo.parseCip64 (b' :: rest) = Ok like))
  /\ (forall like,
        Plugin.parseCip64 (b :: rest) = Ok like ->
        Plugin.parseCip64 (b' :: rest)
        = Ok (Plugin.mkPluginTransactionLike (hashed_as (Plugin.base like) (b' :: rest))
                (Plugin.customData like))
        /\ (tl_signature (Plugin.base like) = None ->
            Plugin.parseCip64 (b' :: rest) = Ok like)).
Proof.
  assert (Hu : forall tx fee,
             parse_common (b :: rest) = Ok (tx, fee) -> tl_signature tx = None ->
             hashed_as tx (b' :: rest) = tx).
  { intros tx fee Hp Hn. destruct (parse_common_valid _ tx fee Hp) as (_ & _ & Hs).
    destruct Hs as [[Hh _] | (_ & s & Hs & _)]; [|congruence].
    destruct tx as [ty c n mp mf gp gl t v d al h sig]. unfold hashed_as.
    cbn [tl_hash tl_signature] in *. subst. reflexivity. }
  split; intros like Hp.
  - rewrite Celo_parse_common in Hp.
    destruct (parse_common (b :: rest)) as [[tx fee]|] eqn:Ec; [|discriminate].
    cbn [bind fst snd] in Hp. injection Hp as <-. cbn [Celo.base Celo.tl_feeCurrency].
    rewrite Celo_parse_common, (parse_common_type_byte b b' rest tx fee Ec).
    cbn [bind fst snd]. split; [reflexivity|].
    intros Hn. now rewrite (Hu tx fee eq_refl Hn).
  - rewrite Plugin_parse_common in Hp.
    destruct (parse_common (b :: rest)) as [[tx fee]|] eqn:Ec; [|discriminate].
    cbn [bind fst snd] in Hp. injection Hp as <-. cbn [Plugin.base Plugin.customData].
    rewrite Plugin_parse_common, (parse_common_type_byte b b' rest tx fee Ec).
    cbn [bind fst snd]. split; [reflexivity|].
    intros Hn. now rewrite (Hu tx fee eq_refl Hn).
Qed.

Lemma parse_ignores_type_byte_witness :
  exists like,
    @Celo.parseCip64 sample_crypto sample_rich_payload = Ok like
    /\ @Celo.parseCip64 sample_crypto (x02 :: skipn 1 sample_rich_payload) = Ok like.
Proof.
  destruct (@Celo.parseCip64 sample_crypto sample_rich_payload) as [like|] eqn:Ep;
    [|vm_compute in Ep; discriminate Ep].
  exists like. split; [reflexivity|].
  apply (proj1 (@parse_ignores_type_byte sample_crypto x7b x02
                  (skipn 1 sample_rich_payload)) like Ep).
  vm_compute in Ep. injection Ep as <-. reflexivity.
Defined.

(** ** Distinct transactions, distinct payloads *)

(** The list encoding is injective (on encodings shorter than 2^64
    bytes). *)
Lemma encodeRlp_injective (x y : RlpItem) :
  Z.of_nat (length (encodeRlp x)) < 2 ^ 64 ->
  encodeRlp x = encodeRlp y -> x = y.
Proof.
  intros Hsize He. pose proof (decodeRlp_encodeRlp x Hsize) as Hx.
  rewrite He in Hsize, Hx. rewrite (decodeRlp_encodeRlp y Hsize) in Hx.
  now injection Hx as ->.
Qed.

Lemma be_bytes_injective (v w : Z) : 0 <= v -> 0 <= w -> be_bytes v = be_bytes w -> v = w.
Proof.
  intros Hv Hw He. rewrite <- (be_value_be_bytes v Hv), <- (be_value_be_bytes w Hw).
  now rewrite He.
Qed.

(** The ten elements determine what the payload tells. *)
Lemma unsigned_fields_injective {crypto : Crypto} (t1 t2 : Transaction)
  (fee1 fee2 : string) :
  normalized t1 fee1 -> normalized t2 fee2 ->
  serializable t1 (JsVal fee1) -> serializable t2 (JsVal fee2) ->
  unsigned_fields t1 fee1 = unsigned_fields t2 fee2 ->
  payload_view t1 = payload_view t2 /\ fee1 = fee2.
Proof.
  intros (Hto1 & Hal1 & Hfee1) (Hto2 & Hal2 & Hfee2)
         (A1 & A2 & A3 & A4 & A5 & A6 & _) (B1 & B2 & B3 & B4 & B5 & B6 & _) He.
  unfold uint256 in *. unfold unsigned_fields, numeric_field in He.
  injection He as E0 E1 E2 E3 E4 E5 E6 E7 E8 E9.
  change (be_bytes (or_zero (chainId t1)) = be_bytes (or_zero (chainId t2))) in E0.
  change (be_bytes (or_zero (nonce t1)) = be_bytes (or_zero (nonce t2))) in E1.
  change (be_bytes (or_zero (maxPriorityFeePerGas t1))
          = be_bytes (or_zero (maxPriorityFeePerGas t2))) in E2.
  change (be_bytes (or_zero (maxFeePerGas t1)) = be_bytes (or_zero (maxFeePerGas t2)))
    in E3.
  change (be_bytes (or_zero (gasLimit t1)) = be_bytes (or_zero (gasLimit t2))) in E4.
  change (be_bytes (or_zero (value t1)) = be_bytes (or_zero (value t2))) in E6.
  apply be_bytes_injective in E0, E1, E2, E3, E4, E6; try lia.
  assert (Hto : forall t, (forall a, to t = Some a -> getAddress (JsVal a) = Ok a) ->
            handleAddress
              (RBytes (match to t with Some a => address_bytes a | None => [] end))
            = Ok (to t)).
  { intros t Ht. destruct (to t) as [a|]; [|reflexivity].
    apply handleAddress_address. now apply Ht. }
  assert (Eto : to t1 = to t2).
  { pose proof (Hto t1 Hto1) as H1. rewrite E5, (Hto t2 Hto2) in H1. congruence. }
  assert (Hal : forall t, (forall al, accessList t = Some al -> accessListify al = Ok al) ->
            handleAccessList
              (RList (match accessList t with
                      | Some l => map access_set_item l
                      | None => []
                      end)) "accessList"
            = Ok (match accessList t with Some al => al | None => [] end)).
  { intros t Ht. destruct (accessList t) as [al|]; [|reflexivity].
    apply handleAccessList_roundtrip. now apply Ht. }
  assert (Eal : match accessList t1 with Some al => al | None => [] end
                = match accessList t2 with Some al => al | None => [] end).
  { pose proof (Hal t1 Hal1) as H1. rewrite E8, (Hal t2 Hal2) in H1. congruence. }
  assert (Efee : fee1 = fee2).
  { pose proof (handleAddress_address fee1 fee1 Hfee1) as H1.
    rewrite E9, (handleAddress_address fee2 fee2 Hfee2) in H1. congruence. }
  split; [|exact Efee]. unfold payload_view. congruence.
Qed.

(** X16. The unsigned serialization is injective on what a payload tells:
    two transactions with normalized addresses and access lists that
    serialize to the same payload have the same fee currency, recipient,
    data and access list and the same numbers, an absent number counting
    as zero.  (Payload shorter than 2^31 bytes.) *)
Theorem unsignedSerialized_injective {crypto : Crypto} (t1 t2 : Transaction)
  (fee1 fee2 : string) (out : bytes) :
  normalized t1 fee1 -> normalized t2 fee2 ->
  Celo.unsignedSerialized (Celo.mkCip64Transaction t1 fee1) = Ok out ->
  Celo.unsignedSerialized (Celo.mkCip64Transaction t2 fee2) = Ok out ->
  Z.of_nat (length out) < 2 ^ 31 ->
  payload_view t1 = payload_view t2 /\ fee1 = fee2.
Proof.
  intros Hn1 Hn2 Hs1 Hs2 Hsize.
  unfold Celo.unsignedSerialized in Hs1, Hs2. rewrite serialize_variants in Hs1, Hs2.
  apply Plugin_serialize_iff in Hs1 as (S1 & _ & f1 & [= <-] & E1).
  apply Plugin_serialize_iff in Hs2 as (S2 & _ & f2 & [= <-] & E2).
  cbn [optional_signature_fields] in E1, E2. rewrite app_nil_r in E1, E2.
  apply (unsigned_fields_injective t1 t2 fee1 fee2 Hn1 Hn2 S1 S2).
  assert (Hl : RList (unsigned_fields t1 fee1) = RList (unsigned_fields t2 fee2)).
  { apply encodeRlp_injective.
    - rewrite E1 in Hsize. cbn [length] in Hsize. rewrite Nat2Z.inj_succ in Hsize.
      assert (Hp : 2 ^ 31 <= 2 ^ 64) by (apply Z.pow_le_mono_r; lia). lia.
    - rewrite E1 in E2. now injection E2. }
  exact (f_equal (fun r => match r with RList l => l | RBytes _ => [] end) Hl).
Qed.

Lemma unsignedSerialized_injective_witness :
  sample_sparse_fields <> sample_dense_fields
  /\ @Celo.unsignedSerialized sample_crypto
       (Celo.mkCip64Transaction sample_sparse_fields sample_feeCurrency)
     = Ok sample_unsigned_payload
  /\ @Celo.unsignedSerialized sample_crypto
       (Celo.mkCip64Transaction sample_dense_fields sample_feeCurrency)
     = Ok sample_unsigned_payload
  /\ payload_view sample_sparse_fields = payload_view sample_dense_fields
  /\ @Celo.unsignedSerialized sample_crypto
       (Celo.mkCip64Transaction sample_rich_fields sample_feeCurrency)
     <> @Celo.unsignedSerialized sample_crypto
          (Celo.mkCip64Transaction sample_fields sample_feeCurrency).
Proof.
  assert (Hn : forall t, to t = None \/ to t = Some sample_feeCurrency ->
                 accessList t = None \/ accessList t = Some []
                 \/ accessList t = Some sample_access_list ->
                 @normalized sample_crypto t sample_feeCurrency).
  { intros t Ht Ha. split; [|split; [|reflexivity]].
    - intros a Hto. destruct Ht as [Ht | Ht]; rewrite Ht in Hto; [discriminate|].
      injection Hto as <-. reflexivity.
    - intros al Hal. destruct Ha as [Ha | [Ha | Ha]]; rewrite Ha in Hal;
        [discriminate| |]; injection Hal as <-; reflexivity. }
  split; [discriminate|]. split; [vm_compute; reflexivity|].
  split; [vm_compute; reflexivity|]. split.
  - apply (@unsignedSerialized_injective sample_crypto sample_sparse_fields
             sample_dense_fields sample_feeCurrency sample_feeCurrency
             sample_unsigned_payload).
    + apply Hn; [left; reflexivity|left; reflexivity].
    + apply Hn; [left; reflexivity|right; left; reflexivity].
    + vm_compute. reflexivity.
    + vm_compute. reflexivity.
    + vm_compute. reflexivity.
  - intros He.
    assert (H1 : @Celo.unsignedSerialized sample_crypto
                   (Celo.mkCip64Transaction sample_rich_fields sample_feeCurrency)
                 = Ok sample_rich_payload) by (vm_compute; reflexivity).
    assert (H2 : @Celo.unsignedSerialized sample_crypto
                   (Celo.mkCip64Transaction sample_fields sample_feeCurrency)
                 = Ok sample_rich_payload) by (rewrite <- He; exact H1).
    destruct (@unsignedSerialized_injective sample_crypto sample_rich_fields
                sample_fields sample_feeCurrency sample_feeCurrency sample_rich_payload)
      as [Hv _].
    + apply Hn; [right; reflexivity|right; right; reflexivity].
    + apply Hn; [left; reflexivity|right; left; reflexivity].
    + exact H1.
    + exact H2.
    + vm_compute. reflexivity.
    + discriminate Hv.
Defined.

(** ** The constructors on text *)

Lemma type_byte (b : byte) : (Z_of_byte b =? CIP_64_TYPE_NUMBER) = true <-> b = x7b.
Proof.
  split.
  - intros Hb. apply Z.eqb_eq in Hb. rewrite <- (byte_of_Z_of_byte b), Hb. reflexivity.
  - intros ->. reflexivity.
Qed.

Lemma delegated_error {A B : Type} (r : Result A) (f : A -> B) (e : Error) :
  (let* t := r in Ok (f t)) = Err e <-> r = Err e.
Proof.
  destruct r; cbn [bind]; split; try discriminate; now intros [= <-].
Qed.

(** The standalone constructor on a text that is the text of bytes. *)
Lemma Celo_create_text {crypto : Crypto} {generic : Generic Celo.CeloTransactionLike}
  (s : string) (contents : bytes) :
  getBytes s = Ok contents ->
  Celo.createTransaction (Celo.FromString s)
  = match contents with
    | b :: rest =>
        if Z_of_byte b =? CIP_64_TYPE_NUMBER then
          let* parsed := Celo.parseCip64 contents in
          Celo.createTransaction (Celo.FromObject parsed)
        else let* t := Transaction_from_text s in Ok (Celo.Delegated t)
    | [] => let* t := Transaction_from_text s in Ok (Celo.Delegated t)
    end.
Proof.
  intros Hg. unfold Celo.createTransaction. rewrite Hg.
  destruct (String.eqb s "") eqn:Es; [|reflexivity].
  apply String.eqb_eq in Es as ->. discriminate Hg.
Qed.

Lemma Plugin_create_text {crypto : Crypto}
  {generic : Generic Plugin.PluginTransactionLike} (s : string) (contents : bytes) :
  getBytes s = Ok contents ->
  Plugin.create (Plugin.FromString s)
  = match contents with
    | b :: rest =>
        if Z_of_byte b =? CIP_64_TYPE_NUMBER then
          let* parsed := Plugin.parseCip64 contents in
          Plugin.create (Plugin.FromObject parsed)
        else let* t := Transaction_from_text s in Ok (Plugin.Delegated t)
    | [] => let* t := Transaction_from_text s in Ok (Plugin.Delegated t)
    end.
Proof.
  intros Hg. unfold Plugin.create. rewrite Hg.
  destruct (String.eqb s "") eqn:Es; [|reflexivity].
  apply String.eqb_eq in Es as ->. discriminate Hg.
Qed.

(** The fee currency of a parsed object is an address or, in the
    standalone variant, [undefined], in the plugin, [null]. *)
Lemma Celo_parsed_fee {crypto : Crypto} (raw : bytes) (like : Celo.CeloTransactionLike) :
  Celo.parseCip64 raw = Ok like ->
  Celo.tl_feeCurrency like = JsUndefined \/ exists a, Celo.tl_feeCurrency like = JsVal a.
Proof.
  intros Hp. rewrite Celo_parse_common in Hp.
  destruct (parse_common raw) as [[b fee]|]; [|discriminate].
  cbn [bind fst snd] in Hp. injection Hp as <-. cbn [Celo.tl_feeCurrency].
  destruct fee as [a|]; [|now left]. unfold or_undefined.
  destruct (truthy (JsVal a)); eauto.
Qed.

Lemma Plugin_parsed_fee {crypto : Crypto} (raw : bytes)
  (like : Plugin.PluginTransactionLike) :
  Plugin.parseCip64 raw = Ok like ->
  Plugin.customData_feeCurrency (Plugin.customData like) = JsNull
  \/ exists a, Plugin.customData_feeCurrency (Plugin.customData like) = JsVal a.
Proof.
  intros Hp. rewrite Plugin_parse_common in Hp.
  destruct (parse_common raw) as [[b fee]|]; [|discriminate].
  cbn [bind fst snd] in Hp. injection Hp as <-.
  cbn [Plugin.customData Plugin.customData_feeCurrency Plugin.cd_feeCurrency].
  destruct fee as [a|]; [right; eauto|now left].
Qed.

(** X17. Why a constructor fails on text.  The standalone constructor
    fails exactly when the text is non-empty and is not the text of
    bytes; or is the text of a type-123 payload that the parser rejects;
    or the generic [Transaction.from] fails, called on the text of a
    payload of another type or on the object parsed from a type-123
    payload whose fee-currency element is empty; each time with that very
    error.  Once the parser has accepted a payload that holds a fee
    currency, the constructor cannot fail.  The plugin's constructor
    fails in the first two cases, when [Transaction.from] fails on the
    text of a payload of another type, and, with the invalid-address
    error on [null], when the payload parses but its fee-currency element
    is empty.  Neither returns a new empty transaction except for the
    empty text. *)
Theorem create_from_text_fails {crypto : Crypto}
  {celo_generic : Generic Celo.CeloTransactionLike}
  {plugin_generic : Generic Plugin.PluginTransactionLike} (s : string) :
  (forall e,
     Celo.createTransaction (Celo.FromString s) = Err e
     <-> getBytes s = Err e /\ s <> ""
         \/ (exists rest,
               getBytes s = Ok (x7b :: rest)
               /\ (Celo.parseCip64 (x7b :: rest) = Err e
                   \/ exists like,
                        Celo.parseCip64 (x7b :: rest) = Ok like
                        /\ Celo.tl_feeCurrency like = JsUndefined
                        /\ Transaction_from_object like = Err e))
         \/ (exists contents,
               getBytes s = Ok contents
               /\ (forall rest, contents <> x7b :: rest)
               /\ @Transaction_from_text _ celo_generic s = Err e))
  /\ (forall e,
        Plugin.create (Plugin.FromString s) = Err e
        <-> getBytes s = Err e /\ s <> ""
            \/ (exists rest,
                  getBytes s = Ok (x7b :: rest)
                  /\ (Plugin.parseCip64 (x7b :: rest) = Err e
                      \/ exists like,
                           Plugin.parseCip64 (x7b :: rest) = Ok like
                           /\ Plugin.customData_feeCurrency (Plugin.customData like)
                              = JsNull
                           /\ e = invalid_address JsNull))
            \/ (exists contents,
                  getBytes s = Ok contents
                  /\ (forall rest, contents <> x7b :: rest)
                  /\ @Transaction_from_text _ plugin_generic s = Err e))
  /\ (Celo.createTransaction (Celo.FromString s) = Ok Celo.NewTransaction <-> s = "")
  /\ (Plugin.create (Plugin.FromString s) = Ok Plugin.NewTransaction <-> s = "").
Proof.
  split; [|split; [|split]].
  - intros e. destruct (getBytes s) as [contents|e0] eqn:Eg.
    2:{ unfold Celo.createTransaction. rewrite Eg.
        destruct (String.eqb s "") eqn:Es.
        - apply String.eqb_eq in Es. split; [discriminate|].
          intros [[_ Hs] | [(rest & Hg & _) | (c & Hg & _)]];
            [now destruct Hs|discriminate Hg|discriminate Hg].
        - apply String.eqb_neq in Es. cbn [bind]. split.
          + intros [= <-]. left. auto.
          + intros [[[= <-] _] | [(rest & Hg & _) | (c & Hg & _)]];
              [reflexivity|discriminate Hg|discriminate Hg]. }
    rewrite (Celo_create_text s contents Eg).
    destruct contents as [|b rest].
    { rewrite delegated_error. split.
      - intros Ht. right. right. exists []. split; [reflexivity|].
        split; [discriminate|exact Ht].
      - intros [[Hg _] | [(rest & Hg & _) | (c & _ & _ & Ht)]];
          [discriminate Hg|discriminate Hg|exact Ht]. }
    destruct (Z_of_byte b =? CIP_64_TYPE_NUMBER) eqn:Eb.
    2:{ assert (Hb : forall rest', b :: rest <> x7b :: rest').
        { intros rest' [= -> _]. discriminate Eb. }
        rewrite delegated_error. split.
        - intros Ht. right. right. exists (b :: rest). auto.
        - intros [[Hg _] | [(rest' & [= Hg _] & _) | (c & _ & _ & Ht)]];
            [discriminate Hg| |exact Ht].
          subst b. discriminate Eb. }
    apply type_byte in Eb as ->.
    destruct (Celo.parseCip64 (x7b :: rest)) as [parsed|e0] eqn:Ep; cbn [bind].
    + rewrite (Celo_create_parsed _ _ Ep).
      destruct (Celo_parsed_fee _ _ Ep) as [Hf | [a Hf]]; rewrite Hf.
      * rewrite delegated_error. split.
        -- intros Ht. right. left. exists rest. split; [reflexivity|]. right.
           exists parsed. auto.
        -- intros [[Hg _] | [(rest' & [= <-] & Hp) | (c & [= <-] & Hc & _)]];
             [discriminate Hg| |now destruct (Hc rest)].
           rewrite Ep in Hp.
           destruct Hp as [Hp | (like & [= <-] & _ & Ht)]; [discriminate Hp|exact Ht].
      * split; [discriminate|].
        intros [[Hg _] | [(rest' & [= <-] & Hp) | (c & [= <-] & Hc & _)]];
          [discriminate Hg| |now destruct (Hc rest)].
        rewrite Ep in Hp.
        destruct Hp as [Hp | (like & [= <-] & Hu & _)]; [discriminate Hp|].
        rewrite Hf in Hu. discriminate Hu.
    + split.
      * intros [= <-]. right. left. eauto.
      * intros [[Hg _] | [(rest' & [= <-] & Hp) | (c & [= <-] & Hc & _)]];
          [discriminate Hg| |now destruct (Hc rest)].
        rewrite Ep in Hp.
        destruct Hp as [Hp | (like & Hl & _)]; [now injection Hp as <-|discriminate Hl].
  - intros e. destruct (getBytes s) as [contents|e0] eqn:Eg.
    2:{ unfold Plugin.create. rewrite Eg.
        destruct (String.eqb s "") eqn:Es.
        - apply String.eqb_eq in Es. split; [discriminate|].
          intros [[_ Hs] | [(rest & Hg & _) | (c & Hg & _)]];
            [now destruct Hs|discriminate Hg|discriminate Hg].
        - apply String.eqb_neq in Es. cbn [bind]. split.
          + intros [= <-]. left. auto.
          + intros [[[= <-] _] | [(rest & Hg & _) | (c & Hg & _)]];
              [reflexivity|discriminate Hg|discriminate Hg]. }
    rewrite (Plugin_create_text s contents Eg).
    destruct contents as [|b rest].
    { rewrite delegated_error. split.
      - intros Ht. right. right. exists []. split; [reflexivity|].
        split; [discriminate|exact Ht].
      - intros [[Hg _] | [(rest & Hg & _) | (c & _ & _ & Ht)]];
          [discriminate Hg|discriminate Hg|exact Ht]. }
    destruct (Z_of_byte b =? CIP_64_TYPE_NUMBER) eqn:Eb.
    2:{ assert (Hb : forall rest', b :: rest <> x7b :: rest').
        { intros rest' [= -> _]. discriminate Eb. }
        rewrite delegated_error. split.
        - intros Ht. right. right. exists (b :: rest). auto.
        - intros [[Hg _] | [(rest' & [= Hg _] & _) | (c & _ & _ & Ht)]];
            [discriminate Hg| |exact Ht].
          subst b. discriminate Eb. }
    apply type_byte in Eb as ->.
    destruct (Plugin.parseCip64 (x7b :: rest)) as [parsed|e0] eqn:Ep; cbn [bind].
    + rewrite (Plugin_create_parsed _ _ Ep).
      destruct (Plugin_parsed_fee _ _ Ep) as [Hf | [a Hf]]; rewrite Hf.
      * split.
        -- intros [= <-]. right. left. exists rest. split; [reflexivity|]. right.
           exists parsed. auto.
        -- intros [[Hg _] | [(rest' & [= <-] & Hp) | (c & [= <-] & Hc & _)]];
             [discriminate Hg| |now destruct (Hc rest)].
           rewrite Ep in Hp.
           destruct Hp as [Hp | (like & _ & _ & ->)]; [discriminate Hp|reflexivity].
      * split; [discriminate|].
        intros [[Hg _] | [(rest' & [= <-] & Hp) | (c & [= <-] & Hc & _)]];
          [discriminate Hg| |now destruct (Hc rest)].
        rewrite Ep in Hp.
        destruct Hp as [Hp | (like & [= <-] & Hu & _)]; [discriminate Hp|].
        rewrite Hf in Hu. discriminate Hu.
    + split.
      * intros [= <-]. right. left. eauto.
      * intros [[Hg _] | [(rest' & [= <-] & Hp) | (c & [= <-] & Hc & _)]];
          [discriminate Hg| |now destruct (Hc rest)].
        rewrite Ep in Hp.
        destruct Hp as [Hp | (like & Hl & _)]; [now injection Hp as <-|discriminate Hl].
  - unfold Celo.createTransaction. destruct (String.eqb s "") eqn:Es.
    { apply String.eqb_eq in Es. tauto. }
    apply String.eqb_neq in Es. split; [|tauto].
    destruct (getBytes s) as [[|b rest]|]; cbn [bind]; try discriminate.
    { destruct (Transaction_from_text s); discriminate. }
    destruct (Z_of_byte b =? CIP_64_TYPE_NUMBER);
      [|destruct (Transaction_from_text s); discriminate].
    destruct (Celo.parseCip64 (b :: rest)) as [parsed|]; cbn [bind]; [|discriminate].
    unfold Celo.createFromObject.
    destruct (_ && _); [|destruct (Transaction_from_object _); discriminate].
    destruct (Celo.set_feeCurrency _ _); cbn [bind]; [|discriminate].
    destruct (copy_fields _ _); discriminate.
  - unfold Plugin.create. destruct (String.eqb s "") eqn:Es.
    { apply String.eqb_eq in Es. tauto. }
    apply String.eqb_neq in Es. split; [|tauto].
    destruct (getBytes s) as [[|b rest]|]; cbn [bind]; try discriminate.
    { destruct (Transaction_from_text s); discriminate. }
    destruct (Z_of_byte b =? CIP_64_TYPE_NUMBER);
      [|destruct (Transaction_from_text s); discriminate].
    destruct (Plugin.parseCip64 (b :: rest)) as [parsed|]; cbn [bind]; [|discriminate].
    unfold Plugin.createFromObject.
    destruct (tl_type _) as [ty|];
      [|destruct (Transaction_from_object _); discriminate].
    destruct (Plugin.customData parsed);
      [|destruct (Transaction_from_object _); discriminate].
    destruct (ty =? _); [|destruct (Transaction_from_object _); discriminate].
    destruct (Plugin.set_feeCurrency _ _); cbn [bind]; [|discriminate].
    destruct (copy_fields _ _); discriminate.
Qed.

Lemma create_from_text_fails_witness :
  @Plugin.create sample_crypto sample_plugin_generic
    (Plugin.FromString (hexlify (sample_payload 10)))
  = Err (invalid_address JsNull)
  /\ @Celo.createTransaction sample_crypto sample_celo_generic
       (Celo.FromString (hexlify (sample_payload 10)))
     = Err unsupported_type
  /\ @Celo.createTransaction sample_crypto sample_celo_generic (Celo.FromString "0x05")
     = Err unsupported_type
  /\ exists e,
       @Celo.createTransaction sample_crypto sample_celo_generic
         (Celo.FromString (hexlify (sample_payload 9)))
       = Err e.
Proof.
  pose proof (@create_from_text_fails sample_crypto sample_celo_generic
                sample_plugin_generic) as H.
  split; [|split; [|split]].
  - apply (proj1 (proj2 (H (hexlify (sample_payload 10))))).
    right. left. exists (skipn 1 (sample_payload 10)). split; [vm_compute; reflexivity|].
    right.
    destruct (@Plugin.parseCip64 sample_crypto (x7b :: skipn 1 (sample_payload 10)))
      as [like|] eqn:Ep; [|vm_compute in Ep; discriminate Ep].
    exists like. split; [reflexivity|]. split; [|reflexivity].
    vm_compute in Ep. injection Ep as <-. reflexivity.
  - apply (proj1 (H (hexlify (sample_payload 10)))).
    right. left. exists (skipn 1 (sample_payload 10)). split; [vm_compute; reflexivity|].
    right.
    destruct (@Celo.parseCip64 sample_crypto (x7b :: skipn 1 (sample_payload 10)))
      as [like|] eqn:Ep; [|vm_compute in Ep; discriminate Ep].
    exists like. split; [reflexivity|].
    vm_compute in Ep. injection Ep as <-. split; reflexivity.
  - apply (proj1 (H "0x05")).
    right. right. exists [x05]. split; [reflexivity|].
    split; [discriminate|reflexivity].
  - destruct (@Celo.parseCip64 sample_crypto (x7b :: skipn 1 (sample_payload 9)))
      as [like|e] eqn:Ep; [vm_compute in Ep; discriminate Ep|].
    exists e.
    apply (proj1 (H (hexlify (sample_payload 9)))).
    right. left. exists (skipn 1 (sample_payload 9)).
    split; [vm_compute; reflexivity|]. left. exact Ep.
Defined.
